(** * LSB watermark codec and ownership workflow

    A shallow embedding of the watermarking core of the repository:
    [backend.py] (WatermarkProcessor, WatermarkValidator,
    WatermarkDataManager, WatermarkService), the gate of
    [frontend.py] (EmbedWatermarkPage) and the stand-alone extractor of
    [watermark_gui.py].

    Conventions of the embedding.
    - A Python [str] is the list of its code points ([N]); [ord] and
      [chr] are the identity on that representation.
    - A string of binary digits (what [format(.., '08b')] and
      [str(x & 1)] produce, what [int(.., 2)] and [str.find] consume) is
      a [list bool]: [true] is the character '1', [false] is '0'.
    - A flattened pixel array ([np.array(img).flatten()]) is a
      [list Z] of samples; the images come from [.convert('RGB')], so the
      samples of real inputs are bytes ([is_byte]).
    - Exceptions are values of [result]. *)

From Stdlib Require Import ZArith NArith Lia List String Ascii.
From stdpp Require Import base option list numbers gmap.

Local Open Scope nat_scope.

(** ** Python values and exceptions *)

Module Py.

(** A Python [str]: the sequence of its code points. *)
Abbreviation text := (list N).

(** A '0'/'1' string. *)
Abbreviation bits := (list bool).

(** The exceptions the modelled code can raise. *)
Inductive exn :=
| ValueError (msg : string)
| IndexError
| UnicodeEncodeError
| AttributeError
(** PIL's, for a file that is no image. *)
| UnidentifiedImageError
(** Whatever the blockchain client raises. *)
| RuntimeError (msg : string)
(** The model's own: a reference to no object. No run of the modelled code
    reaches it. *)
| Dangling.

Inductive result (A : Type) :=
| Ok (a : A)
| Raise (e : exn).
Arguments Ok {A} a.
Arguments Raise {A} e.

(** Sequencing: an exception ends the computation. The notation
    [x ← m; k] is stdpp's. *)
Global Instance result_bind : MBind result := fun A B k m =>
  match m with
  | Ok a => k a
  | Raise e => Raise e
  end.

Global Instance result_ret : MRet result := fun A a => Ok a.

(** [for i in idx: s = body(s, i)], stopping at the first exception. *)
Fixpoint for_each {St} (body : St -> nat -> result St) (s : St)
  (idx : list nat) : result St :=
  match idx with
  | [] => Ok s
  | i :: idx' => s' ← body s i; for_each body s' idx'
  end.

(** [n > m] on lengths is decided as [m < n]. *)
Global Instance nat_gt_dec (n m : nat) : Decision (n > m) := decide (m < n).

(** [range(n)]. *)
Definition range (n : nat) : list nat := seq 0 n.

(** [range(start, stop, step)] for a positive [step]. *)
Definition range3 (start stop step : nat) : list nat :=
  map (fun k => start + k * step) (seq 0 ((stop - start + (step - 1)) / step)).

(** [l[i:j]] for [0 <= i <= j]: out-of-range bounds are clamped. *)
Definition slice {A} (l : list A) (i j : nat) : list A :=
  take (j - i) (drop i l).

(** [l[i]] for [0 <= i]: IndexError past the end. *)
Definition getitem {A} (l : list A) (i : nat) : result A :=
  match l !! i with
  | Some x => Ok x
  | None => Raise IndexError
  end.

(** [l[i] = v] for [0 <= i]: IndexError past the end. *)
Definition setitem {A} (l : list A) (i : nat) (v : A) : result (list A) :=
  if decide (i < length l) then Ok (<[i := v]> l) else Raise IndexError.

(** [format(n, 'b')]: the binary digits of [n], most significant first,
    a single '0' for zero. *)
Definition format_b (n : N) : bits :=
  match n with
  | 0%N => [false]
  | _ => map (fun i => N.testbit_nat n i) (rev (seq 0 (N.size_nat n)))
  end.

(** [format(n, '08b')]: [format_b] padded on the left with '0' to a width
    of at least 8. Nothing is cut: a number above 255 keeps all of its
    digits. *)
Definition format_08b (n : N) : bits :=
  let d := format_b n in
  replicate (8 - length d) false ++ d.

(** [int(c, 2)] on a string of binary digits. *)
Definition int2 (c : bits) : N :=
  fold_left (fun acc (b : bool) => (2 * acc + N.b2n b)%N) c 0%N.

(** [int(ch)] for a binary digit [ch]. *)
Definition int_digit (b : bool) : Z := Z.b2z b.

(** [str(z)] for [z] one of 0 and 1, the only values [x & 1] takes. *)
Definition str_bit (z : Z) : bool := negb (z =? 0)%Z.

(** [s[i:i+len(sub)] == sub]. *)
Definition occurs_at (sub s : bits) (i : nat) : Prop :=
  slice s i (i + length sub) = sub.

(** The scan of [str.find]: the candidates are tried from the left, [i]
    is the index of the head of [s] in the whole string. *)
Fixpoint find_from (sub s : bits) (i : nat) : Z :=
  if decide (take (length sub) s = sub) then Z.of_nat i
  else match s with
       | [] => (-1)%Z
       | _ :: s' => find_from sub s' (S i)
       end.

(** [s.find(sub)]: the lowest index at which [sub] occurs, -1 if none. *)
Definition find (s sub : bits) : Z := find_from sub s 0.

End Py.
Export Py.

(** ** backend.py: WatermarkProcessor *)

Module WatermarkProcessor.

(** [''.join([format(ord(i), '08b') for i in s])] *)
Definition str_to_bin (s : text) : bits :=
  concat (map format_08b s).

(** [chr(n)] on the representation of characters by their ordinals. It
    is applied to [int(c, 2)] of 8 digits only, which is below 256. *)
Definition chr (n : N) : N := n.

(** [chars = [b[i:i+8] for i in range(0, len(b), 8)]]
    [''.join([chr(int(c, 2)) for c in chars if len(c) == 8])] *)
Definition bin_to_str (b : bits) : text :=
  let chars := map (fun i => slice b i (i + 8)) (range3 0 (length b) 8) in
  map (fun c => chr (int2 c)) (filter (fun c => length c = 8) chars).

(** The EOF marker ['1111111111111110']. *)
Definition EOF : bits := replicate 15 true ++ [false].

(** The body of [for i in range(len(data)):
      flat[i] = (flat[i] & 0xFE) | int(data[i])]. *)
Definition embed_step (data : bits) (flat : list Z) (i : nat)
  : result (list Z) :=
  d ← getitem data i;
  x ← getitem flat i;
  setitem flat i (Z.lor (Z.land x 254) (int_digit d)).

(** [embed_watermark(img, watermark_json)] on the flattened samples of
    [img]. [np.array(img)] and [arr.flatten()] are copies, so the
    function works on a value of its own; the shape, which [reshape]
    restores, is not modelled. *)
Definition embed_watermark (img : list Z) (watermark_json : text)
  : result (list Z) :=
  let data := str_to_bin watermark_json in
  let data := data ++ EOF in
  let flat := img in
  if decide (length data > length flat) then
    Raise (ValueError "Watermark data is too large for this image.")
  else
    for_each (embed_step data) flat (range (length data)).

(** The scan bound [4096 * 8 * 3]. *)
Definition pixel_check_cap : nat := 4096 * 8 * 3.

(** The body of [for i in range(pixel_check_limit):
      bits.append(str(flat[i] & 1))]. *)
Definition extract_step (flat : list Z) (acc : bits) (i : nat)
  : result bits :=
  x ← getitem flat i;
  Ok (acc ++ [str_bit (Z.land x 1)]).

(** [extract_watermark(img)] on the flattened samples of [img]; the
    Python [None] is [None], a string is [Some]. *)
Definition extract_watermark (img : list Z) : result (option text) :=
  let flat := img in
  let pixel_check_limit := Nat.min (length flat) pixel_check_cap in
  bits_list ← for_each (extract_step flat) [] (range pixel_check_limit);
  let bits_str := bits_list in
  let eof := find bits_str EOF in
  if decide (eof = (-1)%Z) then Ok None
  else
    let data := slice bits_str 0 (Z.to_nat eof) in
    Ok (Some (bin_to_str data)).

End WatermarkProcessor.

(** ** watermark_gui.py: the stand-alone codec *)

Module Gui.

(** The GUI's [str_to_bin] and [bin_to_str] are the backend's, word for
    word. *)
Definition str_to_bin := WatermarkProcessor.str_to_bin.
Definition bin_to_str := WatermarkProcessor.bin_to_str.

(** [extract_watermark(img)]: every sample of the buffer is read. *)
Definition extract_watermark (img : list Z) : result (option text) :=
  let flat := img in
  bits_list ← for_each (WatermarkProcessor.extract_step flat) []
                 (range (length flat));
  let bits_str := bits_list in
  let eof := find bits_str WatermarkProcessor.EOF in
  if decide (eof = (-1)%Z) then Ok None
  else
    let data := slice bits_str 0 (Z.to_nat eof) in
    Ok (Some (bin_to_str data)).

(** [embed_watermark(img, watermark)]: the back end's, but for the text
    of the error. *)
Definition embed_watermark (img : list Z) (watermark : text)
  : result (list Z) :=
  let data := str_to_bin watermark in
  let data := data ++ WatermarkProcessor.EOF in
  let flat := img in
  if decide (length data > length flat) then
    Raise (ValueError "Watermark data too large for this image.")
  else
    for_each (WatermarkProcessor.embed_step data) flat (range (length data)).

End Gui.


(** ** The Python library functions the back end calls *)

Module Lib.

Local Open Scope N_scope.

(** A string literal as a [text]. *)
Definition text_of_string (s : string) : text :=
  map N_of_ascii (list_ascii_of_string s).

(** [sep.join(parts)]. *)
Fixpoint join (sep : text) (parts : list text) : text :=
  match parts with
  | [] => []
  | [p] => p
  | p :: ps => p ++ sep ++ join sep ps
  end.

(** One lowercase hexadecimal digit. *)
Definition hex_digit (n : N) : N :=
  if n <? 10 then 48 + n else 87 + n.

(** ['{0:04x}'.format(n)] for [n < 0x10000]. *)
Definition hex4 (n : N) : text :=
  [hex_digit (n / 4096 mod 16); hex_digit (n / 256 mod 16);
   hex_digit (n / 16 mod 16); hex_digit (n mod 16)].

(** The backslash-u escape of a code unit. *)
Definition u_escape (n : N) : text := [92; 117] ++ hex4 n.

(** json's [ESCAPE_DCT]: backslash, the double quote, the short escapes
    and the other control characters below 0x20. *)
Definition escape_dct (c : N) : option text :=
  if c =? 92 then Some [92; 92]
  else if c =? 34 then Some [92; 34]
  else if c =? 8 then Some [92; 98]
  else if c =? 12 then Some [92; 102]
  else if c =? 10 then Some [92; 110]
  else if c =? 13 then Some [92; 114]
  else if c =? 9 then Some [92; 116]
  else if c <? 32 then Some (u_escape c)
  else None.

(** [json.encoder.py_encode_basestring_ascii]: whatever is not a
    printable ASCII character (space to tilde), and the two characters that
    must be escaped, is replaced; a code point above 0xFFFF becomes a
    surrogate pair. *)
Definition escape_ascii (c : N) : text :=
  if (32 <=? c) && (c <=? 126) && negb (c =? 92) && negb (c =? 34) then [c]
  else match escape_dct c with
       | Some e => e
       | None =>
           if c <? 65536 then u_escape c
           else
             let n := c - 65536 in
             u_escape (N.lor 55296 (N.land (N.shiftr n 10) 1023))
               ++ u_escape (N.lor 56320 (N.land n 1023))
       end.

Definition encode_basestring_ascii (s : text) : text :=
  [34] ++ concat (map escape_ascii s) ++ [34].

(** [json.encoder.py_encode_basestring], used with [ensure_ascii=False]:
    only [ESCAPE_DCT] is applied. *)
Definition escape_raw (c : N) : text :=
  match escape_dct c with
  | Some e => e
  | None => [c]
  end.

Definition encode_basestring (s : text) : text :=
  [34] ++ concat (map escape_raw s) ++ [34].

(** A dict whose keys and values are strings, in insertion order (the
    order [json.dumps] writes). *)
Definition str_dict := list (text * text).

Definition dumps_with (enc : text -> text) (item_sep key_sep : text)
  (d : str_dict) : text :=
  [123] ++ join item_sep (map (fun kv => enc kv.1 ++ key_sep ++ enc kv.2) d)
    ++ [125].

(** [json.dumps(d)] *)
Definition json_dumps (d : str_dict) : text :=
  dumps_with encode_basestring_ascii [44; 32] [58; 32] d.

(** [json.dumps(d, separators=(",", ":"), ensure_ascii=False)] *)
Definition json_dumps_compact (d : str_dict) : text :=
  dumps_with encode_basestring [44] [58] d.

(** The UTF-8 bytes of one code point; a surrogate is refused, as the
    strict error handler of [str.encode()] does. *)
Definition utf8_char (c : N) : result (list N) :=
  if c <? 128 then Ok [c]
  else if c <? 2048 then Ok [192 + c / 64; 128 + c mod 64]
  else if c <? 65536 then
    if (55296 <=? c) && (c <=? 57343) then Raise UnicodeEncodeError
    else Ok [224 + c / 4096; 128 + c / 64 mod 64; 128 + c mod 64]
  else Ok [240 + c / 262144; 128 + c / 4096 mod 64; 128 + c / 64 mod 64;
           128 + c mod 64].

(** [s.encode()] *)
Fixpoint encode (s : text) : result (list N) :=
  match s with
  | [] => Ok []
  | c :: s' => b ← utf8_char c; bs ← encode s'; Ok (b ++ bs)
  end.

(** [bytes.decode()] of ASCII bytes (what base64 produces). *)
Definition decode_ascii (b : list N) : text := b.

(** *** hashlib.sha256 (FIPS 180-4) on a list of bytes *)

Definition w32 (x : N) : N := x mod 4294967296.
Definition add32 (a b : N) : N := w32 (a + b).
Definition rotr (n x : N) : N :=
  N.lor (N.shiftr x n) (w32 (N.shiftl x (32 - n))).
Definition not32 (x : N) : N := N.lxor x 4294967295.
Definition Ch (x y z : N) : N := N.lxor (N.land x y) (N.land (not32 x) z).
Definition Maj (x y z : N) : N :=
  N.lxor (N.lxor (N.land x y) (N.land x z)) (N.land y z).
Definition Sigma0 (x : N) : N :=
  N.lxor (N.lxor (rotr 2 x) (rotr 13 x)) (rotr 22 x).
Definition Sigma1 (x : N) : N :=
  N.lxor (N.lxor (rotr 6 x) (rotr 11 x)) (rotr 25 x).
Definition sigma0 (x : N) : N :=
  N.lxor (N.lxor (rotr 7 x) (rotr 18 x)) (N.shiftr x 3).
Definition sigma1 (x : N) : N :=
  N.lxor (N.lxor (rotr 17 x) (rotr 19 x)) (N.shiftr x 10).

(** The round constants, in decimal. *)
Definition sha_K : list N :=
  [1116352408; 1899447441; 3049323471; 3921009573;
   961987163; 1508970993; 2453635748; 2870763221;
   3624381080; 310598401; 607225278; 1426881987;
   1925078388; 2162078206; 2614888103; 3248222580;
   3835390401; 4022224774; 264347078; 604807628;
   770255983; 1249150122; 1555081692; 1996064986;
   2554220882; 2821834349; 2952996808; 3210313671;
   3336571891; 3584528711; 113926993; 338241895;
   666307205; 773529912; 1294757372; 1396182291;
   1695183700; 1986661051; 2177026350; 2456956037;
   2730485921; 2820302411; 3259730800; 3345764771;
   3516065817; 3600352804; 4094571909; 275423344;
   430227734; 506948616; 659060556; 883997877;
   958139571; 1322822218; 1537002063; 1747873779;
   1955562222; 2024104815; 2227730452; 2361852424;
   2428436474; 2756734187; 3204031479; 3329325298].

(** The initial hash value. *)
Definition sha_H0 : list N :=
  [1779033703; 3144134277; 1013904242; 2773480762;
   1359893119; 2600822924; 528734635; 1541459225].

(** The big-endian bytes of [n], [k] of them. *)
Fixpoint be_bytes (k : nat) (n : N) : list N :=
  match k with
  | O => []
  | S k' => be_bytes k' (n / 256) ++ [n mod 256]
  end.

(** The padded message: a 1 bit, zeros up to 56 modulo 64 bytes, the bit
    length on 8 bytes. *)
Definition sha_pad (msg : list N) : list N :=
  let l := length msg in
  msg ++ [128] ++ replicate ((119 - l mod 64) mod 64)%nat 0
      ++ be_bytes 8 (8 * N.of_nat l).

(** [l] cut into [n] groups of [k]. *)
Fixpoint groups {A} (k n : nat) (l : list A) : list (list A) :=
  match n with
  | O => []
  | S n' => take k l :: groups k n' (drop k l)
  end.

Definition be_word (b : list N) : N :=
  fold_left (fun acc x => 256 * acc + x) b 0.

(** The message schedule: 16 words of the block, then 48 derived ones. *)
Definition sha_schedule (block : list N) : list N :=
  fold_left
    (fun w t =>
       w ++ [add32 (add32 (add32 (sigma1 (nth (t - 2) w 0)) (nth (t - 7) w 0))
                      (sigma0 (nth (t - 15) w 0))) (nth (t - 16) w 0)])
    (seq 16 48) (map be_word (groups 4 16 block)).

Definition sha_round (st : list N) (kw : N * N) : list N :=
  match st with
  | [a; b; c; d; e; f; g; h] =>
      let t1 := add32 (add32 (add32 (add32 h (Sigma1 e)) (Ch e f g)) kw.1) kw.2 in
      let t2 := add32 (Sigma0 a) (Maj a b c) in
      [add32 t1 t2; a; b; c; add32 d t1; e; f; g]
  | _ => st
  end.

Definition sha_compress (h : list N) (block : list N) : list N :=
  zip_with add32 h (fold_left sha_round (zip sha_K (sha_schedule block)) h).

Definition sha256_words (msg : list N) : list N :=
  let m := sha_pad msg in
  fold_left sha_compress (groups 64 (length m / 64) m) sha_H0.

(** [hashlib.sha256(msg).hexdigest()] *)
Definition sha256_hexdigest (msg : list N) : text :=
  concat (map (fun w => concat (map (fun b => [hex_digit (b / 16); hex_digit (b mod 16)])
                                   (be_bytes 4 w)))
            (sha256_words msg)).

(** *** base64.b64encode *)

Definition b64_char (n : N) : N :=
  if n <? 26 then 65 + n
  else if n <? 52 then 71 + n
  else if n <? 62 then n - 4
  else if n =? 62 then 43 else 47.

Fixpoint b64_groups (fuel : nat) (b : list N) : list N :=
  match fuel with
  | O => []
  | S fuel' =>
      match b with
      | [] => []
      | [x] => [b64_char (x / 4); b64_char (x mod 4 * 16); 61; 61]
      | [x; y] =>
          [b64_char (x / 4); b64_char (x mod 4 * 16 + y / 16);
           b64_char (y mod 16 * 4); 61]
      | x :: y :: z :: b' =>
          [b64_char (x / 4); b64_char (x mod 4 * 16 + y / 16);
           b64_char (y mod 16 * 4 + z / 64); b64_char (z mod 64)]
            ++ b64_groups fuel' b'
      end
  end.

Definition b64encode (b : list N) : list N := b64_groups (length b) b.

End Lib.
Export Lib.

(** ** The same embedding on objects

    [embed_watermark] above is a function of values. Here the image and
    the arrays are objects of a store, so that what the call does to the
    caller's image can be stated: [np.array] and [flatten] allocate copies,
    the loop writes into the flattened copy, [reshape] is a view of it and
    [Image.fromarray] makes the image that is returned. *)

Module Objects.

Abbreviation loc := nat.

(** The store: every image and array, by its flattened samples. *)
Abbreviation heap := (gmap nat (list Z)).

(** A computation on the store that may raise; the store survives an
    exception. *)
Definition M (A : Type) : Type := heap -> result A * heap.

Global Instance M_ret : MRet M := fun A a h => (Ok a, h).

Global Instance M_bind : MBind M := fun A B k m h =>
  match m h with
  | (Ok a, h') => k a h'
  | (Raise e, h') => (Raise e, h')
  end.

Definition raise {A} (e : exn) : M A := fun h => (Raise e, h).

Definition lift {A} (r : result A) : M A := fun h => (r, h).

(** A new object holding [v]. *)
Definition alloc (v : list Z) : M loc := fun h =>
  let l := fresh (dom h) in (Ok l, <[l := v]> h).

Definition read (l : loc) : M (list Z) := fun h =>
  match h !! l with
  | Some v => (Ok v, h)
  | None => (Raise Dangling, h)
  end.

Definition write (l : loc) (v : list Z) : M unit := fun h =>
  (Ok tt, <[l := v]> h).

(** [np.array(img)]: a new array with the samples of the image. *)
Definition np_array (img : loc) : M loc := v ← read img; alloc v.

(** [arr.flatten()]: always a copy. *)
Definition flatten (arr : loc) : M loc := v ← read arr; alloc v.

(** [flat.reshape(shape)]: a view, the same samples. *)
Definition reshape (flat : loc) : M loc := mret flat.

(** [Image.fromarray(arr)]: a new image. *)
Definition fromarray (arr : loc) : M loc := v ← read arr; alloc v.

(** [len(flat)] *)
Definition len (flat : loc) : M nat := v ← read flat; mret (length v).

(** [flat[i]] *)
Definition load (flat : loc) (i : nat) : M Z :=
  v ← read flat; lift (getitem v i).

(** [flat[i] = x] *)
Definition store (flat : loc) (i : nat) (x : Z) : M unit :=
  v ← read flat; v' ← lift (setitem v i x); write flat v'.

Fixpoint for_range (body : nat -> M unit) (idx : list nat) : M unit :=
  match idx with
  | [] => mret tt
  | i :: idx' => _ ← body i; for_range body idx'
  end.

Definition embed_watermark (img : loc) (watermark_json : text) : M loc :=
  let data := WatermarkProcessor.str_to_bin watermark_json in
  let data := data ++ WatermarkProcessor.EOF in
  arr ← np_array img;
  flat ← flatten arr;
  n ← len flat;
  if decide (length data > n) then
    raise (ValueError "Watermark data is too large for this image.")
  else
    _ ← for_range
          (fun i =>
             d ← lift (getitem data i);
             x ← load flat i;
             store flat i (Z.lor (Z.land x 254) (int_digit d)))
          (range (length data));
    arr' ← reshape flat;
    fromarray arr'.

End Objects.

(** ** backend.py: validation, records, the service *)

Module Backend.

(** A value that [json.loads] can return (floats apart: no field of a
    record is one). *)
#[warnings="-register-all"]
Inductive pyval :=
| PNone
| PBool (b : bool)
| PInt (z : Z)
| PStr (s : text)
| PList (l : list pyval)
| PDict (d : gmap text pyval).

(** Truth value of a string: [not s] holds of the empty string only. *)
Definition str_truthy (s : text) : bool :=
  match s with
  | [] => false
  | _ => true
  end.

(** Truth value of a Python value. *)
Definition truthy (v : pyval) : bool :=
  match v with
  | PNone => false
  | PBool b => b
  | PInt z => negb (z =? 0)%Z
  | PStr s => str_truthy s
  | PList l => match l with [] => false | _ => true end
  | PDict d => negb (bool_decide (size d = 0))
  end.

(** [d.get(k)]: [None] for a missing key. *)
Definition get (d : gmap text pyval) (k : string) : pyval :=
  default PNone (d !! text_of_string k).

(** [s == v] for a string [s]. *)
Definition str_eq (s : text) (v : pyval) : bool :=
  match v with
  | PStr s' => bool_decide (s = s')
  | _ => false
  end.

(** An uploaded file, by what [Image.open(f).convert('RGB')] makes of it:
    the flattened RGB samples, or the exception of a file that is no
    image. The file object itself is always true. *)
Definition upload := result (list Z).

(** *** WatermarkValidator *)

Definition validate_embed_inputs (owner passkey confirm_passkey : text)
  (uploaded_file : option upload) : list string :=
  let errors := [] in
  let errors :=
    if negb (bool_decide (is_Some uploaded_file))
    then errors ++ ["Please upload an image first."%string] else errors in
  let errors :=
    if negb (str_truthy owner)
    then errors ++ ["Owner field is required."%string] else errors in
  let errors :=
    if negb (str_truthy passkey)
    then errors ++ ["Passkey is required for security."%string] else errors in
  let errors :=
    if bool_decide (passkey <> confirm_passkey)
    then errors ++ ["Passkeys do not match."%string] else errors in
  errors.

Definition validate_resell_inputs (new_owner new_passkey confirm_new_passkey : text)
  : list string :=
  let errors := [] in
  let errors :=
    if negb (str_truthy new_passkey)
    then errors ++ ["New passkey is required."%string] else errors in
  let errors :=
    if bool_decide (new_passkey <> confirm_new_passkey)
    then errors ++ ["New passkeys do not match."%string] else errors in
  errors.

Definition validate_passkey_verification (passkey : text) : option string :=
  if negb (str_truthy passkey) then Some "Please enter a passkey."%string
  else None.

(** *** WatermarkDataManager *)

(** The dict both constructors return: the values of the keys 'owner',
    'buyer', 'datetime' and 'passkey_hash', in this order. *)
Record watermark_data := {
  d_owner : text;
  d_buyer : text;
  d_datetime : text;
  d_passkey_hash : text
}.

(** The dict as [json.dumps] sees it. *)
Definition items (data : watermark_data) : str_dict :=
  [(text_of_string "owner", d_owner data);
   (text_of_string "buyer", d_buyer data);
   (text_of_string "datetime", d_datetime data);
   (text_of_string "passkey_hash", d_passkey_hash data)].

Definition create_watermark_data (owner buyer datetime_str passkey : text)
  : result watermark_data :=
  b ← encode passkey;
  let passkey_hash := sha256_hexdigest b in
  Ok {| d_owner := owner;
        d_buyer := buyer;
        d_datetime := datetime_str;
        d_passkey_hash := passkey_hash |}.

(** [now] is [datetime.now().strftime("%Y-%m-%d %H:%M:%S")], the reading
    of the clock at the call. *)
Definition create_resell_data (now new_owner new_buyer new_passkey : text)
  : result watermark_data :=
  b ← encode new_passkey;
  let new_passkey_hash := sha256_hexdigest b in
  Ok {| d_owner := new_owner;
        d_buyer := new_buyer;
        d_datetime := now;
        d_passkey_hash := new_passkey_hash |}.

Definition verify_passkey (passkey : text) (stored_hash : pyval) : result bool :=
  b ← encode passkey;
  let provided_hash := sha256_hexdigest b in
  Ok (str_eq provided_hash stored_hash).

(** *** ImageProcessor *)

(** [Image.open(uploaded_file).convert('RGB')]; [Image.open(None)] fails
    on the missing [read]. *)
Definition load_image (uploaded_file : option upload) : result (list Z) :=
  match uploaded_file with
  | Some u => u
  | None => Raise AttributeError
  end.

(** *** blockchain.py, as far as the service sees it *)

(** [metadata_to_data_uri(metadata)] *)
Definition metadata_to_data_uri (metadata : str_dict) : result text :=
  let json_str := json_dumps_compact metadata in
  bs ← encode json_str;
  let b64 := decode_ascii (b64encode bs) in
  Ok (text_of_string "data:application/json;base64," ++ b64).

(** What [mint_nft] returns (the transaction receipt is left out). *)
Record mint_resp := { tx_hash : text; token_id : option N }.

(** A connected client. The chain is outside the program: [mint_nft] is
    whatever the node answers to (recipient, token URI, watermark hash). *)
Record BlockchainClient := {
  address : text;
  mint_nft : text -> text -> text -> result mint_resp
}.

(** *** WatermarkService *)

(** The service after [__init__]: [blockchain] is [None] when the
    initialisation failed (the service then works offline). *)
Record WatermarkService := { blockchain : option BlockchainClient }.

(** An entry of an error list: a literal, or the f-string
    [f"<prefix>{e}"] of a caught exception. *)
Inductive message :=
| Msg (s : string)
| Caught (prefix : string) (e : exn).

(** [blockchain_result]: the receipt, or ["error": str(e)]. *)
Inductive chain_result :=
| Minted (r : mint_resp)
| MintError (e : exn).

(** The second component of what [embed_watermark] returns: the list of
    errors, or [blockchain_result] (which may be [None]). *)
Inductive embed_info :=
| Errors (errors : list message)
| Chain (blockchain_result : option chain_result).

(** The body of the [try] of [embed_watermark]. *)
Definition embed_watermark_try (self : WatermarkService)
  (uploaded_file : option upload) (owner buyer passkey datetime_str : text)
  : result (list Z * option chain_result) :=
  image ← load_image uploaded_file;
  data ← create_watermark_data owner buyer datetime_str passkey;
  watermarked_image ←
    WatermarkProcessor.embed_watermark image (json_dumps (items data));
  watermarked_image ←
    WatermarkProcessor.embed_watermark image (json_dumps (items data));
  let watermark_json_str := json_dumps_compact (items data) in
  hb ← encode watermark_json_str;
  let watermark_hash := sha256_hexdigest hb in
  let metadata :=
    [(text_of_string "name", text_of_string "WatermarkedArt - " ++ d_owner data);
     (text_of_string "description",
      text_of_string "Invisible watermark record for digital artwork");
     (text_of_string "owner", d_owner data);
     (text_of_string "buyer", d_buyer data);
     (text_of_string "datetime", d_datetime data);
     (text_of_string "watermark_hash", watermark_hash)] in
  token_uri ← metadata_to_data_uri metadata;
  let blockchain_result :=
    match blockchain self with
    | Some bc =>
        let recipient := address bc in
        match mint_nft bc recipient token_uri watermark_hash with
        | Ok mint_resp => Some (Minted mint_resp)
        | Raise e => Some (MintError e)
        end
    | None => None
    end in
  Ok (watermarked_image, blockchain_result).

(** [WatermarkService.embed_watermark]: the pair (image or [None], errors
    or blockchain result). *)
Definition embed_watermark (self : WatermarkService)
  (uploaded_file : option upload)
  (owner buyer passkey confirm_passkey datetime_str : text)
  : option (list Z) * embed_info :=
  let errors := validate_embed_inputs owner passkey confirm_passkey uploaded_file in
  match errors with
  | _ :: _ => (None, Errors (map Msg errors))
  | [] =>
      match embed_watermark_try self uploaded_file owner buyer passkey datetime_str with
      | Ok (watermarked_image, blockchain_result) =>
          (Some watermarked_image, Chain blockchain_result)
      | Raise e => (None, Errors [Caught "Failed to embed watermark: " e])
      end
  end.

(** [WatermarkService.resell_watermark]; [now] as in [create_resell_data].
    The second component is the error list, [None] on success. *)
Definition resell_watermark (self : WatermarkService) (now : text)
  (uploaded_file : option upload)
  (new_owner new_buyer new_passkey confirm_new_passkey : text)
  : option (list Z) * option (list message) :=
  let errors := validate_resell_inputs new_owner new_passkey confirm_new_passkey in
  match errors with
  | _ :: _ => (None, Some (map Msg errors))
  | [] =>
      match
        image ← load_image uploaded_file;
        new_data ← create_resell_data now new_owner new_buyer new_passkey;
        WatermarkProcessor.embed_watermark image (json_dumps (items new_data))
      with
      | Ok updated_image => (Some updated_image, None)
      | Raise e => (None, Some [Caught "Failed to update watermark: " e])
      end
  end.

(** The calls a verification makes, in order. *)
Inductive call :=
| ValidatePasskeyVerification (passkey : text)
| VerifyPasskey (passkey : text) (stored_hash : pyval).

(** [WatermarkService.verify_resell_passkey], with the calls it made to
    the validator and to the data manager. *)
Definition verify_resell_passkey (self : WatermarkService) (passkey : text)
  (existing_watermark : gmap text pyval)
  : list call * result (bool * option string) :=
  let log := [ValidatePasskeyVerification passkey] in
  let error := validate_passkey_verification passkey in
  match error with
  | Some e => (log, Ok (false, Some e))
  | None =>
      if negb (truthy (get existing_watermark "passkey_hash")) then
        (log, Ok (true, None))
      else
        let stored := get existing_watermark "passkey_hash" in
        let log := log ++ [VerifyPasskey passkey stored] in
        match verify_passkey passkey stored with
        | Ok is_valid =>
            if is_valid then (log, Ok (true, None))
            else (log, Ok (false, Some "Invalid passkey. Cannot resell this image."%string))
        | Raise e => (log, Raise e)
        end
  end.

End Backend.

(** ** frontend.py: EmbedWatermarkPage, the part that gates embedding *)

Module Frontend.

Import Backend.

(** The two attributes of [st.session_state] the page uses; an attribute
    may be unset ([hasattr] is false). [existing_watermark] is [None] or
    the dict that [json.loads] made of the extracted text. *)
Record session_state := {
  existing_watermark : option (option (gmap text pyval));
  resell_verified : option bool
}.

(** [hasattr(st.session_state, 'existing_watermark') and
     st.session_state.existing_watermark] *)
Definition has_existing_watermark (ss : session_state) : bool :=
  match existing_watermark ss with
  | Some (Some d) => truthy (PDict d)
  | _ => false
  end.

(** [hasattr(st.session_state, 'resell_verified') and
     st.session_state.resell_verified] *)
Definition is_resell_verified (ss : session_state) : bool :=
  match resell_verified ss with
  | Some b => b
  | None => false
  end.

(** [_handle_resell_functionality], up to the form it may render:
    [verify_click] is the passkey typed when "Verify for Resell" was
    pressed in this run, [None] when it was not. Returns the calls made to
    the service and the session state after. *)
Definition handle_resell_functionality (svc : WatermarkService)
  (ss : session_state) (verify_click : option text)
  : list call * result session_state :=
  if has_existing_watermark ss then
    match existing_watermark ss with
    | Some (Some existing_wm) =>
        if truthy (get existing_wm "passkey_hash") then
          match verify_click with
          | Some resell_passkey =>
              match verify_resell_passkey svc resell_passkey existing_wm with
              | (log, Ok (is_valid, _)) =>
                  (log, Ok {| existing_watermark := existing_watermark ss;
                              resell_verified := Some is_valid |})
              | (log, Raise e) => (log, Raise e)
              end
          | None => ([], Ok ss)
          end
        else
          ([], Ok {| existing_watermark := existing_watermark ss;
                     resell_verified := Some true |})
    | _ => ([], Ok ss)
    end
  else ([], Ok ss).

(** The fields of the form of the page. *)
Record form := {
  form_uploaded_file : option upload;
  form_owner : text;
  form_buyer : text;
  form_passkey : text;
  form_confirm_passkey : text;
  form_datetime_str : text
}.

(** What [_handle_embed_button] does in one run of the page. *)
Inductive embed_button :=
(** no button; the warning "Cannot embed new watermark. This image
    already has a watermark. ..." is shown *)
| AlreadyWatermarked
(** the button is shown and was not pressed *)
| Shown
(** the button was pressed: what the service returned *)
| Pressed (r : option (list Z) * embed_info).

Definition handle_embed_button (svc : WatermarkService) (ss : session_state)
  (f : form) (clicked : bool) : embed_button :=
  let show_embed_button := true in
  let show_embed_button :=
    if has_existing_watermark ss then
      if negb (is_resell_verified ss) then false else show_embed_button
    else show_embed_button in
  if show_embed_button then
    if clicked then
      Pressed (embed_watermark svc (form_uploaded_file f) (form_owner f)
                 (form_buyer f) (form_passkey f) (form_confirm_passkey f)
                 (form_datetime_str f))
    else Shown
  else AlreadyWatermarked.

End Frontend.

Import WatermarkProcessor.

(** ** Closed forms of the two loops

    What the loops of [embed_watermark] and [extract_watermark] compute,
    as list functions. They are linear where the loops, run step by step
    on lists, are quadratic; the lemmas below prove them equal to the
    loops. *)

Module Closed.

(** The least significant bit of a sample, as the character that
    [str(flat[i] & 1)] is. *)
Definition lsb (x : Z) : bool := str_bit (Z.land x 1).

(** [(x & 0xFE) | int(d)] *)
Definition set_lsb (x : Z) (d : bool) : Z := Z.lor (Z.land x 254) (int_digit d).

(** The samples after the loop of [embed_watermark] over all of [data]
    (which must fit). *)
Definition embed_bits (data : bits) (flat : list Z) : list Z :=
  zip_with set_lsb flat data ++ drop (length data) flat.

(** What [extract_watermark] makes of the digits it has read. *)
Definition decode (bits_str : bits) : option text :=
  let eof := find bits_str EOF in
  if decide (eof = (-1)%Z) then None
  else Some (bin_to_str (slice bits_str 0 (Z.to_nat eof))).

(** A sample of an RGB image. *)
Definition is_byte (x : Z) : Prop := (0 <= x < 256)%Z.

(** Characters of the Latin-1 range, the ones [format(.., '08b')] writes
    on exactly 8 digits, and of the ASCII range. *)
Definition latin1 (s : text) : Prop := Forall (fun c => (c < 256)%N) s.
Definition ascii (s : text) : Prop := Forall (fun c => (c < 128)%N) s.

(** [8 * len(p) + 16], the number of digits embedded for a Latin-1
    payload. *)
Definition nbits (p : text) : nat := 8 * length p + 16.

(** Text without a lone surrogate: what [str.encode()] accepts. *)
Definition encodable (s : text) : Prop :=
  Forall (fun c => ~ (55296 <= c <= 57343)%N) s.

(** Every digit whose index is a multiple of 8 is '0'. The digits of an
    ASCII text are so, and no run of 15 digits '1' fits in such a
    string. *)
Definition heads_zero (s : bits) : Prop :=
  forall k, 8 * k < length s -> s !! (8 * k) = Some false.

(** The value of a group of 8 digits read as an unsigned binary number. *)
Definition byte_value (b7 b6 b5 b4 b3 b2 b1 b0 : bool) : N :=
  (128 * N.b2n b7 + 64 * N.b2n b6 + 32 * N.b2n b5 + 16 * N.b2n b4
   + 8 * N.b2n b3 + 4 * N.b2n b2 + 2 * N.b2n b1 + N.b2n b0)%N.

End Closed.
Import Closed.

(** ** Concrete inputs used by the examples *)

Module Scenario.

Import Backend.

(** A small image: 40 samples of value 7. *)
Definition small_img : list Z := replicate 40 7%Z.

Definition hi : text := text_of_string "hi".

(** The small image with the text "hi" embedded. *)
Definition small_marked : list Z :=
  embed_bits (str_to_bin hi ++ EOF) small_img.

(** An image of 8 pixels, all black. *)
Definition img24 : list Z := replicate 24 0%Z.

(** The same with one more sample, of value 1. *)
Definition img25 : list Z := replicate 24 0%Z ++ [1%Z].

(** The one-character texts 'a' and U+0100. *)
Definition letter_a : text := [97%N].
Definition wide : text := [256%N].

(** The service that failed to reach a node and works offline. *)
Definition offline : WatermarkService := {| blockchain := None |}.

(** The record of the spec's scenario: Alice, passkey "pk123". *)
Definition alice : watermark_data :=
  {| d_owner := text_of_string "Alice";
     d_buyer := [];
     d_datetime := text_of_string "2024-01-01 00:00:00";
     d_passkey_hash := sha256_hexdigest (text_of_string "pk123") |}.

(** An image of 1000 black pixels with Alice's record embedded. *)
Definition alice_img : list Z :=
  embed_bits (str_to_bin (json_dumps (items alice)) ++ EOF)
    (replicate 3000 0%Z).

(** What Bob types into the form when he uploads Alice's image. *)
Definition bob_owner : text := text_of_string "Bob".
Definition bob_passkey : text := text_of_string "hunter2".
Definition bob_datetime : text := text_of_string "2024-02-02 12:00:00".

(** The record that makes. *)
Definition bob : watermark_data :=
  {| d_owner := bob_owner;
     d_buyer := [];
     d_datetime := bob_datetime;
     d_passkey_hash := sha256_hexdigest bob_passkey |}.

(** A record as the GUI tool embeds it: no 'passkey_hash'. *)
Definition unprotected : gmap text pyval :=
  <[text_of_string "owner" := PStr (text_of_string "Alice")]>
    (<[text_of_string "buyer" := PStr []]>
       (<[text_of_string "datetime" := PStr (text_of_string "2024-01-01 00:00:00")]> ∅)).

(** A record with Alice's passkey hash. *)
Definition protected : gmap text pyval :=
  <[text_of_string "passkey_hash" := PStr (d_passkey_hash alice)]> unprotected.

(** A record whose owner name has 12300 characters. *)
Definition long_record : watermark_data :=
  {| d_owner := replicate (N.to_nat 12300) 97%N;
     d_buyer := [];
     d_datetime := text_of_string "2024-01-01 00:00:00";
     d_passkey_hash := sha256_hexdigest (text_of_string "pk123") |}.

Definition long_payload : text := json_dumps (items long_record).

(** An image with exactly the capacity for it. *)
Definition long_img : list Z := replicate (nbits long_payload) 0%Z.

(** An image whose first EOF marker starts 8 samples before the end of
    the scanned prefix. *)
Definition late_img : list Z :=
  replicate (pixel_check_cap - 8) 0%Z ++ map Z.b2z EOF.

End Scenario.

(** ** Further inputs for the examples *)

Module Scenario2.

(** The Latin-1 text "ÿþA": its first two characters are written as the
    digits of the EOF marker. *)
Definition marker_text : text := [255; 254; 65]%N.

(** An image of 16 black pixels. *)
Definition img48 : list Z := replicate 48 0%Z.

End Scenario2.

(** ** Records as the reading side sees them *)

Module Records.

Import Backend.

(** The dict with the four fields of a record as strings under their keys:
    what [json.loads] makes of [json.dumps(data)]. *)
Definition record_dict (data : watermark_data) : gmap text pyval :=
  <[text_of_string "passkey_hash" := PStr (d_passkey_hash data)]>
    (<[text_of_string "datetime" := PStr (d_datetime data)]>
       (<[text_of_string "buyer" := PStr (d_buyer data)]>
          (<[text_of_string "owner" := PStr (d_owner data)]> ∅))).

End Records.

(** ** More inputs: a node that refuses every transaction *)

Module Scenario3.

Import Backend.

(** A client whose [mint_nft] always raises. *)
Definition failing_client : BlockchainClient :=
  {| address := text_of_string "0x0000000000000000000000000000000000000001";
     mint_nft := fun _ _ _ =>
       Raise (RuntimeError "Contract not deployed or loaded. Call compile_and_deploy() first.") |}.

Definition failing_node : WatermarkService :=
  {| blockchain := Some failing_client |}.

(** An image of two pixels, too small for any record. *)
Definition img6 : list Z := replicate 6 0%Z.

End Scenario3.

(** ** blockchain.py: the contract WatermarkNFT

    The Solidity source that [compile_and_deploy] compiles, as a
    transition system on the storage of the contract. Values of type
    [uint256] and [address] are numbers; a mapping is a finite map read
    with the default 0 or the empty string; arithmetic is checked, as in
    Solidity 0.8: an overflow ends the call with Panic(0x11). A call that
    reverts leaves the storage as it was. Gas is not modelled. *)

Module Contract.

Local Open Scope N_scope.

Definition uint256_max : N := 2 ^ 256 - 1.

Inductive event :=
| Transfer (from to tokenId : N)
| Minted (tokenId to : N) (watermarkHash : text).

Record storage := {
  _name : text;
  _symbol : text;
  _owners : gmap N N;
  _balances : gmap N N;
  _tokenURIs : gmap N text;
  nextTokenId : N;
  watermarkHash : gmap N text
}.

(** How a call ends: with a value, the new storage and the events
    emitted; or reverted. *)
Inductive outcome (A : Type) :=
| Return (a : A) (st : storage) (logs : list event)
| Revert (reason : string)
| Panic (code : N).
Arguments Return {A} a st logs.
Arguments Revert {A} reason.
Arguments Panic {A} code.

(** A function body: from the storage and the events so far. *)
Definition tx (A : Type) : Type := storage -> list event -> outcome A.

Global Instance tx_ret : MRet tx := fun A a st logs => Return a st logs.

Global Instance tx_bind : MBind tx := fun A B k m st logs =>
  match m st logs with
  | Return a st' logs' => k a st' logs'
  | Revert reason => Revert reason
  | Panic code => Panic code
  end.

Definition require (cond : bool) (reason : string) : tx unit :=
  fun st logs => if cond then Return tt st logs else Revert reason.

Definition emit (e : event) : tx unit :=
  fun st logs => Return tt st (logs ++ [e]).

Definition sload {A} (f : storage -> A) : tx A :=
  fun st logs => Return (f st) st logs.

Definition sstore (f : storage -> storage) : tx unit :=
  fun st logs => Return tt (f st) logs.

(** [a + b] on [uint256]. *)
Definition checked_add (a b : N) : tx N :=
  fun st logs =>
    if a + b <=? uint256_max then Return (a + b) st logs else Panic 17.

(** Reading a mapping. *)
Definition at_uint (m : gmap N N) (k : N) : N := default 0 (m !! k).
Definition at_string (m : gmap N text) (k : N) : text := default [] (m !! k).

Definition set_owners (f : gmap N N -> gmap N N) (st : storage) : storage :=
  {| _name := _name st; _symbol := _symbol st;
     _owners := f (_owners st); _balances := _balances st;
     _tokenURIs := _tokenURIs st; nextTokenId := nextTokenId st;
     watermarkHash := watermarkHash st |}.

Definition set_balances (f : gmap N N -> gmap N N) (st : storage) : storage :=
  {| _name := _name st; _symbol := _symbol st;
     _owners := _owners st; _balances := f (_balances st);
     _tokenURIs := _tokenURIs st; nextTokenId := nextTokenId st;
     watermarkHash := watermarkHash st |}.

Definition set_tokenURIs (f : gmap N text -> gmap N text) (st : storage)
  : storage :=
  {| _name := _name st; _symbol := _symbol st;
     _owners := _owners st; _balances := _balances st;
     _tokenURIs := f (_tokenURIs st); nextTokenId := nextTokenId st;
     watermarkHash := watermarkHash st |}.

Definition set_nextTokenId (n : N) (st : storage) : storage :=
  {| _name := _name st; _symbol := _symbol st;
     _owners := _owners st; _balances := _balances st;
     _tokenURIs := _tokenURIs st; nextTokenId := n;
     watermarkHash := watermarkHash st |}.

Definition set_watermarkHash (f : gmap N text -> gmap N text) (st : storage)
  : storage :=
  {| _name := _name st; _symbol := _symbol st;
     _owners := _owners st; _balances := _balances st;
     _tokenURIs := _tokenURIs st; nextTokenId := nextTokenId st;
     watermarkHash := f (watermarkHash st) |}.

(** The storage after the two constructors. *)
Definition constructor (name_ symbol_ : text) : storage :=
  {| _name := name_; _symbol := symbol_;
     _owners := ∅; _balances := ∅; _tokenURIs := ∅;
     nextTokenId := 1;
     watermarkHash := ∅ |}.

Definition _safeMint (to tokenId : N) : tx unit :=
  _ ← require (negb (to =? 0)) "mint to zero";
  owner ← sload (fun st => at_uint (_owners st) tokenId);
  _ ← require (owner =? 0) "already minted";
  balance ← sload (fun st => at_uint (_balances st) to);
  balance' ← checked_add balance 1;
  _ ← sstore (set_balances <[to := balance']>);
  _ ← sstore (set_owners <[tokenId := to]>);
  emit (Transfer 0 to tokenId).

Definition _setTokenURI (tokenId : N) (_uri : text) : tx unit :=
  sstore (set_tokenURIs <[tokenId := _uri]>).

Definition ownerOf (st : storage) (tokenId : N) : N :=
  at_uint (_owners st) tokenId.

Definition mint (to : N) (tokenURI_ wmHash : text) : tx N :=
  tokenId ← sload nextTokenId;
  next ← checked_add tokenId 1;
  _ ← sstore (set_nextTokenId next);
  _ ← _safeMint to tokenId;
  _ ← _setTokenURI tokenId tokenURI_;
  _ ← sstore (set_watermarkHash <[tokenId := wmHash]>);
  _ ← emit (Minted tokenId to wmHash);
  mret tokenId.

Definition getWatermarkHash (st : storage) (tokenId : N) : text :=
  at_string (watermarkHash st) tokenId.

(** The storages the contract can be in: after the constructors and any
    number of calls of [mint] that returned, by anyone with any
    arguments. *)
Inductive reachable : storage -> Prop :=
| reachable_deployed name_ symbol_ : reachable (constructor name_ symbol_)
| reachable_mint st to tokenURI_ wmHash tokenId st' logs :
    reachable st ->
    mint to tokenURI_ wmHash st [] = Return tokenId st' logs ->
    reachable st'.

(** What holds of every reachable storage: token ids are given out in
    order from 1, the owned tokens are those given out, and no balance is
    above their number. *)
Definition contract_inv (st : storage) : Prop :=
  1 <= nextTokenId st /\
  (forall id, ownerOf st id <> 0 <-> 1 <= id < nextTokenId st) /\
  (forall a, at_uint (_balances st) a < nextTokenId st).

(** [later st st']: [st'] is [st] after any number of calls of [mint]. *)
Inductive later (st : storage) : storage -> Prop :=
| later_refl : later st st
| later_mint st' to tokenURI_ wmHash tokenId st'' logs :
    later st st' ->
    mint to tokenURI_ wmHash st' [] = Return tokenId st'' logs ->
    later st st''.

End Contract.

(** ** Inputs for the examples about the contract *)

Module Scenario4.

Import Contract.

(** The contract as [compile_and_deploy] deploys it. *)
Definition deployed : storage :=
  constructor (text_of_string "WatermarkNFT") (text_of_string "WMT").

(** The storage a call leaves: the new one, or the old one after a
    revert. *)
Definition after (st : storage) (call : tx N) : storage :=
  match call st [] with
  | Return _ st' _ => st'
  | _ => st
  end.

(** After one token for the account 7, and after a second one for the
    account 9. *)
Definition one_token : storage :=
  after deployed (mint 7 (text_of_string "data:,") (text_of_string "ab")).

Definition two_tokens : storage :=
  after one_token (mint 9 (text_of_string "data:,") (text_of_string "cd")).

End Scenario4.

(** ** json.loads, and the functions of the back end that read a record

    [json.loads] on a [str], as CPython's scanner does it
    ([json.decoder] and the C module [_json]). Every [JSONDecodeError] is
    one outcome, whatever its message and position. Two things are left
    outside the model, and the outcome says so: float literals (with NaN
    and the infinities), since [pyval] has no float, and integer literals
    of more than 4300 digits, which interpreters with a limit on integer
    string conversion refuse. *)

Module Json.

Import Backend.

Local Open Scope N_scope.

(** What scanning at a position gives: a value and the text after it;
    [StopIteration] or [JSONDecodeError]; [RecursionError]; a literal that
    is outside the model; or a loop of the model out of fuel (lemma
    [scan_once_fuel]: never). *)
Inductive scan (A : Type) :=
| Got (a : A) (rest : text)
| Stop
| Deep
| Outside
| Fuel.
Arguments Got {A} a rest.
Arguments Stop {A}.
Arguments Deep {A}.
Arguments Outside {A}.
Arguments Fuel {A}.

Definition and_then {A B} (r : scan A) (k : A -> text -> scan B) : scan B :=
  match r with
  | Got a rest => k a rest
  | Stop => Stop
  | Deep => Deep
  | Outside => Outside
  | Fuel => Fuel
  end.

(** Space, tab, line feed, carriage return. *)
Definition is_whitespace (c : N) : bool :=
  (c =? 32) || (c =? 9) || (c =? 10) || (c =? 13).

Fixpoint skip_whitespace (s : text) : text :=
  match s with
  | c :: s' => if is_whitespace c then skip_whitespace s' else s
  | [] => []
  end.

Definition is_digit (c : N) : bool := (48 <=? c) && (c <=? 57).

Definition hex_value (c : N) : option N :=
  if is_digit c then Some (c - 48)
  else if (97 <=? c) && (c <=? 102) then Some (c - 87)
  else if (65 <=? c) && (c <=? 70) then Some (c - 55)
  else None.

(** The four hexadecimal digits after a backslash-u. *)
Definition hex4_value (h1 h2 h3 h4 : N) : option N :=
  d1 ← hex_value h1;
  d2 ← hex_value h2;
  d3 ← hex_value h3;
  d4 ← hex_value h4;
  Some (((d1 * 16 + d2) * 16 + d3) * 16 + d4).

(** The character after a backslash, other than u. *)
Definition backslash (c : N) : option N :=
  if c =? 34 then Some 34
  else if c =? 92 then Some 92
  else if c =? 47 then Some 47
  else if c =? 98 then Some 8
  else if c =? 102 then Some 12
  else if c =? 110 then Some 10
  else if c =? 114 then Some 13
  else if c =? 116 then Some 9
  else None.

Definition is_high_surrogate (c : N) : bool := (55296 <=? c) && (c <=? 56319).
Definition is_low_surrogate (c : N) : bool := (56320 <=? c) && (c <=? 57343).

Definition join_surrogates (c c2 : N) : N :=
  65536 + N.lor (N.shiftl (N.land c 1023) 10) (N.land c2 1023).

(** [scanstring], strict: [s] is the text after the opening quote,
    [chunks] what has been read of the string. An escaped high surrogate
    followed by an escaped low surrogate is one character. *)
Fixpoint scanstring (s : text) (chunks : text) : scan text :=
  match s with
  | [] => Stop
  | c :: s1 =>
      if c =? 34 then Got chunks s1
      else if c =? 92 then
        match s1 with
        | [] => Stop
        | e :: s2 =>
            if e =? 117 then
              match s2 with
              | h1 :: h2 :: h3 :: h4 :: s3 =>
                  match hex4_value h1 h2 h3 h4 with
                  | None => Stop
                  | Some c1 =>
                      if is_high_surrogate c1 then
                        match s3 with
                        | b :: u :: g1 :: g2 :: g3 :: g4 :: s4 =>
                            if (b =? 92) && (u =? 117) then
                              match hex4_value g1 g2 g3 g4 with
                              | None => Stop
                              | Some c2 =>
                                  if is_low_surrogate c2
                                  then scanstring s4
                                         (chunks ++ [join_surrogates c1 c2])
                                  else scanstring s3 (chunks ++ [c1])
                              end
                            else scanstring s3 (chunks ++ [c1])
                        | _ => scanstring s3 (chunks ++ [c1])
                        end
                      else scanstring s3 (chunks ++ [c1])
                  end
              | _ => Stop
              end
            else
              match backslash e with
              | Some c' => scanstring s2 (chunks ++ [c'])
              | None => Stop
              end
        end
      else if c <=? 31 then Stop
      else scanstring s1 (chunks ++ [c])
  end.

(** The digits at the head of a text, and the text after them. *)
Fixpoint span_digits (s : text) : text * text :=
  match s with
  | c :: s' =>
      if is_digit c then let (d, r) := span_digits s' in (c :: d, r)
      else ([], s)
  | [] => ([], [])
  end.

(** [int(digits)] *)
Definition int_of_digits (digits : text) : Z :=
  fold_left (fun acc c => (10 * acc + Z.of_N (c - 48))%Z) digits 0%Z.

(** Whether a fraction (a point and a digit) or an exponent (e or E, an
    optional sign, a digit) follows the integer part. *)
Definition continues_as_float (s : text) : bool :=
  match s with
  | c :: s1 =>
      if c =? 46 then
        match s1 with
        | d :: _ => is_digit d
        | [] => false
        end
      else if (c =? 101) || (c =? 69) then
        match s1 with
        | sign :: s2 =>
            if (sign =? 45) || (sign =? 43) then
              match s2 with
              | d :: _ => is_digit d
              | [] => false
              end
            else is_digit sign
        | [] => false
        end
      else false
  | [] => false
  end.

(** The limit on the digits of an integer literal above which the model
    does not say what happens. *)
Definition int_max_str_digits : nat := 4300.

(** The integer part, with its sign, when the number is an integer of
    the model. *)
Definition integer (negative : bool) (digits rest : text) : scan pyval :=
  if continues_as_float rest then Outside
  else if decide (length digits > int_max_str_digits)%nat then Outside
  else
    let n := int_of_digits digits in
    Got (PInt (if negative then (- n)%Z else n)) rest.

Definition match_digits (negative : bool) (s : text) : scan pyval :=
  match s with
  | c :: s1 =>
      if (49 <=? c) && (c <=? 57) then
        let (d, rest) := span_digits s1 in integer negative (c :: d) rest
      else if c =? 48 then integer negative [c] s1
      else Stop
  | [] => Stop
  end.

(** [_match_number]: an optional sign and the integer part; a zero is
    followed by no further digit. *)
Definition match_number (s : text) : scan pyval :=
  match s with
  | c :: s1 => if c =? 45 then match_digits true s1 else match_digits false s
  | [] => Stop
  end.

(** [s] starts with the literal [lit]. *)
Definition starts_with (lit : string) (s : text) : bool :=
  bool_decide (take (String.length lit) s = text_of_string lit).

(** The loop of [_parse_object]: [s] is at a key, [rval] the dict so
    far. A key that comes again replaces the value. *)
Fixpoint object_loop (scan_once : text -> scan pyval) (fuel : nat)
  (rval : gmap text pyval) (s : text) : scan pyval :=
  match fuel with
  | 0%nat => Fuel
  | S fuel' =>
      match s with
      | c :: s1 =>
          if c =? 34 then
            and_then (scanstring s1 []) (fun key rest =>
              match skip_whitespace rest with
              | c2 :: rest2 =>
                  if c2 =? 58 then
                    and_then (scan_once (skip_whitespace rest2)) (fun val rest3 =>
                      let rval := <[key := val]> rval in
                      match skip_whitespace rest3 with
                      | c3 :: rest4 =>
                          if c3 =? 125 then Got (PDict rval) rest4
                          else if c3 =? 44 then
                            object_loop scan_once fuel' rval (skip_whitespace rest4)
                          else Stop
                      | [] => Stop
                      end)
                  else Stop
              | [] => Stop
              end)
          else Stop
      | [] => Stop
      end
  end.

(** [_parse_object]: [s] is the text after the brace. *)
Definition parse_object (scan_once : text -> scan pyval) (s : text)
  : scan pyval :=
  let s := skip_whitespace s in
  match s with
  | c :: rest =>
      if c =? 125 then Got (PDict ∅) rest
      else object_loop scan_once (S (length s)) ∅ s
  | [] => Stop
  end.

(** The loop of [_parse_array]: [s] is at a value, [rval] the list so
    far. *)
Fixpoint array_loop (scan_once : text -> scan pyval) (fuel : nat)
  (rval : list pyval) (s : text) : scan pyval :=
  match fuel with
  | 0%nat => Fuel
  | S fuel' =>
      and_then (scan_once s) (fun val rest =>
        let rval := rval ++ [val] in
        match skip_whitespace rest with
        | c :: rest' =>
            if c =? 93 then Got (PList rval) rest'
            else if c =? 44 then
              array_loop scan_once fuel' rval (skip_whitespace rest')
            else Stop
        | [] => Stop
        end)
  end.

(** [_parse_array]: [s] is the text after the bracket. *)
Definition parse_array (scan_once : text -> scan pyval) (s : text)
  : scan pyval :=
  let s := skip_whitespace s in
  match s with
  | c :: rest =>
      if c =? 93 then Got (PList []) rest
      else array_loop scan_once (S (length s)) [] s
  | [] => Stop
  end.

(** [scan_once]. An object or an array is entered through
    [Py_EnterRecursiveCall]: [room] is the number of nested calls the
    interpreter still allows. *)
Fixpoint scan_once (room : nat) (s : text) : scan pyval :=
  match s with
  | [] => Stop
  | c :: s1 =>
      if c =? 34 then
        and_then (scanstring s1 []) (fun str rest => Got (PStr str) rest)
      else if c =? 123 then
        match room with
        | 0%nat => Deep
        | S room' => parse_object (scan_once room') s1
        end
      else if c =? 91 then
        match room with
        | 0%nat => Deep
        | S room' => parse_array (scan_once room') s1
        end
      else if (c =? 110) && starts_with "ull" s1 then Got PNone (drop 3 s1)
      else if (c =? 116) && starts_with "rue" s1 then Got (PBool true) (drop 3 s1)
      else if (c =? 102) && starts_with "alse" s1 then Got (PBool false) (drop 4 s1)
      else if (c =? 78) && starts_with "aN" s1 then Outside
      else if (c =? 73) && starts_with "nfinity" s1 then Outside
      else if (c =? 45) && starts_with "Infinity" s1 then Outside
      else match_number s
  end.

(** What [json.loads] does. *)
Inductive loaded :=
| Value (v : pyval)
| JSONDecodeError
| RecursionError
| NotModelled.

(** [json.loads(s)] for a [str]: no byte order mark; one value, with
    white space around it and nothing else. *)
Definition json_loads (room : nat) (s : text) : loaded :=
  if bool_decide (take 1 s = [65279]) then JSONDecodeError
  else
    match scan_once room (skip_whitespace s) with
    | Got obj rest =>
        match skip_whitespace rest with
        | [] => Value obj
        | _ => JSONDecodeError
        end
    | Stop => JSONDecodeError
    | Deep => RecursionError
    | Outside => NotModelled
    | Fuel => NotModelled
    end.

(** [WatermarkDataManager.parse_watermark_data]: [None] for what is no
    JSON; any other exception passes. *)
Definition parse_watermark_data (room : nat) (watermark_data : text) : loaded :=
  match json_loads room watermark_data with
  | JSONDecodeError => Value PNone
  | r => r
  end.

(** What [WatermarkService.extract_watermark] returns: the pair of the
    result (the data, the string "corrupted" or [None]) and the errors
    ([None] or a list); [RecursionCaught] is the pair of [None] and the
    one message "Error extracting watermark: ..." with the text of the
    [RecursionError]. *)
Inductive extraction :=
| Returns (result : pyval) (errors : option (list message))
| RecursionCaught
| ExtractionNotModelled.

(** [WatermarkService.extract_watermark]. Of the outcomes of
    [parse_watermark_data], which is never [JSONDecodeError], the last
    branch is the one outside the model. *)
Definition extract_watermark (room : nat) (self : WatermarkService)
  (uploaded_file : option upload) : extraction :=
  if negb (bool_decide (is_Some uploaded_file)) then
    Returns PNone (Some [Msg "Please upload an image first."])
  else
    match
      image ← load_image uploaded_file;
      WatermarkProcessor.extract_watermark image
    with
    | Ok None => Returns PNone None
    | Ok (Some watermark_data) =>
        if str_truthy watermark_data then
          match parse_watermark_data room watermark_data with
          | Value data =>
              if truthy data then Returns data None
              else Returns (PStr (text_of_string "corrupted")) None
          | RecursionError => RecursionCaught
          | _ => ExtractionNotModelled
          end
        else Returns PNone None
    | Raise e => Returns PNone (Some [Caught "Error extracting watermark: " e])
    end.

(** The dict [data] of [WatermarkApp.embed] in watermark_gui.py, as
    [json.dumps] sees it. *)
Definition gui_data (owner buyer dt : text) : str_dict :=
  [(text_of_string "owner", owner);
   (text_of_string "buyer", buyer);
   (text_of_string "datetime", dt)].

(** The dict that a dict of strings is, key by key in its order. *)
Definition dict_of (d : str_dict) : gmap text pyval :=
  foldl (fun m kv => <[kv.1 := PStr kv.2]> m) ∅ d.

(** A scanner is sound for the loops when it never runs out of fuel and
    what it reads is not empty. *)
Definition consumes {A} (f : text -> scan A) : Prop :=
  forall s, f s <> Fuel /\
            forall v rest, f s = Got v rest -> (length rest < length s)%nat.

(** A member of an object as [json.dumps] writes it. *)
Definition member (kv : text * text) : text :=
  encode_basestring_ascii kv.1 ++ [58; 32] ++ encode_basestring_ascii kv.2.

(** A Python [str] without surrogates: code points below 0x110000 that
    are no surrogate. *)
Definition is_str (s : text) : Prop :=
  Forall (fun c => c < 1114112 /\ ~ (55296 <= c <= 57343)) s.

End Json.

(** ** The metadata of a token *)

Module Ledger.

Import Backend.

(** The dict [metadata] that [WatermarkService.embed_watermark] makes of
    a record and of the hash of its compact JSON text. *)
Definition metadata (data : watermark_data) (watermark_hash : text) : str_dict :=
  [(text_of_string "name", text_of_string "WatermarkedArt - " ++ d_owner data);
   (text_of_string "description",
    text_of_string "Invisible watermark record for digital artwork");
   (text_of_string "owner", d_owner data);
   (text_of_string "buyer", d_buyer data);
   (text_of_string "datetime", d_datetime data);
   (text_of_string "watermark_hash", watermark_hash)].

(** [blockchain_result] after the inner [try]. *)
Definition minted (r : result mint_resp) : chain_result :=
  match r with
  | Ok mint_resp => Minted mint_resp
  | Raise e => MintError e
  end.

End Ledger.

(** ** frontend.py: what the embed page shows after the call *)

Module Pages.

Import Backend.

(** The keys of the dict that [mint_nft] returns, in their order. *)
Definition mint_resp_keys : list string :=
  ["tx_hash"; "tx_receipt"; "token_id"]%string.

(** [if errors:] on the second component of what
    [WatermarkService.embed_watermark] returned: a list, [None], or the
    dict of the receipt or of the error, which is never empty. *)
Definition is_true (errors : embed_info) : bool :=
  match errors with
  | Errors [] => false
  | Errors (_ :: _) => true
  | Chain None => false
  | Chain (Some _) => true
  end.

(** [for error in errors]: the elements of a list, the keys of a dict. *)
Definition iterate (errors : embed_info) : list message :=
  match errors with
  | Errors errors => errors
  | Chain None => []
  | Chain (Some (Minted _)) => map Msg mint_resp_keys
  | Chain (Some (MintError _)) => [Msg "error"]
  end.

(** What [_handle_embed_button] shows after the call: one [st.error]
    for each [error], or the success message with the image and its
    download link. *)
Inductive shown :=
| ShowsErrors (lines : list message)
| ShowsImage (watermarked_image : option (list Z)).

Definition show_embed_result (r : option (list Z) * embed_info) : shown :=
  let (watermarked_image, errors) := r in
  if is_true errors then ShowsErrors (iterate errors)
  else ShowsImage watermarked_image.

End Pages.

(** ** frontend.py: a run of the embed page

    [EmbedWatermarkPage.render]: the preview reads the record of the
    uploaded image into the session, the resale section may verify a
    passkey, the last section shows the embed button or the warning. *)

Module EmbedPage.

Import Backend Frontend Json.

(** The values that the preview can write into its message without
    more ado: [None], a bool, an int, a string without surrogates. What
    the page does with the others (the [str] of a list or of a dict, a
    text that cannot be encoded) is left outside the model. *)
Definition plain (v : pyval) : bool :=
  match v with
  | PNone | PBool _ | PInt _ => true
  | PStr s => forallb (fun c => negb ((55296 <=? c) && (c <=? 57343))%N) s
  | PList _ | PDict _ => false
  end.

(** [wm_data.get(k, 'N/A')] *)
Definition get_or_na (wm_data : gmap text pyval) (k : string) : pyval :=
  default (PStr (text_of_string "N/A")) (wm_data !! text_of_string k).

(** The session after [_render_preview_section], where the model says
    it. *)
Inductive preview :=
| Session (ss : session_state)
| PreviewNotModelled.

(** [st.session_state.existing_watermark = v]; nothing else of the
    session is written. *)
Definition set_existing_watermark (v : option (gmap text pyval))
  (ss : session_state) : session_state :=
  {| existing_watermark := Some v; resell_verified := resell_verified ss |}.

(** [EmbedWatermarkPage._render_preview_section]. Without a file, and
    when the file cannot be loaded, the session is left as it is. The
    inner [except:] catches whatever [json.loads] raises and the
    [AttributeError] of a value that has no [get]. *)
Definition render_preview_section (room : nat) (ss : session_state)
  (uploaded_file : option upload) : preview :=
  match uploaded_file with
  | None => Session ss
  | Some _ =>
      match
        image ← load_image uploaded_file;
        WatermarkProcessor.extract_watermark image
      with
      | Raise e => Session ss
      | Ok None => Session (set_existing_watermark None ss)
      | Ok (Some existing_watermark) =>
          if str_truthy existing_watermark then
            match json_loads room existing_watermark with
            | Value (PDict wm_data) =>
                if plain (get_or_na wm_data "owner")
                   && plain (get_or_na wm_data "buyer")
                   && plain (get_or_na wm_data "datetime")
                then Session (set_existing_watermark (Some wm_data) ss)
                else PreviewNotModelled
            | Value _ => Session (set_existing_watermark None ss)
            | JSONDecodeError => Session (set_existing_watermark None ss)
            | RecursionError => Session (set_existing_watermark None ss)
            | NotModelled => PreviewNotModelled
            end
          else Session (set_existing_watermark None ss)
      end
  end.

(** How a run of the page ends: with the calls made to the service for
    the verification, the session and what the last section did; with an
    exception of the verification; or outside the model. *)
Inductive page_run :=
| Ran (log : list call) (ss : session_state) (button : embed_button)
| Raises (log : list call) (e : exn)
| RunNotModelled.

(** [EmbedWatermarkPage.render], for a run in which the button of the
    resale form, where that form is shown, is not pressed: [f] is what the
    form section reads, [verify_click] and [clicked] the two buttons. *)
Definition render (room : nat) (svc : WatermarkService) (ss : session_state)
  (f : form) (verify_click : option text) (clicked : bool) : page_run :=
  match render_preview_section room ss (form_uploaded_file f) with
  | Session ss1 =>
      match handle_resell_functionality svc ss1 verify_click with
      | (log, Ok ss2) => Ran log ss2 (handle_embed_button svc ss2 f clicked)
      | (log, Raise e) => Raises log e
      end
  | PreviewNotModelled => RunNotModelled
  end.

(** A session in which nothing has been set. *)
Definition fresh : session_state :=
  {| existing_watermark := None; resell_verified := None |}.

End EmbedPage.

(** ** Images that hold a record *)

Module Held.

Import Backend Frontend Json EmbedPage.

(** The image [B] holds the record [wm]: the extraction returns a text,
    not empty, that [json.loads] reads as the dict [wm], the dict is not
    empty and the three fields that the preview shows are plain. *)
Definition holds_record (room : nat) (B : list Z) (wm : gmap text pyval)
  : Prop :=
  exists t,
    WatermarkProcessor.extract_watermark B = Ok (Some t) /\ t <> [] /\
    json_loads room t = Value (PDict wm) /\
    truthy (PDict wm) = true /\
    plain (get_or_na wm "owner") = true /\
    plain (get_or_na wm "buyer") = true /\
    plain (get_or_na wm "datetime") = true.

(** What the last section does when it shows the button. *)
Definition button (svc : WatermarkService) (f : form) (clicked : bool)
  : embed_button :=
  if clicked then
    Pressed (Backend.embed_watermark svc (form_uploaded_file f)
               (form_owner f) (form_buyer f) (form_passkey f)
               (form_confirm_passkey f) (form_datetime_str f))
  else Shown.

(** The session with the record [wm] and the flag [v]. *)
Definition session_of (wm : gmap text pyval) (v : bool) : session_state :=
  {| existing_watermark := Some (Some wm); resell_verified := Some v |}.

(** An image of 1000 black pixels with Bob's record embedded, and the
    form with which it is uploaded. *)
Definition bob_img : list Z :=
  embed_bits (str_to_bin (json_dumps (items Scenario.bob)) ++ EOF)
    (replicate 3000 0%Z).

Definition upload_of (B : list Z) : form :=
  {| form_uploaded_file := Some (Ok B);
     form_owner := text_of_string "Carol";
     form_buyer := [];
     form_passkey := text_of_string "secret";
     form_confirm_passkey := text_of_string "secret";
     form_datetime_str := text_of_string "2024-03-03 09:00:00" |}.

End Held.

(** * Proofs *)

(** ** The error monad and the loops *)

Lemma bind_Ok {A B} (a : A) (k : A -> result B) : (x ← Ok a; k x) = k a.
Proof. reflexivity. Qed.

Lemma bind_Raise {A B} (e : exn) (k : A -> result B) :
  (x ← Raise e; k x) = Raise e.
Proof. reflexivity. Qed.

Lemma map_fmap {A B} (f : A -> B) (l : list A) : map f l = f <$> l.
Proof. reflexivity. Qed.

Lemma for_each_app {St} (body : St -> nat -> result St) s l1 l2 :
  for_each body s (l1 ++ l2) = (s' ← for_each body s l1; for_each body s' l2).
Proof.
  revert s. induction l1 as [|i l1 IH]; intros s; simpl; [reflexivity|].
  destruct (body s i) as [s1|e]; simpl; [apply IH | reflexivity].
Qed.

Lemma getitem_Some {A} (l : list A) i x : l !! i = Some x -> getitem l i = Ok x.
Proof. unfold getitem. intros ->. reflexivity. Qed.

Lemma setitem_lt {A} (l : list A) i v :
  i < length l -> setitem l i v = Ok (<[i := v]> l).
Proof. intros H. unfold setitem. rewrite decide_True; auto. Qed.

(** ** The embedding loop *)

Lemma embed_bits_length data flat :
  length data <= length flat -> length (embed_bits data flat) = length flat.
Proof.
  intros H. unfold embed_bits.
  rewrite length_app, length_zip_with, length_drop. lia.
Qed.

Lemma embed_bits_lookup data flat i :
  length data <= length flat ->
  embed_bits data flat !! i =
    match data !! i with
    | Some d => (fun x => set_lsb x d) <$> flat !! i
    | None => flat !! i
    end.
Proof.
  intros Hlen. unfold embed_bits.
  assert (Hz : length (zip_with set_lsb flat data) = length data)
    by (rewrite length_zip_with; lia).
  destruct (data !! i) as [d|] eqn:Hd.
  - apply lookup_lt_Some in Hd as Hi.
    rewrite lookup_app_l by lia. rewrite lookup_zip_with, Hd.
    destruct (flat !! i); reflexivity.
  - apply lookup_ge_None in Hd.
    rewrite lookup_app_r by lia. rewrite lookup_drop, Hz. f_equal. lia.
Qed.

Lemma embed_loop_prefix data flat k :
  k <= length data -> length data <= length flat ->
  for_each (embed_step data) flat (range k) = Ok (embed_bits (take k data) flat).
Proof.
  intros Hk Hlen. unfold range. induction k as [|k IH].
  - simpl. unfold embed_bits. rewrite take_0, zip_with_nil_r. reflexivity.
  - rewrite seq_S, for_each_app, IH by lia. simpl.
    destruct (lookup_lt_is_Some_2 data k) as [d Hd]; [lia|].
    destruct (lookup_lt_is_Some_2 flat k) as [x Hx]; [lia|].
    assert (Htk : length (take k data) = k) by (rewrite length_take; lia).
    unfold embed_step. rewrite (getitem_Some _ _ _ Hd), bind_Ok.
    assert (Hcur : embed_bits (take k data) flat !! k = Some x).
    { rewrite embed_bits_lookup by lia.
      rewrite lookup_take_ge by lia. exact Hx. }
    rewrite (getitem_Some _ _ _ Hcur), bind_Ok.
    rewrite setitem_lt by (rewrite embed_bits_length; lia).
    rewrite bind_Ok. simpl. f_equal. fold (set_lsb x d).
    apply list_eq. intros i.
    rewrite (take_S_r _ _ _ Hd).
    rewrite embed_bits_lookup by (rewrite length_app, Htk; simpl; lia).
    destruct (decide (i = k)) as [->|Hne].
    + rewrite list_lookup_insert_eq by (rewrite embed_bits_length; lia).
      rewrite lookup_app_r by lia. rewrite Htk, Nat.sub_diag. simpl.
      rewrite Hx. reflexivity.
    + rewrite list_lookup_insert_ne by auto.
      rewrite embed_bits_lookup by lia.
      destruct (decide (i < k)).
      * rewrite lookup_app_l by lia. reflexivity.
      * rewrite lookup_app_r by lia. rewrite Htk.
        rewrite lookup_take_ge by lia.
        destruct (i - k) as [|m] eqn:Hm; [lia|]. reflexivity.
Qed.

(** The loop of [embed_watermark] never raises once the capacity check has
    passed, and computes [embed_bits]. *)
Lemma embed_loop data flat :
  length data <= length flat ->
  for_each (embed_step data) flat (range (length data)) = Ok (embed_bits data flat).
Proof.
  intros H. rewrite embed_loop_prefix by lia. rewrite firstn_all. reflexivity.
Qed.

Lemma embed_watermark_fits img p :
  length (str_to_bin p) + 16 <= length img ->
  embed_watermark img p = Ok (embed_bits (str_to_bin p ++ EOF) img).
Proof.
  intros H. unfold embed_watermark.
  assert (Hl : length (str_to_bin p ++ EOF) = length (str_to_bin p) + 16)
    by (rewrite length_app; reflexivity).
  rewrite decide_False by (unfold gt; lia).
  apply embed_loop. lia.
Qed.

Lemma embed_watermark_too_large img p :
  length img < length (str_to_bin p) + 16 ->
  embed_watermark img p
  = Raise (ValueError "Watermark data is too large for this image.").
Proof.
  intros H. unfold embed_watermark.
  rewrite decide_True; [reflexivity|].
  rewrite length_app. unfold gt. simpl. lia.
Qed.

(** ** The extraction loop *)

Lemma extract_loop flat n k acc :
  k + n <= length flat ->
  for_each (extract_step flat) acc (seq k n)
  = Ok (acc ++ map lsb (take n (drop k flat))).
Proof.
  revert k acc. induction n as [|n IH]; intros k acc Hn; simpl.
  - rewrite app_nil_r. reflexivity.
  - destruct (lookup_lt_is_Some_2 flat k) as [x Hx]; [lia|].
    assert (Hs : extract_step flat acc k = Ok (acc ++ [lsb x])).
    { unfold extract_step. rewrite (getitem_Some _ _ _ Hx). reflexivity. }
    rewrite Hs, bind_Ok, IH by lia. f_equal.
    rewrite <- (take_drop_middle _ _ _ Hx) at 2.
    rewrite drop_app_length' by (rewrite length_take; lia).
    simpl. rewrite <- app_assoc. reflexivity.
Qed.

Lemma take_min_length {A} (l : list A) n :
  take (Nat.min (length l) n) l = take n l.
Proof.
  destruct (decide (n <= length l)).
  - rewrite Nat.min_r by lia. reflexivity.
  - rewrite Nat.min_l by lia. rewrite firstn_all, take_ge by lia. reflexivity.
Qed.

(** The digits read from the first [n] samples. *)
Lemma read_bits flat n :
  for_each (extract_step flat) [] (range (Nat.min (length flat) n))
  = Ok (map lsb (take n flat)).
Proof.
  unfold range. rewrite extract_loop by lia. simpl. do 2 f_equal.
  apply take_min_length.
Qed.

(** [extract_watermark] never raises: it decodes the digits of the
    first [pixel_check_cap] samples. *)
Lemma extract_watermark_closed img :
  extract_watermark img = Ok (decode (map lsb (take pixel_check_cap img))).
Proof.
  unfold extract_watermark. rewrite read_bits, bind_Ok. unfold decode.
  destruct (decide _); reflexivity.
Qed.

(** The GUI's extractor decodes the digits of every sample. *)
Lemma gui_extract_watermark_closed img :
  Gui.extract_watermark img = Ok (decode (map lsb img)).
Proof.
  unfold Gui.extract_watermark.
  rewrite <- (Nat.min_id (length img)) at 1.
  rewrite read_bits, bind_Ok, firstn_all. unfold decode, Gui.bin_to_str.
  destruct (decide _); reflexivity.
Qed.

(** ** Bits of a sample *)

Lemma lsb_set_lsb x d : lsb (set_lsb x d) = d.
Proof.
  unfold lsb, set_lsb, str_bit, int_digit.
  change 1%Z with (Z.ones 1). rewrite Z.land_ones by lia.
  change (2 ^ 1)%Z with 2%Z. rewrite <- Z.bit0_mod.
  rewrite Z.lor_spec, Z.land_spec. change (Z.testbit 254 0) with false.
  rewrite andb_false_r, Z.b2z_bit0. destruct d; reflexivity.
Qed.

Lemma byte_cases x : is_byte x -> x ∈ (Z.of_nat <$> seq 0 256).
Proof.
  intros [H0 H1]. apply list_elem_of_fmap. exists (Z.to_nat x). split; [lia|].
  apply list_elem_of_In, in_seq. lia.
Qed.

(** On a byte, [set_lsb] keeps the seven high bits and yields a byte. *)
Lemma set_lsb_byte x d :
  is_byte x -> is_byte (set_lsb x d) /\ Z.shiftr (set_lsb x d) 1 = Z.shiftr x 1.
Proof.
  intros Hx. apply byte_cases in Hx. revert x Hx. apply Forall_forall.
  cut (forallb (fun x => bool_decide ((0 <= set_lsb x d < 256)%Z
                                      /\ Z.shiftr (set_lsb x d) 1 = Z.shiftr x 1))
         (Z.of_nat <$> seq 0 256) = true).
  { intros H. apply Forall_forall. intros x Hx.
    rewrite forallb_forall in H. apply list_elem_of_In in Hx.
    specialize (H x Hx). apply bool_decide_eq_true in H. exact H. }
  destruct d; vm_compute; reflexivity.
Qed.

(** The digits of the samples after embedding. *)
Lemma lsb_embed_bits data flat :
  length data <= length flat ->
  map lsb (embed_bits data flat) = data ++ map lsb (drop (length data) flat).
Proof.
  intros Hlen. unfold embed_bits. rewrite map_app. f_equal.
  revert flat Hlen. induction data as [|d data IH]; intros flat Hlen.
  - rewrite zip_with_nil_r. reflexivity.
  - destruct flat as [|x flat]; simpl in *; [lia|].
    rewrite lsb_set_lsb. f_equal. apply IH. lia.
Qed.

(** ** str.find *)

Lemma occurs_at_take_drop sub s j :
  occurs_at sub s j <-> take (length sub) (drop j s) = sub.
Proof.
  unfold occurs_at, slice.
  replace (j + length sub - j) with (length sub) by lia. reflexivity.
Qed.

Lemma occurs_at_cons sub x s j :
  occurs_at sub (x :: s) (S j) <-> occurs_at sub s j.
Proof. rewrite !occurs_at_take_drop. reflexivity. Qed.

Lemma find_from_nil sub i :
  find_from sub [] i
  = if decide (take (length sub) [] = sub) then Z.of_nat i else (-1)%Z.
Proof. reflexivity. Qed.

Lemma find_from_cons sub x s i :
  find_from sub (x :: s) i
  = if decide (take (length sub) (x :: s) = sub) then Z.of_nat i
    else find_from sub s (S i).
Proof. reflexivity. Qed.

(** [find_from] returns -1 when [sub] occurs nowhere, and otherwise the
    index of its first occurrence. *)
Lemma find_from_spec sub s i :
  (find_from sub s i = (-1)%Z /\ forall j, ~ occurs_at sub s j) \/
  (exists j, find_from sub s i = Z.of_nat (i + j) /\ occurs_at sub s j /\
             forall j', j' < j -> ~ occurs_at sub s j').
Proof.
  revert i. induction s as [|x s IH]; intros i.
  - rewrite find_from_nil. destruct (decide _) as [H|H].
    + right. exists 0. split; [f_equal; lia|].
      split; [apply occurs_at_take_drop; exact H | intros; lia].
    + left. split; [reflexivity|]. intros j Hj.
      apply occurs_at_take_drop in Hj. rewrite drop_nil in Hj. auto.
  - rewrite find_from_cons. destruct (decide _) as [H|H].
    + right. exists 0. split; [f_equal; lia|].
      split; [apply occurs_at_take_drop; exact H | intros; lia].
    + destruct (IH (S i)) as [[Hf Hn]|(j & Hf & Hj & Hmin)].
      * left. split; [exact Hf|]. intros [|j] Hj.
        -- apply occurs_at_take_drop in Hj. auto.
        -- apply occurs_at_cons in Hj. exact (Hn j Hj).
      * right. exists (S j). split; [rewrite Hf; f_equal; lia|].
        split; [apply occurs_at_cons; exact Hj|].
        intros [|j'] Hlt Ho.
        -- apply occurs_at_take_drop in Ho. auto.
        -- apply occurs_at_cons in Ho. apply (Hmin j'); [lia | exact Ho].
Qed.

Lemma find_first s sub j :
  occurs_at sub s j -> (forall j', j' < j -> ~ occurs_at sub s j') ->
  find s sub = Z.of_nat j.
Proof.
  intros Hj Hmin. unfold find.
  destruct (find_from_spec sub s 0) as [[_ Hn]|(k & Hf & Hk & Hkmin)].
  - destruct (Hn j Hj).
  - rewrite Hf. f_equal. simpl.
    destruct (Nat.lt_trichotomy k j) as [Hlt|[Heq|Hgt]]; [|exact Heq|].
    + destruct (Hmin k Hlt Hk).
    + destruct (Hkmin j Hgt Hj).
Qed.

Lemma find_none s sub :
  (forall j, ~ occurs_at sub s j) -> find s sub = (-1)%Z.
Proof.
  intros Hn. unfold find.
  destruct (find_from_spec sub s 0) as [[Hf _]|(k & _ & Hk & _)];
    [exact Hf | destruct (Hn k Hk)].
Qed.

Lemma find_none_inv s sub j : find s sub = (-1)%Z -> ~ occurs_at sub s j.
Proof.
  unfold find. intros Hf.
  destruct (find_from_spec sub s 0) as [[_ Hn]|(k & Hk & _)]; [apply Hn | lia].
Qed.

Lemma find_some_inv s sub j :
  find s sub = Z.of_nat j ->
  occurs_at sub s j /\ forall j', j' < j -> ~ occurs_at sub s j'.
Proof.
  unfold find. intros Hf.
  destruct (find_from_spec sub s 0) as [[Hn _]|(k & Hk & Ho & Hmin)]; [lia|].
  assert (k = j) as -> by lia. auto.
Qed.

Lemma find_cases s sub :
  find s sub = (-1)%Z \/ exists j, find s sub = Z.of_nat j.
Proof.
  unfold find.
  destruct (find_from_spec sub s 0) as [[Hn _]|(k & Hk & _)]; eauto.
Qed.

Lemma occurs_at_length sub s j :
  0 < length sub -> occurs_at sub s j -> j + length sub <= length s.
Proof.
  intros Hpos Ho. apply occurs_at_take_drop in Ho.
  apply (f_equal length) in Ho. rewrite length_take, length_drop in Ho. lia.
Qed.

Lemma occurs_at_lookup sub s j t :
  occurs_at sub s j -> t < length sub -> s !! (j + t) = sub !! t.
Proof.
  intros Ho Ht. apply occurs_at_take_drop in Ho.
  rewrite <- Ho at 1. rewrite lookup_take_lt by lia.
  rewrite lookup_drop. reflexivity.
Qed.

Lemma occurs_at_app_l sub s r j :
  j + length sub <= length s ->
  occurs_at sub (s ++ r) j <-> occurs_at sub s j.
Proof.
  intros Hj. rewrite !occurs_at_take_drop.
  rewrite drop_app_le by lia.
  rewrite take_app_le by (rewrite length_drop; lia). reflexivity.
Qed.

Lemma occurs_at_take sub s c j :
  j + length sub <= c ->
  occurs_at sub (take c s) j <-> occurs_at sub s j.
Proof.
  intros Hc. rewrite !occurs_at_take_drop.
  rewrite !take_drop_commute, take_take, Nat.min_l by lia. reflexivity.
Qed.

Lemma occurs_at_take_inv sub s c j :
  0 < length sub -> occurs_at sub (take c s) j ->
  occurs_at sub s j /\ j + length sub <= c.
Proof.
  intros Hpos Ho. pose proof (occurs_at_length _ _ _ Hpos Ho) as Hl.
  rewrite length_take in Hl.
  split; [apply (occurs_at_take sub s c j); [lia | exact Ho] | lia].
Qed.

(** ** The digits of a character *)

Lemma below_256 (P : N -> Prop) `{forall c, Decision (P c)} :
  forallb (fun c => bool_decide (P c)) (N.of_nat <$> seq 0 256) = true ->
  forall c, (c < 256)%N -> P c.
Proof.
  intros Hall c Hc. rewrite forallb_forall in Hall.
  apply (bool_decide_eq_true (P c)), Hall, list_elem_of_In, list_elem_of_fmap.
  exists (N.to_nat c). split; [lia|]. apply list_elem_of_In, in_seq. lia.
Qed.

(** A Latin-1 character is written on exactly 8 digits, and [int(.., 2)]
    reads it back. *)
Lemma format_08b_latin1 c :
  (c < 256)%N -> length (format_08b c) = 8 /\ int2 (format_08b c) = c.
Proof.
  revert c.
  apply (below_256 (fun c => length (format_08b c) = 8 /\ int2 (format_08b c) = c)).
  vm_compute. reflexivity.
Qed.

(** The first digit of an ASCII character is '0'. *)
Lemma format_08b_ascii c : (c < 128)%N -> format_08b c !! 0 = Some false.
Proof.
  intros Hc.
  apply (below_256 (fun c => (c < 128)%N -> format_08b c !! 0 = Some false));
    [vm_compute; reflexivity | lia | exact Hc].
Qed.

(** No character is written on fewer than 8 digits. *)
Lemma format_08b_length_ge c : 8 <= length (format_08b c).
Proof. unfold format_08b. rewrite length_app, length_replicate. lia. Qed.

Lemma str_to_bin_cons c p : str_to_bin (c :: p) = format_08b c ++ str_to_bin p.
Proof. reflexivity. Qed.

Lemma str_to_bin_length_ge p : 8 * length p <= length (str_to_bin p).
Proof.
  induction p as [|c p IH]; [simpl; lia|].
  rewrite str_to_bin_cons, length_app. pose proof (format_08b_length_ge c).
  simpl length. lia.
Qed.

Lemma str_to_bin_length p : latin1 p -> length (str_to_bin p) = 8 * length p.
Proof.
  induction 1 as [|c p Hc _ IH]; [reflexivity|].
  rewrite str_to_bin_cons, length_app, IH.
  destruct (format_08b_latin1 c Hc) as [-> _]. simpl length. lia.
Qed.

Lemma ascii_latin1 p : ascii p -> latin1 p.
Proof. intros H. eapply Forall_impl; [exact H|]. intros c Hc. simpl in *. lia. Qed.

(** ** Where the EOF marker can occur *)

Lemma EOF_length : length EOF = 16.
Proof. reflexivity. Qed.

Lemma EOF_ones t : t < 15 -> EOF !! t = Some true.
Proof.
  intros Ht. unfold EOF. rewrite lookup_app_l by (rewrite length_replicate; lia).
  apply lookup_replicate_2. lia.
Qed.

Lemma EOF_last : EOF !! 15 = Some false.
Proof. reflexivity. Qed.

Lemma str_to_bin_heads_zero p : ascii p -> heads_zero (str_to_bin p).
Proof.
  induction 1 as [|c p Hc Hp IH]; intros k Hk.
  - simpl in Hk. lia.
  - rewrite str_to_bin_cons in *.
    destruct (format_08b_latin1 c) as [Hl _]; [lia|].
    rewrite length_app in Hk. destruct k as [|k].
    + rewrite lookup_app_l by lia. apply format_08b_ascii, Hc.
    + rewrite lookup_app_r by lia. rewrite Hl.
      replace (8 * S k - 8) with (8 * k) by lia. apply IH. lia.
Qed.

Lemma heads_zero_take s c : heads_zero s -> heads_zero (take c s).
Proof.
  intros Hz k Hk. rewrite length_take in Hk.
  rewrite lookup_take_lt by lia. apply Hz. lia.
Qed.

(** The least multiple of 8 from [j] on. *)
Lemma next_multiple_of_8 j : exists k, j <= 8 * k < j + 8.
Proof.
  exists ((j + 7) / 8). pose proof (Nat.div_mod_eq (j + 7) 8).
  pose proof (Nat.mod_upper_bound (j + 7) 8). lia.
Qed.

(** A string whose bytes all start with '0' holds no EOF marker. *)
Lemma heads_zero_no_EOF s j : heads_zero s -> ~ occurs_at EOF s j.
Proof.
  intros Hz Ho.
  pose proof (occurs_at_length EOF s j) as Hl. rewrite EOF_length in Hl.
  specialize (Hl ltac:(lia) Ho).
  destruct (next_multiple_of_8 j) as (k & Hk).
  pose proof (occurs_at_lookup EOF s j (8 * k - j) Ho) as Hm.
  rewrite EOF_length, EOF_ones in Hm by lia.
  replace (j + (8 * k - j)) with (8 * k) in Hm by lia.
  rewrite Hz in Hm by lia. specialize (Hm ltac:(lia)). discriminate.
Qed.

(** After a byte-aligned string of such bytes, the marker that follows is
    the first one. *)
Lemma sentinel_not_before s rest n j :
  heads_zero s -> length s = 8 * n ->
  occurs_at EOF (s ++ EOF ++ rest) j -> length s <= j.
Proof.
  intros Hz Hn Ho. destruct (decide (length s <= j)) as [|Hlt]; [assumption|].
  exfalso. destruct (next_multiple_of_8 j) as (k & Hk).
  destruct (decide (8 * k < length s)) as [Hin|Hout].
  - pose proof (occurs_at_lookup EOF _ j (8 * k - j) Ho) as Hm.
    rewrite EOF_length, EOF_ones in Hm by lia.
    replace (j + (8 * k - j)) with (8 * k) in Hm by lia.
    rewrite lookup_app_l, Hz in Hm by lia.
    specialize (Hm ltac:(lia)). discriminate.
  - pose proof (occurs_at_lookup EOF _ j 15 Ho) as Hm.
    rewrite EOF_length, EOF_last in Hm. specialize (Hm ltac:(lia)).
    rewrite lookup_app_r in Hm by lia.
    rewrite lookup_app_l in Hm by (rewrite EOF_length; lia).
    rewrite EOF_ones in Hm by lia. discriminate.
Qed.

Lemma sentinel_occurs s rest : occurs_at EOF (s ++ EOF ++ rest) (length s).
Proof.
  apply occurs_at_take_drop. rewrite drop_app_length.
  apply take_app_length.
Qed.

Lemma sentinel_first s rest n :
  heads_zero s -> length s = 8 * n ->
  find (s ++ EOF ++ rest) EOF = Z.of_nat (length s).
Proof.
  intros Hz Hn. apply find_first; [apply sentinel_occurs|].
  intros j Hj Ho. pose proof (sentinel_not_before s rest n j Hz Hn Ho). lia.
Qed.

(** The scan of a prefix of [c] digits finds the marker if and only if
    the prefix holds all of it. *)
Lemma sentinel_capped s rest n c :
  heads_zero s -> length s = 8 * n ->
  find (take c (s ++ EOF ++ rest)) EOF
  = if decide (length s + 16 <= c) then Z.of_nat (length s) else (-1)%Z.
Proof.
  intros Hz Hn. destruct (decide _) as [Hc|Hc].
  - apply find_first.
    + apply occurs_at_take; [rewrite EOF_length; lia | apply sentinel_occurs].
    + intros j Hj Ho. apply occurs_at_take_inv in Ho as [Ho _];
        [|rewrite EOF_length; lia].
      pose proof (sentinel_not_before s rest n j Hz Hn Ho). lia.
  - apply find_none. intros j Ho.
    apply occurs_at_take_inv in Ho as [Ho Hj]; [|rewrite EOF_length; lia].
    rewrite EOF_length in Hj.
    pose proof (sentinel_not_before s rest n j Hz Hn Ho). lia.
Qed.

(** ** bin_to_str *)

Lemma range3_by_8 n :
  range3 0 n 8 = map (fun k => k * 8) (seq 0 ((n + 7) / 8)).
Proof. unfold range3. rewrite Nat.sub_0_r. reflexivity. Qed.

Lemma div8_unique a q : 8 * q <= a < 8 * q + 8 -> a / 8 = q.
Proof.
  intros H. pose proof (Nat.div_mod_eq a 8).
  pose proof (Nat.mod_upper_bound a 8). nia.
Qed.

Lemma slice_from_0 {A} (l : list A) k : slice l 0 k = take k l.
Proof. unfold slice. rewrite Nat.sub_0_r, drop_0. reflexivity. Qed.

Lemma slice_all {A} (l : list A) k : length l <= k -> slice l 0 k = l.
Proof. intros H. unfold slice. rewrite Nat.sub_0_r, drop_0. apply take_ge, H. Qed.

(** A string of fewer than 8 digits decodes to nothing. *)
Lemma bin_to_str_short b : length b < 8 -> bin_to_str b = [].
Proof.
  intros Hb. unfold bin_to_str. rewrite range3_by_8.
  destruct (decide (length b = 0)) as [H0|H0].
  - rewrite H0. reflexivity.
  - rewrite (div8_unique (length b + 7) 1) by lia. simpl.
    rewrite slice_all by lia. rewrite filter_cons_False by lia. reflexivity.
Qed.

(** A full group of 8 digits decodes to one character, and the rest of
    the string is decoded after it. *)
Lemma bin_to_str_group g b :
  length g = 8 -> bin_to_str (g ++ b) = chr (int2 g) :: bin_to_str b.
Proof.
  intros Hg. unfold bin_to_str. rewrite !range3_by_8, length_app, Hg.
  replace (8 + length b + 7) with (1 * 8 + (length b + 7)) by lia.
  rewrite Nat.div_add_l by lia. simpl seq. rewrite <- seq_shift.
  rewrite !map_cons, !map_map.
  replace (slice (g ++ b) (0 * 8) (0 * 8 + 8)) with g.
  2:{ unfold slice. simpl. symmetry. apply take_app_length'. lia. }
  rewrite filter_cons_True by exact Hg. rewrite map_cons. do 3 f_equal.
  apply map_ext. intros k. unfold slice.
  replace (S k * 8) with (length g + k * 8) by lia.
  rewrite drop_app_add. f_equal. lia.
Qed.

(** The closed form of [bin_to_str]: one character for each full group
    of 8 digits, in order. *)
Lemma bin_to_str_closed b :
  bin_to_str b
  = map (fun k => chr (int2 (slice b (8 * k) (8 * k + 8)))) (seq 0 (length b / 8)).
Proof.
  remember (length b / 8) as q eqn:Hq. revert b Hq.
  induction q as [|q IH]; intros b Hq.
  - simpl. apply bin_to_str_short.
    pose proof (Nat.div_mod_eq (length b) 8).
    pose proof (Nat.mod_upper_bound (length b) 8). lia.
  - assert (Hlen : 8 * S q <= length b).
    { pose proof (Nat.div_mod_eq (length b) 8). lia. }
    rewrite <- (take_drop 8 b) at 1.
    rewrite bin_to_str_group by (rewrite length_take; lia).
    rewrite (IH (drop 8 b)).
    2:{ rewrite length_drop. symmetry. apply div8_unique.
        pose proof (Nat.div_mod_eq (length b) 8).
        pose proof (Nat.mod_upper_bound (length b) 8). lia. }
    simpl seq. rewrite <- seq_shift, map_cons, map_map. f_equal.
    apply map_ext. intros k. unfold slice. rewrite drop_drop.
    do 2 f_equal. f_equal; [lia | f_equal; lia].
Qed.

Lemma bin_to_str_length b : length (bin_to_str b) = length b / 8.
Proof. rewrite bin_to_str_closed, length_map, length_seq. reflexivity. Qed.

(** The trailing group of fewer than 8 digits is dropped. *)
Lemma bin_to_str_truncate b :
  bin_to_str b = bin_to_str (take (8 * (length b / 8)) b).
Proof.
  pose proof (Nat.div_mod_eq (length b) 8) as Hd.
  rewrite (bin_to_str_closed (take _ b)), bin_to_str_closed.
  rewrite length_take, Nat.min_l by lia.
  rewrite (Nat.mul_comm 8), Nat.div_mul by lia.
  apply map_ext_in. intros k Hk. apply in_seq in Hk.
  unfold slice. do 2 f_equal.
  rewrite !take_drop_commute, take_take, Nat.min_l; [reflexivity|].
  nia.
Qed.

(** [int(c, 2)] of 8 digits, digit by digit. *)
Lemma int2_byte b7 b6 b5 b4 b3 b2 b1 b0 :
  int2 [b7; b6; b5; b4; b3; b2; b1; b0] = byte_value b7 b6 b5 b4 b3 b2 b1 b0.
Proof.
  destruct b7, b6, b5, b4, b3, b2, b1, b0; reflexivity.
Qed.

Lemma list_of_length_8 {A} (l : list A) :
  length l = 8 ->
  exists a b c d e f g h, l = [a; b; c; d; e; f; g; h].
Proof.
  intros H. do 8 (destruct l as [|? l]; [discriminate|]).
  destruct l; [|discriminate]. eauto 10.
Qed.

(** Decoding what [str_to_bin] wrote gives the text back, for Latin-1
    text. *)
Lemma bin_to_str_str_to_bin p : latin1 p -> bin_to_str (str_to_bin p) = p.
Proof.
  induction 1 as [|c p Hc _ IH]; [reflexivity|].
  destruct (format_08b_latin1 c Hc) as [Hl Hv].
  rewrite str_to_bin_cons, bin_to_str_group, IH, Hv by exact Hl. reflexivity.
Qed.

(** ** Embedding followed by extraction *)

Lemma embed_watermark_Ok_inv B p B' :
  embed_watermark B p = Ok B' ->
  length (str_to_bin p) + 16 <= length B /\
  B' = embed_bits (str_to_bin p ++ EOF) B.
Proof.
  intros H. destruct (decide (length (str_to_bin p) + 16 <= length B)) as [Hle|Hgt].
  - rewrite embed_watermark_fits in H by exact Hle. split; congruence.
  - rewrite embed_watermark_too_large in H by lia. discriminate.
Qed.

(** The digits of the output of a successful embedding: the payload, the
    marker, and the digits the samples behind them had before. *)
Lemma lsb_embed_output B p :
  length (str_to_bin p) + 16 <= length B ->
  map lsb (embed_bits (str_to_bin p ++ EOF) B)
  = str_to_bin p ++ EOF ++ map lsb (drop (length (str_to_bin p) + 16) B).
Proof.
  intros H. rewrite lsb_embed_bits by (rewrite length_app, EOF_length; lia).
  rewrite length_app, EOF_length, <- app_assoc. reflexivity.
Qed.

Lemma decode_capped s rest n c :
  heads_zero s -> length s = 8 * n ->
  decode (take c (s ++ EOF ++ rest))
  = if decide (length s + 16 <= c) then Some (bin_to_str s) else None.
Proof.
  intros Hz Hn. unfold decode. rewrite (sentinel_capped s rest n c Hz Hn).
  destruct (decide (length s + 16 <= c)) as [Hc|Hc].
  - rewrite decide_False by lia. do 2 f_equal.
    rewrite Nat2Z.id, slice_from_0.
    rewrite take_take, Nat.min_l by lia. apply take_app_length.
  - rewrite decide_True; reflexivity.
Qed.

(** What the capped extractor returns on the output of an embedding of
    ASCII text that fits: the text when the marker ends within the scanned
    prefix, nothing otherwise. *)
Lemma extract_embedded B p :
  ascii p -> nbits p <= length B ->
  (B' ← embed_watermark B p; extract_watermark B')
  = Ok (if decide (nbits p <= pixel_check_cap) then Some p else None).
Proof.
  intros Hp HB. unfold nbits in *.
  pose proof (str_to_bin_length p (ascii_latin1 p Hp)) as Hl.
  rewrite embed_watermark_fits by lia. rewrite bind_Ok.
  rewrite extract_watermark_closed. f_equal.
  rewrite <- firstn_map, lsb_embed_output by lia.
  rewrite (decode_capped _ _ (length p) _ (str_to_bin_heads_zero p Hp) Hl).
  rewrite Hl, bin_to_str_str_to_bin by (apply ascii_latin1, Hp).
  reflexivity.
Qed.

Lemma pixel_check_cap_value : Z.of_nat pixel_check_cap = 98304%Z.
Proof. vm_compute. reflexivity. Qed.

(** ** The claims about the codec *)

(** C1 (as amended). For every ASCII payload text [p] (the serialized
    JSON of a record is one) and every buffer [B] with
    [len(B) >= 8*len(p) + 16], provided the embedded digits end within the
    scanned prefix ([8*len(p) + 16 <= 4096*8*3]), extracting after
    embedding returns the payload unchanged. *)
Theorem embed_extract_roundtrip (B : list Z) (p : text) :
  ascii p -> nbits p <= length B -> nbits p <= pixel_check_cap ->
  (B' ← embed_watermark B p; extract_watermark B') = Ok (Some p).
Proof.
  intros Hp HB Hcap. rewrite extract_embedded by assumption.
  rewrite decide_True by exact Hcap. reflexivity.
Qed.

Lemma embed_extract_roundtrip_witness :
  (B' ← embed_watermark Scenario.small_img Scenario.hi; extract_watermark B')
  = Ok (Some Scenario.hi).
Proof.
  apply embed_extract_roundtrip.
  - repeat constructor.
  - vm_compute. lia.
  - unfold pixel_check_cap, nbits. simpl length. lia.
Defined.

Lemma long_payload_ascii : ascii Scenario.long_payload.
Proof.
  apply Forall_forall. intros c Hc. apply list_elem_of_In in Hc.
  assert (H : forallb (fun c => (c <? 128)%N) Scenario.long_payload = true)
    by (vm_compute; reflexivity).
  rewrite forallb_forall in H. apply N.ltb_lt, H, Hc.
Qed.

(** C1, as stated, fails: the JSON of a record with a long owner name is
    ASCII and fits the buffer, and nothing is extracted after embedding,
    because the EOF marker lies behind the scanned prefix. *)
Lemma roundtrip_fails_beyond_cap :
  ascii Scenario.long_payload /\
  nbits Scenario.long_payload <= length Scenario.long_img /\
  (B' ← embed_watermark Scenario.long_img Scenario.long_payload;
   extract_watermark B') = Ok None /\
  Ok (A := option text) None <> Ok (Some Scenario.long_payload).
Proof.
  split; [apply long_payload_ascii|].
  assert (Hlen : nbits Scenario.long_payload <= length Scenario.long_img).
  { unfold Scenario.long_img. rewrite length_replicate. lia. }
  split; [exact Hlen|]. split; [|discriminate].
  rewrite extract_embedded by (apply long_payload_ascii || exact Hlen).
  rewrite decide_False; [reflexivity|].
  apply Nat.lt_nge, Nat.ltb_lt. vm_compute. reflexivity.
Qed.

(** C4 (as amended). With [total] the number of embedded digits (those
    of the payload and the 16 of the marker): embedding succeeds when
    [total = len(B) - 1], it succeeds as well when [total = len(B)], and it
    fails with the capacity error when [total = len(B) + 1]. *)
Theorem capacity_boundary (B : list Z) (p : text) :
  let total := length (str_to_bin p ++ EOF) in
  (total + 1 = length B -> exists B', embed_watermark B p = Ok B') /\
  (total = length B -> exists B', embed_watermark B p = Ok B') /\
  (total = length B + 1 ->
   embed_watermark B p
   = Raise (ValueError "Watermark data is too large for this image.")).
Proof.
  intros total. subst total. rewrite length_app, EOF_length.
  repeat split; intros H.
  - eexists. apply embed_watermark_fits. lia.
  - eexists. apply embed_watermark_fits. lia.
  - apply embed_watermark_too_large. lia.
Qed.

Lemma capacity_boundary_witness :
  (exists B', embed_watermark Scenario.img25 Scenario.letter_a = Ok B') /\
  (exists B', embed_watermark Scenario.img24 Scenario.letter_a = Ok B') /\
  embed_watermark Scenario.img24 Scenario.wide
  = Raise (ValueError "Watermark data is too large for this image.").
Proof.
  split; [|split].
  - apply (proj1 (capacity_boundary Scenario.img25 Scenario.letter_a)).
    reflexivity.
  - apply (proj1 (proj2 (capacity_boundary Scenario.img24 Scenario.letter_a))).
    reflexivity.
  - apply (proj2 (proj2 (capacity_boundary Scenario.img24 Scenario.wide))).
    reflexivity.
Defined.

(** C4, as stated, fails: a payload whose embedded digits are exactly as
    many as the samples (24 here) is embedded, not refused. *)
Lemma full_buffer_is_accepted :
  length (str_to_bin Scenario.letter_a ++ EOF) = length Scenario.img24 /\
  embed_watermark Scenario.img24 Scenario.letter_a
  = Ok [0; 1; 1; 0; 0; 0; 0; 1; 1; 1; 1; 1; 1; 1; 1; 1; 1; 1; 1; 1; 1; 1; 1; 0]%Z.
Proof. split; vm_compute; reflexivity. Qed.

(** C5 (as amended). [embed_watermark] raises the capacity error if and
    only if the number of embedded digits, [len(str_to_bin(p)) + 16],
    exceeds the number of samples, and otherwise returns a buffer of the
    same length whose first digits are the payload and the marker. That
    number is [8*len(p) + 16] when every character of [p] is below 256, and
    never less. *)
Theorem capacity_error_iff (B : list Z) (p : text) :
  (embed_watermark B p
   = Raise (ValueError "Watermark data is too large for this image.")
   <-> length (str_to_bin p) + 16 > length B) /\
  (~ length (str_to_bin p) + 16 > length B ->
   exists B', embed_watermark B p = Ok B' /\ length B' = length B /\
              map lsb (take (length (str_to_bin p) + 16) B') = str_to_bin p ++ EOF) /\
  nbits p <= length (str_to_bin p) + 16 /\
  (latin1 p -> length (str_to_bin p) + 16 = nbits p).
Proof.
  split; [|split; [|split]].
  - split.
    + intros H. destruct (decide (length (str_to_bin p) + 16 <= length B)); [|lia].
      rewrite embed_watermark_fits in H by assumption. discriminate.
    + intros H. apply embed_watermark_too_large. lia.
  - intros H. assert (Hle : length (str_to_bin p) + 16 <= length B) by lia.
    eexists. split; [apply embed_watermark_fits, Hle|].
    split; [apply embed_bits_length; rewrite length_app, EOF_length; lia|].
    rewrite <- firstn_map, lsb_embed_output by exact Hle.
    rewrite app_assoc. apply take_app_length'.
    rewrite length_app, EOF_length. reflexivity.
  - unfold nbits. pose proof (str_to_bin_length_ge p). lia.
  - intros H. unfold nbits. rewrite str_to_bin_length by exact H. reflexivity.
Qed.

Lemma capacity_error_iff_witness :
  embed_watermark Scenario.img24 Scenario.wide
  = Raise (ValueError "Watermark data is too large for this image.") /\
  (exists B', embed_watermark Scenario.img24 Scenario.letter_a = Ok B' /\
              length B' = length Scenario.img24 /\
              map lsb (take (length (str_to_bin Scenario.letter_a) + 16) B')
              = str_to_bin Scenario.letter_a ++ EOF) /\
  length (str_to_bin Scenario.letter_a) + 16 = nbits Scenario.letter_a.
Proof.
  split; [|split].
  - apply (proj1 (capacity_error_iff Scenario.img24 Scenario.wide)).
    vm_compute. lia.
  - apply (proj1 (proj2 (capacity_error_iff Scenario.img24 Scenario.letter_a))).
    vm_compute. lia.
  - apply (proj2 (proj2 (proj2 (capacity_error_iff Scenario.img24 Scenario.letter_a)))).
    repeat constructor.
Defined.

(** C5, as stated, fails: the one-character payload U+0100 is written on
    9 digits, so with the marker it needs 25 samples; it is refused by a
    buffer of 24 samples although [8*len(p) + 16 = 24] is not greater than
    24. *)
Lemma wide_character_needs_more :
  embed_watermark Scenario.img24 Scenario.wide
  = Raise (ValueError "Watermark data is too large for this image.") /\
  8 * length Scenario.wide + 16 <= length Scenario.img24.
Proof. split; [reflexivity | vm_compute; lia]. Qed.

(** C7. For every payload of ASCII characters (ordinal < 128), the digits
    [str_to_bin(payload)] hold no occurrence of the EOF marker; so the
    first occurrence in the embedded digits [str_to_bin(payload) + EOF],
    and in the digits of the output of a successful embedding (the
    embedded ones, and also those of the whole buffer), is at offset
    [8*len(payload)]. *)
Theorem sentinel_only_at_end (p : text) :
  ascii p ->
  (forall j, ~ occurs_at EOF (str_to_bin p) j) /\
  find (str_to_bin p) EOF = (-1)%Z /\
  find (str_to_bin p ++ EOF) EOF = Z.of_nat (8 * length p) /\
  forall B B', embed_watermark B p = Ok B' ->
    map lsb (take (nbits p) B') = str_to_bin p ++ EOF /\
    find (map lsb (take (nbits p) B')) EOF = Z.of_nat (8 * length p) /\
    find (map lsb B') EOF = Z.of_nat (8 * length p).
Proof.
  intros Hp. pose proof (str_to_bin_heads_zero p Hp) as Hz.
  pose proof (str_to_bin_length p (ascii_latin1 p Hp)) as Hl.
  assert (Hend : forall rest,
             find (str_to_bin p ++ EOF ++ rest) EOF = Z.of_nat (8 * length p)).
  { intros rest. rewrite (sentinel_first _ rest (length p) Hz Hl), Hl.
    reflexivity. }
  split; [intros j; apply heads_zero_no_EOF, Hz|].
  split; [apply find_none; intros j; apply heads_zero_no_EOF, Hz|].
  split; [rewrite <- (app_nil_r EOF); apply Hend|].
  intros B B' HB. apply embed_watermark_Ok_inv in HB as [Hfit ->].
  unfold nbits. rewrite <- firstn_map, lsb_embed_output by exact Hfit.
  assert (Htake : take (8 * length p + 16)
                    (str_to_bin p ++ EOF ++ map lsb (drop (length (str_to_bin p) + 16) B))
                  = str_to_bin p ++ EOF).
  { rewrite app_assoc. apply take_app_length'.
    rewrite length_app, EOF_length, Hl. reflexivity. }
  rewrite Htake. split; [reflexivity|].
  split; [rewrite <- (app_nil_r EOF); apply Hend | apply Hend].
Qed.

Lemma sentinel_only_at_end_witness :
  find (str_to_bin Scenario.hi) EOF = (-1)%Z /\
  find (str_to_bin Scenario.hi ++ EOF) EOF = 16%Z.
Proof.
  assert (H : ascii Scenario.hi) by repeat constructor.
  split.
  - exact (proj1 (proj2 (sentinel_only_at_end Scenario.hi H))).
  - exact (proj1 (proj2 (proj2 (sentinel_only_at_end Scenario.hi H)))).
Defined.

(** C8. For every string of binary digits [b], [bin_to_str] drops the
    trailing group of fewer than 8 digits: [bin_to_str(b)] is [bin_to_str]
    of the first [8*floor(len(b)/8)] digits; it has one character for each
    full group, and the character at position [k] is the one whose ordinal
    is the unsigned value of the digits [8k .. 8k+7], read left to right. *)
Theorem bin_to_str_groups (b : bits) :
  bin_to_str b = bin_to_str (take (8 * (length b / 8)) b) /\
  length (bin_to_str b) = length b / 8 /\
  forall k, k < length b / 8 ->
    exists b7 b6 b5 b4 b3 b2 b1 b0,
      slice b (8 * k) (8 * k + 8) = [b7; b6; b5; b4; b3; b2; b1; b0] /\
      bin_to_str b !! k = Some (byte_value b7 b6 b5 b4 b3 b2 b1 b0).
Proof.
  split; [apply bin_to_str_truncate|]. split; [apply bin_to_str_length|].
  intros k Hk. pose proof (Nat.div_mod_eq (length b) 8) as Hd.
  destruct (list_of_length_8 (slice b (8 * k) (8 * k + 8)))
    as (b7 & b6 & b5 & b4 & b3 & b2 & b1 & b0 & Hg).
  { unfold slice. rewrite length_take, length_drop. nia. }
  exists b7, b6, b5, b4, b3, b2, b1, b0. split; [exact Hg|].
  rewrite bin_to_str_closed, map_fmap, list_lookup_fmap.
  rewrite lookup_seq_lt by exact Hk. change (0 + k) with k.
  change (Some (chr (int2 (slice b (8 * k) (8 * k + 8))))
          = Some (byte_value b7 b6 b5 b4 b3 b2 b1 b0)).
  rewrite Hg. unfold chr. f_equal. apply int2_byte.
Qed.

Lemma bin_to_str_groups_witness :
  exists b7 b6 b5 b4 b3 b2 b1 b0,
    slice (str_to_bin Scenario.hi ++ [true; true; false]) (8 * 1) (8 * 1 + 8)
    = [b7; b6; b5; b4; b3; b2; b1; b0] /\
    bin_to_str (str_to_bin Scenario.hi ++ [true; true; false]) !! 1
    = Some (byte_value b7 b6 b5 b4 b3 b2 b1 b0).
Proof.
  apply (proj2 (proj2 (bin_to_str_groups
                         (str_to_bin Scenario.hi ++ [true; true; false])))).
  vm_compute. lia.
Defined.

(** C9. [extract_watermark] reads the digits of the first
    [min(len(buffer), 4096*8*3)] samples only, and 4096*8*3 is 98304: two
    buffers with the same first 98304 samples give the same result. When
    the digits of that prefix hold no EOF marker it returns [None] and
    raises nothing; this is so, in particular, after an ASCII payload has
    been embedded whose marker lies wholly behind the prefix. *)
Theorem extract_scans_prefix :
  Z.of_nat pixel_check_cap = 98304%Z /\
  (forall B B', take pixel_check_cap B = take pixel_check_cap B' ->
                extract_watermark B = extract_watermark B') /\
  (forall B,
     (forall j, ~ occurs_at EOF
                  (map lsb (take (Nat.min (length B) pixel_check_cap) B)) j) ->
     extract_watermark B = Ok None) /\
  (forall B p B',
     ascii p -> embed_watermark B p = Ok B' ->
     pixel_check_cap <= 8 * length p ->
     extract_watermark B' = Ok None).
Proof.
  split; [apply pixel_check_cap_value|]. split; [|split].
  - intros B B' H. rewrite !extract_watermark_closed, H. reflexivity.
  - intros B H. rewrite extract_watermark_closed. f_equal. unfold decode.
    rewrite decide_True; [reflexivity|]. apply find_none. intros j Hj.
    apply (H j). rewrite take_min_length. exact Hj.
  - intros B p B' Hp HB Hcap.
    pose proof (embed_watermark_Ok_inv _ _ _ HB) as [Hfit _].
    pose proof (str_to_bin_length p (ascii_latin1 p Hp)) as Hl.
    pose proof (extract_embedded B p Hp) as H. unfold nbits in H.
    rewrite HB, bind_Ok in H. rewrite H by lia.
    rewrite decide_False by lia. reflexivity.
Qed.

Lemma extract_scans_prefix_witness :
  extract_watermark Scenario.late_img
  = extract_watermark (take pixel_check_cap Scenario.late_img) /\
  extract_watermark Scenario.img24 = Ok None /\
  extract_watermark
    (embed_bits (str_to_bin Scenario.long_payload ++ EOF) Scenario.long_img)
  = Ok None.
Proof.
  destruct extract_scans_prefix as (_ & Hsame & Hnone & Hlate).
  split; [|split].
  - apply Hsame. rewrite take_take, Nat.min_id. reflexivity.
  - apply Hnone. intros j. apply find_none_inv. vm_compute. reflexivity.
  - assert (Hlen : length (str_to_bin Scenario.long_payload)
                   = 8 * length Scenario.long_payload)
      by apply str_to_bin_length, ascii_latin1, long_payload_ascii.
    apply (Hlate Scenario.long_img Scenario.long_payload).
    + apply long_payload_ascii.
    + apply embed_watermark_fits. unfold Scenario.long_img.
      rewrite length_replicate, Hlen. unfold nbits. lia.
    + apply Nat.leb_le. vm_compute. reflexivity.
Defined.

(** C10. When the first EOF marker in the digits of the whole buffer
    lies entirely within the first 98304 digits, the capped extractor of
    the back end and the GUI's extractor, which scans every sample, return
    the same result; the two disagree only on buffers whose first marker
    reaches beyond that prefix. *)
Theorem capped_agrees_with_uncapped (B : list Z) :
  (forall k, find (map lsb B) EOF = Z.of_nat k -> k + 16 <= pixel_check_cap ->
             extract_watermark B = Gui.extract_watermark B) /\
  (extract_watermark B <> Gui.extract_watermark B ->
   exists k, find (map lsb B) EOF = Z.of_nat k /\ pixel_check_cap < k + 16).
Proof.
  assert (Hin : forall k, find (map lsb B) EOF = Z.of_nat k ->
                          k + 16 <= pixel_check_cap ->
                          extract_watermark B = Gui.extract_watermark B).
  { intros k Hk Hcap. apply find_some_inv in Hk as Hk'. destruct Hk' as [Ho Hmin].
    rewrite extract_watermark_closed, gui_extract_watermark_closed. f_equal.
    rewrite <- firstn_map. unfold decode.
    assert (Hf : find (take pixel_check_cap (map lsb B)) EOF = Z.of_nat k).
    { apply find_first.
      - apply occurs_at_take; [rewrite EOF_length; lia | exact Ho].
      - intros j Hj Hoj. apply occurs_at_take_inv in Hoj as [Hoj _];
          [|rewrite EOF_length; lia].
        exact (Hmin j Hj Hoj). }
    rewrite Hf, Hk. rewrite !decide_False by lia.
    rewrite Nat2Z.id, !slice_from_0, take_take, Nat.min_l by lia.
    reflexivity. }
  split; [exact Hin|]. intros Hne.
  destruct (find_cases (map lsb B) EOF) as [Hnone|[k Hk]].
  - exfalso. apply Hne.
    rewrite extract_watermark_closed, gui_extract_watermark_closed. f_equal.
    rewrite <- firstn_map. unfold decode.
    assert (Hf : find (take pixel_check_cap (map lsb B)) EOF = (-1)%Z).
    { apply find_none. intros j Hoj.
      apply occurs_at_take_inv in Hoj as [Hoj _]; [|rewrite EOF_length; lia].
      exact (find_none_inv _ _ j Hnone Hoj). }
    rewrite Hf, Hnone. reflexivity.
  - exists k. split; [exact Hk|].
    destruct (decide (k + 16 <= pixel_check_cap)) as [Hle|Hgt]; [|lia].
    exfalso. exact (Hne (Hin k Hk Hle)).
Qed.

Lemma lsb_zeros n : map lsb (replicate n 0%Z) = replicate n false.
Proof. induction n as [|n IH]; [reflexivity|]. simpl. f_equal. exact IH. Qed.

Lemma late_img_digits :
  map lsb Scenario.late_img = replicate (pixel_check_cap - 8) false ++ EOF.
Proof.
  unfold Scenario.late_img. rewrite map_app, lsb_zeros. reflexivity.
Qed.

Lemma late_img_disagree :
  extract_watermark Scenario.late_img <> Gui.extract_watermark Scenario.late_img.
Proof.
  rewrite extract_watermark_closed, gui_extract_watermark_closed.
  rewrite <- firstn_map, late_img_digits. unfold decode.
  assert (Hz : heads_zero (replicate (pixel_check_cap - 8) false)).
  { intros k Hk. rewrite length_replicate in Hk. apply lookup_replicate_2, Hk. }
  assert (Hn : length (replicate (pixel_check_cap - 8) false)
               = 8 * (4096 * 3 - 1)).
  { rewrite length_replicate. unfold pixel_check_cap. lia. }
  pose proof (sentinel_capped _ [] _ pixel_check_cap Hz Hn) as Hc.
  pose proof (sentinel_first _ [] _ Hz Hn) as Hf.
  rewrite app_nil_r in Hc, Hf.
  rewrite decide_False in Hc
    by (rewrite length_replicate; unfold pixel_check_cap; lia).
  rewrite Hc, Hf.
  rewrite decide_True by reflexivity. rewrite decide_False by lia.
  discriminate.
Qed.

Lemma capped_agrees_with_uncapped_witness :
  extract_watermark Scenario.small_marked
  = Gui.extract_watermark Scenario.small_marked /\
  exists k, find (map lsb Scenario.late_img) EOF = Z.of_nat k /\
            pixel_check_cap < k + 16.
Proof.
  split.
  - apply (proj1 (capped_agrees_with_uncapped Scenario.small_marked) 16).
    + vm_compute. reflexivity.
    + unfold pixel_check_cap. lia.
  - apply (proj2 (capped_agrees_with_uncapped Scenario.late_img)).
    apply late_img_disagree.
Defined.

(** ** Embedding on objects: what happens to the store *)

Section ObjectStore.

Import Objects.

Lemma run_bind_Ok {A B} (m : M A) (k : A -> M B) (h h' : heap) a :
  m h = (Ok a, h') -> (x ← m; k x) h = k a h'.
Proof. intros H. unfold mbind, M_bind. rewrite H. reflexivity. Qed.

Lemma read_run (h : heap) l v : h !! l = Some v -> read l h = (Ok v, h).
Proof. unfold read. intros ->. reflexivity. Qed.

Lemma copy_run (h : heap) l v :
  h !! l = Some v ->
  (w ← read l; alloc w) h = (Ok (fresh (dom h)), <[fresh (dom h) := v]> h).
Proof. intros H. rewrite (run_bind_Ok _ _ _ _ _ (read_run _ _ _ H)). reflexivity. Qed.

Lemma len_run (h : heap) l v : h !! l = Some v -> len l h = (Ok (length v), h).
Proof.
  intros H. unfold len. rewrite (run_bind_Ok _ _ _ _ _ (read_run _ _ _ H)).
  reflexivity.
Qed.

Lemma load_run (h : heap) l v i x :
  h !! l = Some v -> getitem v i = Ok x -> load l i h = (Ok x, h).
Proof.
  intros H Hx. unfold load. rewrite (run_bind_Ok _ _ _ _ _ (read_run _ _ _ H)).
  unfold lift. rewrite Hx. reflexivity.
Qed.

Lemma store_run (h : heap) l v i x v' :
  h !! l = Some v -> setitem v i x = Ok v' ->
  store l i x h = (Ok tt, <[l := v']> h).
Proof.
  intros H Hx. unfold store. rewrite (run_bind_Ok _ _ _ _ _ (read_run _ _ _ H)).
  erewrite run_bind_Ok; [reflexivity|]. unfold lift. rewrite Hx. reflexivity.
Qed.

Lemma fresh_None (h : heap) : h !! fresh (dom h) = None.
Proof. apply not_elem_of_dom, is_fresh. Qed.

Lemma insert_fresh_keeps (h : heap) v l w :
  h !! l = Some w -> <[fresh (dom h) := v]> h !! l = Some w.
Proof.
  intros Hl. rewrite lookup_insert_ne; [exact Hl|].
  intros He. pose proof (fresh_None h) as Hf. rewrite He, Hl in Hf.
  discriminate.
Qed.

(** The loop on the object [flat] does what the loop on its value does. *)
Lemma objects_loop data flat idx (h : heap) v v' :
  h !! flat = Some v ->
  for_each (embed_step data) v idx = Ok v' ->
  for_range
    (fun i =>
       d ← lift (getitem data i);
       x ← load flat i;
       store flat i (Z.lor (Z.land x 254) (int_digit d))) idx h
  = (Ok tt, <[flat := v']> h).
Proof.
  revert h v. induction idx as [|i idx IH]; intros h v Hh Hrun.
  - simpl in Hrun. injection Hrun as <-.
    rewrite insert_id by exact Hh. reflexivity.
  - simpl in Hrun. destruct (embed_step data v i) as [v1|e] eqn:Hstep;
      [|discriminate].
    rewrite bind_Ok in Hrun.
    unfold embed_step in Hstep.
    destruct (getitem data i) as [d|] eqn:Hd; [|discriminate].
    destruct (getitem v i) as [x|] eqn:Hx; [|discriminate].
    rewrite !bind_Ok in Hstep.
    cbn [for_range].
    erewrite run_bind_Ok.
    2:{ erewrite run_bind_Ok; [|unfold lift; rewrite Hd; reflexivity].
        erewrite run_bind_Ok; [|exact (load_run _ _ _ _ _ Hh Hx)].
        exact (store_run _ _ _ _ _ _ Hh Hstep). }
    rewrite (IH (<[flat := v1]> h) v1) by (apply lookup_insert_eq || exact Hrun).
    rewrite insert_insert_eq. reflexivity.
Qed.

(** A run of [Objects.embed_watermark] from a store where [img] holds
    [B]: it returns what the function on values returns, in a new object,
    and every object of the initial store is as it was. *)
Lemma objects_embed_run img p (h : heap) B :
  h !! img = Some B ->
  exists h',
    (forall l v, h !! l = Some v -> h' !! l = Some v) /\
    match WatermarkProcessor.embed_watermark B p with
    | Ok B' =>
        exists out, Objects.embed_watermark img p h = (Ok out, h') /\
                    h !! out = None /\ h' !! out = Some B'
    | Raise e => Objects.embed_watermark img p h = (Raise e, h')
    end.
Proof.
  intros Himg. unfold Objects.embed_watermark.
  set (data := str_to_bin p ++ EOF).
  set (l1 := fresh (dom h)). set (h1 := <[l1 := B]> h).
  set (l2 := fresh (dom h1)). set (h2 := <[l2 := B]> h1).
  assert (Hl2 : h1 !! l2 = None) by apply fresh_None.
  assert (Hkeep1 : forall l v, h !! l = Some v -> h1 !! l = Some v)
    by (intros l v; apply insert_fresh_keeps).
  assert (Hne2 : forall l v, h !! l = Some v -> l2 <> l).
  { intros l v Hl ->. rewrite (Hkeep1 _ _ Hl) in Hl2. discriminate. }
  assert (Hkeep2 : forall l v, h !! l = Some v -> h2 !! l = Some v).
  { intros l v Hl. unfold h2. rewrite lookup_insert_ne by exact (Hne2 _ _ Hl).
    exact (Hkeep1 _ _ Hl). }
  erewrite run_bind_Ok; [|exact (copy_run _ _ _ Himg)]. fold l1 h1.
  erewrite run_bind_Ok; [|apply copy_run, lookup_insert_eq]. fold l2 h2.
  erewrite run_bind_Ok; [|apply len_run, lookup_insert_eq].
  unfold WatermarkProcessor.embed_watermark. fold data.
  destruct (decide (length data > length B)) as [Hbig|Hfit].
  - exists h2. split; [exact Hkeep2 | reflexivity].
  - assert (Hle : length data <= length B) by (unfold gt in Hfit; lia).
    rewrite (embed_loop data B Hle).
    set (B' := embed_bits data B).
    set (h3 := <[l2 := B']> h2). set (l3 := fresh (dom h3)).
    exists (<[l3 := B']> h3).
    assert (Hkeep3 : forall l v, h !! l = Some v -> h3 !! l = Some v).
    { intros l v Hl. unfold h3.
      rewrite lookup_insert_ne by exact (Hne2 _ _ Hl). exact (Hkeep2 _ _ Hl). }
    split; [intros l v Hl; apply insert_fresh_keeps, Hkeep3, Hl|].
    exists l3. split; [|split; [|apply lookup_insert_eq]].
    + erewrite run_bind_Ok.
      2:{ apply (objects_loop data l2 _ h2 B B');
            [apply lookup_insert_eq | apply embed_loop, Hle]. }
      fold h3. erewrite run_bind_Ok; [|reflexivity].
      apply copy_run, lookup_insert_eq.
    + destruct (h !! l3) as [v|] eqn:Hv; [|reflexivity].
      pose proof (fresh_None h3) as Hl3. fold l3 in Hl3.
      rewrite (Hkeep3 _ _ Hv) in Hl3. discriminate.
Qed.

End ObjectStore.

(** C6 (as amended). Let [n] be the number of embedded digits,
    [len(str_to_bin(p)) + 16], which is [8*len(p) + 16] when every
    character of [p] is below 256. On every successful embedding into a
    buffer of bytes, the returned buffer agrees with the input on every
    sample at an index [>= n], and at each index [i < n] it holds a byte
    that differs from the input's at most in the least significant bit. The
    caller's image, like every object that existed before the call, is
    never mutated: not when the embedding succeeds (the result is a new
    object) and not when it fails with the capacity error. *)
Theorem embed_frame (h : gmap nat (list Z)) (img : nat) (B : list Z) (p : text) :
  h !! img = Some B -> Forall is_byte B ->
  let n := length (str_to_bin p) + 16 in
  let run := Objects.embed_watermark img p h in
  (forall l v, h !! l = Some v -> run.2 !! l = Some v) /\
  (length B < n ->
   run.1 = Raise (ValueError "Watermark data is too large for this image.")) /\
  (n <= length B ->
   exists out B',
     run.1 = Ok out /\ h !! out = None /\ run.2 !! out = Some B' /\
     embed_watermark B p = Ok B' /\ length B' = length B /\
     (forall i, n <= i -> B' !! i = B !! i) /\
     (forall i x, i < n -> B !! i = Some x ->
        exists y, B' !! i = Some y /\ is_byte y /\
                  Z.shiftr y 1 = Z.shiftr x 1)) /\
  (latin1 p -> n = nbits p).
Proof.
  intros Himg Hbytes n run.
  assert (Hdata : length (str_to_bin p ++ EOF) = n)
    by (rewrite length_app, EOF_length; reflexivity).
  destruct (objects_embed_run img p h B Himg) as (h' & Hkeep & Hres).
  fold run in Hres.
  destruct (decide (n <= length B)) as [Hfit|Hbig].
  - rewrite embed_watermark_fits in Hres by exact Hfit.
    destruct Hres as (out & Hrun & Hnew & Hout). rewrite Hrun. simpl.
    split; [exact Hkeep|]. split; [lia|]. split.
    + intros _. exists out, (embed_bits (str_to_bin p ++ EOF) B).
      split; [reflexivity|]. split; [exact Hnew|]. split; [exact Hout|].
      split; [apply embed_watermark_fits, Hfit|].
      split; [apply embed_bits_length; lia|]. split.
      * intros i Hi. rewrite embed_bits_lookup by lia.
        rewrite lookup_ge_None_2 by lia. reflexivity.
      * intros i x Hi Hx. rewrite embed_bits_lookup by lia.
        destruct (lookup_lt_is_Some_2 (str_to_bin p ++ EOF) i) as [d Hd];
          [lia|].
        rewrite Hd, Hx. exists (set_lsb x d). split; [reflexivity|].
        apply set_lsb_byte. exact (Forall_lookup_1 _ _ _ _ Hbytes Hx).
    + intros Hp. unfold n, nbits. rewrite str_to_bin_length by exact Hp.
      reflexivity.
  - rewrite embed_watermark_too_large in Hres by lia. rewrite Hres. simpl.
    split; [exact Hkeep|]. split; [reflexivity|]. split; [lia|].
    intros Hp. unfold n, nbits. rewrite str_to_bin_length by exact Hp.
    reflexivity.
Qed.

Lemma embed_frame_witness :
  (forall l v, ({[ 0 := Scenario.img25 ]} : gmap nat (list Z)) !! l = Some v ->
               (Objects.embed_watermark 0 Scenario.letter_a
                  {[ 0 := Scenario.img25 ]}).2 !! l = Some v) /\
  length (str_to_bin Scenario.letter_a) + 16 = nbits Scenario.letter_a.
Proof.
  assert (Hb : Forall is_byte Scenario.img25).
  { apply Forall_forall. intros x Hx. apply list_elem_of_In in Hx.
    unfold is_byte. simpl in Hx. intuition subst; lia. }
  pose proof (embed_frame {[ 0 := Scenario.img25 ]} 0 Scenario.img25
                Scenario.letter_a (lookup_singleton_eq _ _) Hb) as H.
  split; [exact (proj1 H)|].
  apply (proj2 (proj2 (proj2 H))). repeat constructor.
Defined.

(** C6, as stated, fails: U+0100 is written on 9 digits, so embedding it
    writes 25 samples, and the sample at index 24, which is not below
    [8*len(p) + 16 = 24], changes from 1 to 0. *)
Lemma wide_character_writes_further :
  8 * length Scenario.wide + 16 <= 24 /\
  Scenario.img25 !! 24 = Some 1%Z /\
  exists B', embed_watermark Scenario.img25 Scenario.wide = Ok B' /\
             B' !! 24 = Some 0%Z.
Proof.
  split; [vm_compute; lia|]. split; [reflexivity|].
  eexists. split; [vm_compute; reflexivity | reflexivity].
Qed.

(** ** The texts the service embeds *)

(** Properties of characters that hold of every ASCII character pass
    from the fields of a dict to its JSON text. *)
Section CharClass.

Variable P : N -> Prop.
Hypothesis P_ascii : forall c, (c < 128)%N -> P c.

Lemma all_of_ascii s : ascii s -> Forall P s.
Proof. intros H. eapply Forall_impl; [exact H | exact P_ascii]. Qed.

Lemma all_concat (ss : list text) : Forall (Forall P) ss -> Forall P (concat ss).
Proof.
  induction 1 as [|s ss Hs _ IH]; [constructor|]. simpl.
  apply Forall_app_2; assumption.
Qed.

Lemma all_join sep (ss : list text) :
  Forall P sep -> Forall (Forall P) ss -> Forall P (join sep ss).
Proof.
  intros Hsep. induction 1 as [|s ss Hs Hss IH]; [constructor|].
  destruct ss as [|s' ss]; [exact Hs|].
  change (Forall P (s ++ sep ++ join sep (s' :: ss))).
  auto using Forall_app_2.
Qed.

Lemma all_map_concat {A} (f : A -> text) (l : list A) :
  (forall a, In a l -> Forall P (f a)) -> Forall P (concat (map f l)).
Proof.
  intros H. apply all_concat, Forall_forall. intros t Ht.
  apply list_elem_of_In, in_map_iff in Ht as (a & <- & Ha). exact (H a Ha).
Qed.

Lemma quoted_all body : Forall P body -> Forall P ([34%N] ++ body ++ [34%N]).
Proof.
  intros H. apply Forall_app_2; [repeat constructor; apply P_ascii; lia|].
  apply Forall_app_2; [exact H | repeat constructor; apply P_ascii; lia].
Qed.

Lemma dumps_with_all enc item_sep key_sep (d : str_dict) :
  Forall (fun kv => Forall P (enc kv.1) /\ Forall P (enc kv.2)) d ->
  Forall P item_sep -> Forall P key_sep ->
  Forall P (dumps_with enc item_sep key_sep d).
Proof.
  intros Hd Hi Hk. unfold dumps_with.
  apply Forall_app_2; [repeat constructor; apply P_ascii; lia|].
  apply Forall_app_2; [|repeat constructor; apply P_ascii; lia].
  apply all_join; [exact Hi|].
  induction Hd as [|kv d [H1 H2] _ IH]; [constructor|].
  simpl. constructor; [|exact IH]. auto using Forall_app_2.
Qed.

End CharClass.

(** A literal is ASCII when the check of its characters computes to
    true. *)
Lemma ascii_check s : forallb (fun c => (c <? 128)%N) s = true -> ascii s.
Proof.
  intros H. apply Forall_forall. intros c Hc. apply list_elem_of_In in Hc.
  rewrite forallb_forall in H. apply N.ltb_lt, H, Hc.
Qed.

Lemma hex_digit_ascii n : (n < 16)%N -> (hex_digit n < 128)%N.
Proof. intros H. unfold hex_digit. destruct (n <? 10)%N; lia. Qed.

Lemma hex4_ascii n : ascii (hex4 n).
Proof.
  unfold hex4. repeat constructor; apply hex_digit_ascii, N.mod_lt; lia.
Qed.

Lemma u_escape_ascii n : ascii (u_escape n).
Proof.
  unfold u_escape. apply Forall_app_2; [repeat constructor; lia | apply hex4_ascii].
Qed.

Lemma escape_dct_ascii c e : escape_dct c = Some e -> ascii e.
Proof.
  unfold escape_dct. intros H.
  repeat (destruct (_ =? _)%N;
          [injection H as <-; repeat constructor; lia|]).
  destruct (c <? 32)%N; [|discriminate].
  injection H as <-. apply u_escape_ascii.
Qed.

Lemma escape_ascii_ascii c : ascii (escape_ascii c).
Proof.
  unfold escape_ascii.
  destruct ((32 <=? c)%N && (c <=? 126)%N && negb (c =? 92)%N && negb (c =? 34)%N)
    eqn:Hc.
  - repeat constructor. apply andb_prop in Hc as [Hc _].
    apply andb_prop in Hc as [Hc _]. apply andb_prop in Hc as [_ Hc].
    apply N.leb_le in Hc. lia.
  - destruct (escape_dct c) as [e|] eqn:He; [exact (escape_dct_ascii c e He)|].
    destruct (c <? 65536)%N; [apply u_escape_ascii|].
    apply Forall_app_2; apply u_escape_ascii.
Qed.

Lemma encode_basestring_ascii_ascii s : ascii (encode_basestring_ascii s).
Proof.
  unfold encode_basestring_ascii. apply (quoted_all (fun c => (c < 128)%N)); [auto|].
  apply all_map_concat. intros c _. apply escape_ascii_ascii.
Qed.

(** [json.dumps] with its defaults writes ASCII, whatever the dict
    holds. *)
Lemma json_dumps_ascii d : ascii (json_dumps d).
Proof.
  unfold json_dumps. apply (dumps_with_all (fun c => (c < 128)%N)).
  - auto.
  - apply Forall_forall. intros kv _. split; apply encode_basestring_ascii_ascii.
  - repeat constructor; lia.
  - repeat constructor; lia.
Qed.

(** With [ensure_ascii=False] the characters of the fields are written as
    they are, or escaped in ASCII. *)
Lemma json_dumps_compact_all (P : N -> Prop) d :
  (forall c, (c < 128)%N -> P c) ->
  Forall (fun kv => Forall P kv.1 /\ Forall P kv.2) d ->
  Forall P (json_dumps_compact d).
Proof.
  intros HP Hd. unfold json_dumps_compact.
  assert (Henc : forall s, Forall P s -> Forall P (encode_basestring s)).
  { intros s Hs. unfold encode_basestring. apply quoted_all; [exact HP|].
    apply all_map_concat. intros c Hc. unfold escape_raw.
    destruct (escape_dct c) as [e|] eqn:He.
    - apply (all_of_ascii P HP), (escape_dct_ascii c e He).
    - repeat constructor. rewrite Forall_forall in Hs.
      apply Hs, list_elem_of_In, Hc. }
  apply (dumps_with_all P HP);
    try (repeat constructor; apply HP; lia).
  eapply Forall_impl; [exact Hd|]. intros kv [H1 H2]. split; apply Henc; assumption.
Qed.

Lemma be_bytes_lt k n : Forall (fun b => (b < 256)%N) (be_bytes k n).
Proof.
  revert n. induction k as [|k IH]; intros n; [constructor|].
  simpl. apply Forall_app_2; [apply IH|].
  repeat constructor. apply N.mod_lt. lia.
Qed.

Lemma sha256_hexdigest_ascii msg : ascii (sha256_hexdigest msg).
Proof.
  unfold sha256_hexdigest. apply all_map_concat. intros w _.
  apply all_map_concat. intros b Hb.
  pose proof (be_bytes_lt 4 w) as Hlt. rewrite Forall_forall in Hlt.
  apply list_elem_of_In, Hlt in Hb.
  repeat constructor; apply hex_digit_ascii.
  - apply N.Div0.div_lt_upper_bound. lia.
  - apply N.mod_lt. lia.
Qed.

Lemma ascii_encodable s : ascii s -> encodable s.
Proof. apply all_of_ascii. intros c Hc. lia. Qed.

(** [str.encode()] raises on a lone surrogate and on nothing else. *)
Lemma encode_total s : encodable s -> exists b, encode s = Ok b.
Proof.
  induction 1 as [|c s Hc _ [b IH]]; [exists []; reflexivity|].
  assert (Hu : exists u, utf8_char c = Ok u).
  { unfold utf8_char.
    destruct (c <? 128)%N; [eauto|]. destruct (c <? 2048)%N; [eauto|].
    destruct (c <? 65536)%N; [|eauto].
    destruct ((55296 <=? c)%N && (c <=? 57343)%N) eqn:Hs; [|eauto].
    apply andb_prop in Hs as [H1 H2].
    apply N.leb_le in H1, H2. lia. }
  destruct Hu as [u Hu]. exists (u ++ b). simpl. rewrite Hu, bind_Ok, IH.
  reflexivity.
Qed.

(** ASCII text is its own UTF-8 encoding. *)
Lemma encode_ascii s : ascii s -> encode s = Ok s.
Proof.
  induction 1 as [|c s Hc _ IH]; [reflexivity|].
  simpl. unfold utf8_char. apply N.ltb_lt in Hc. rewrite Hc, bind_Ok, IH.
  reflexivity.
Qed.

(** ** The service and the page *)

Section Workflow.

Import Backend Frontend.

Lemma validate_embed_inputs_nil owner passkey confirm_passkey uploaded_file :
  validate_embed_inputs owner passkey confirm_passkey uploaded_file = [] <->
  is_Some uploaded_file /\ owner <> [] /\ passkey <> [] /\
  passkey = confirm_passkey.
Proof.
  unfold validate_embed_inputs.
  destruct uploaded_file as [u|], owner as [|o os], passkey as [|k ks];
    simpl; case_bool_decide; simpl;
    (split; [try discriminate | intros (Hu & Ho & Hk & Hc)]);
    try (destruct Hu as [? Hu]; discriminate);
    try congruence.
  - intros _. split; [eauto|]. split; [discriminate|]. split; [discriminate|].
    destruct (decide (k :: ks = confirm_passkey)); [assumption|]. contradiction.
Qed.

(** With valid inputs that [str.encode()] accepts and room in the image,
    the service embeds the new record, whatever the image holds. *)
Lemma service_embed_succeeds svc B owner buyer passkey confirm_passkey
  datetime_str pk :
  validate_embed_inputs owner passkey confirm_passkey (Some (Ok B)) = [] ->
  encodable owner -> encodable buyer -> encodable datetime_str ->
  encode passkey = Ok pk ->
  let data := {| d_owner := owner; d_buyer := buyer; d_datetime := datetime_str;
                 d_passkey_hash := sha256_hexdigest pk |} in
  nbits (json_dumps (items data)) <= length B ->
  exists r,
    Backend.embed_watermark svc (Some (Ok B)) owner buyer passkey
      confirm_passkey datetime_str
    = (Some (embed_bits (str_to_bin (json_dumps (items data)) ++ EOF) B), Chain r).
Proof.
  intros Hvalid Ho Hb Hd Hp data Hfit.
  assert (Hlit : forall s, forallb (fun c => (c <? 128)%N) (text_of_string s) = true ->
                           encodable (text_of_string s))
    by (intros s Hs; apply ascii_encodable, ascii_check, Hs).
  assert (Hh : forall m, encodable (sha256_hexdigest m))
    by (intros m; apply ascii_encodable, sha256_hexdigest_ascii).
  assert (Hlen : length (str_to_bin (json_dumps (items data))) + 16 <= length B).
  { rewrite str_to_bin_length by apply ascii_latin1, json_dumps_ascii.
    exact Hfit. }
  assert (Hdumps : forall d, Forall (fun kv => encodable kv.1 /\ encodable kv.2) d ->
                             exists b, encode (json_dumps_compact d) = Ok b).
  { intros d Hd'. apply encode_total, json_dumps_compact_all; [|exact Hd'].
    intros c Hc. lia. }
  unfold Backend.embed_watermark. rewrite Hvalid.
  unfold embed_watermark_try. simpl load_image. rewrite bind_Ok.
  unfold create_watermark_data. rewrite Hp, !bind_Ok.
  fold data. rewrite (embed_watermark_fits B _ Hlen), !bind_Ok.
  assert (Hname : encodable (text_of_string "WatermarkedArt - " ++ owner))
    by (apply Forall_app_2; [apply Hlit; reflexivity | exact Ho]).
  destruct (Hdumps (items data)) as [hb Hhb].
  { unfold items, data. cbn [d_owner d_buyer d_datetime d_passkey_hash].
    repeat match goal with
           | |- Forall _ [] => constructor
           | |- Forall _ (_ :: _) => constructor; [split; cbn [fst snd]|]
           end;
      first [assumption | apply Hh | apply Hlit; reflexivity]. }
  rewrite Hhb, bind_Ok.
  unfold metadata_to_data_uri.
  match goal with
  | |- context [encode (json_dumps_compact ?md)] =>
      destruct (Hdumps md) as [mb Hmb]
  end.
  { unfold data. cbn [d_owner d_buyer d_datetime d_passkey_hash].
    repeat match goal with
           | |- Forall _ [] => constructor
           | |- Forall _ (_ :: _) => constructor; [split; cbn [fst snd]|]
           end;
      first [assumption | apply Hh | apply Hlit; reflexivity]. }
  rewrite Hmb, !bind_Ok.
  destruct (blockchain svc) as [bc|]; [|eexists; reflexivity].
  destruct (mint_nft bc _ _ _); eexists; reflexivity.
Qed.

Lemma handle_embed_button_refuses svc ss f clicked :
  handle_embed_button svc ss f clicked = AlreadyWatermarked <->
  has_existing_watermark ss = true /\ is_resell_verified ss = false.
Proof.
  unfold handle_embed_button.
  destruct (has_existing_watermark ss), (is_resell_verified ss), clicked;
    simpl; split; try discriminate; try tauto; intros [? ?]; discriminate.
Qed.

(** For an existing record without a passkey hash the page calls nothing
    and marks the resale as verified. *)
Lemma handle_resell_unprotected svc ss wm verify_click :
  existing_watermark ss = Some (Some wm) -> truthy (PDict wm) = true ->
  truthy (get wm "passkey_hash") = false ->
  handle_resell_functionality svc ss verify_click
  = ([], Ok {| existing_watermark := Some (Some wm);
               resell_verified := Some true |}).
Proof.
  intros Hss Hwm Hkey. unfold handle_resell_functionality, has_existing_watermark.
  rewrite Hss, Hwm, Hkey. reflexivity.
Qed.

Lemma get_absent (wm : gmap text pyval) k :
  wm !! text_of_string k = None -> truthy (get wm k) = false.
Proof. unfold get. intros ->. reflexivity. Qed.

End Workflow.

(** The round trip at the level of records: the JSON of every record is
    ASCII, so nothing has to be assumed of its fields. *)
Corollary record_roundtrip (data : Backend.watermark_data) (B : list Z) :
  let payload := json_dumps (Backend.items data) in
  nbits payload <= length B -> nbits payload <= pixel_check_cap ->
  (B' ← embed_watermark B payload; extract_watermark B') = Ok (Some payload).
Proof.
  intros payload HB Hcap.
  rewrite (extract_embedded B payload (json_dumps_ascii _) HB).
  rewrite decide_True by exact Hcap. reflexivity.
Qed.

(** ** The claims about the workflow *)

(** C2, as stated, fails: Alice's record is extracted from the image;
    the service, called with Bob's valid inputs on that image, refuses
    nothing and returns an image from which Bob's record is extracted. *)
Lemma service_overwrites_existing_record :
  extract_watermark Scenario.alice_img
  = Ok (Some (json_dumps (Backend.items Scenario.alice))) /\
  exists W,
    Backend.embed_watermark Scenario.offline (Some (Ok Scenario.alice_img))
      Scenario.bob_owner [] Scenario.bob_passkey Scenario.bob_passkey
      Scenario.bob_datetime = (Some W, Backend.Chain None) /\
    extract_watermark W = Ok (Some (json_dumps (Backend.items Scenario.bob))).
Proof.
  split.
  - rewrite extract_watermark_closed. vm_compute. reflexivity.
  - eexists. split; [vm_compute; reflexivity|].
    rewrite extract_watermark_closed. vm_compute. reflexivity.
Qed.

(** C3 (as amended). For every extracted record whose 'passkey_hash' is
    missing (or is [None] or empty) and every non-empty passkey,
    [verify_resell_passkey] succeeds having called the validator only:
    [verify_passkey] is not called. With the empty passkey it fails with
    "Please enter a passkey.", the record notwithstanding. The page does
    not call it at all for such a record: it marks the resale verified. *)
Theorem unprotected_resell (svc : Backend.WatermarkService) (passkey : text)
  (wm : gmap text Backend.pyval) :
  Backend.truthy (Backend.get wm "passkey_hash") = false ->
  (passkey <> [] ->
   Backend.verify_resell_passkey svc passkey wm
   = ([Backend.ValidatePasskeyVerification passkey], Ok (true, None))) /\
  (passkey = [] ->
   Backend.verify_resell_passkey svc passkey wm
   = ([Backend.ValidatePasskeyVerification passkey],
      Ok (false, Some "Please enter a passkey."%string))) /\
  (forall ss verify_click,
     Frontend.existing_watermark ss = Some (Some wm) ->
     Backend.truthy (Backend.PDict wm) = true ->
     Frontend.handle_resell_functionality svc ss verify_click
     = ([], Ok {| Frontend.existing_watermark := Some (Some wm);
                  Frontend.resell_verified := Some true |})).
Proof.
  intros Hkey. split; [|split].
  - intros Hp. unfold Backend.verify_resell_passkey,
      Backend.validate_passkey_verification.
    destruct passkey as [|c cs]; [contradiction|]. simpl.
    rewrite Hkey. reflexivity.
  - intros ->. reflexivity.
  - intros ss verify_click Hss Hwm.
    apply handle_resell_unprotected; assumption.
Qed.

Lemma unprotected_resell_witness :
  Backend.verify_resell_passkey Scenario.offline Scenario.bob_passkey
    Scenario.unprotected
  = ([Backend.ValidatePasskeyVerification Scenario.bob_passkey], Ok (true, None)).
Proof.
  apply (proj1 (unprotected_resell Scenario.offline Scenario.bob_passkey
                  Scenario.unprotected
                  (get_absent Scenario.unprotected "passkey_hash" eq_refl))).
  discriminate.
Defined.

(** C3, as stated, fails: with the empty passkey the verification of a
    record that has no 'passkey_hash' is refused. *)
Lemma empty_passkey_is_refused :
  Scenario.unprotected !! text_of_string "passkey_hash" = None /\
  Backend.verify_resell_passkey Scenario.offline [] Scenario.unprotected
  = ([Backend.ValidatePasskeyVerification []],
     Ok (false, Some "Please enter a passkey."%string)).
Proof. split; reflexivity. Qed.

(** ** The library models against the values Python computes *)

Example sha256_abc :
  sha256_hexdigest [97; 98; 99]%N
  = text_of_string "ba7816bf8f01cfea414140de5dae2223b00361a396177a9cb410ff61f20015ad".
Proof. vm_compute. reflexivity. Qed.

Example sha256_empty :
  sha256_hexdigest []
  = text_of_string "e3b0c44298fc1c149afbf4c8996fb92427ae41e4649b934ca495991b7852b855".
Proof. vm_compute. reflexivity. Qed.

Example sha256_two_blocks :
  sha256_hexdigest (replicate 70 97%N)
  = text_of_string "6bd5e5034855a11241f0dee8fc72850ffd9955b28347a86428b5fa19119f6ad0".
Proof. vm_compute. reflexivity. Qed.

Example sha256_pk123 :
  Backend.d_passkey_hash Scenario.alice
  = text_of_string "ed7b75c48abbe159798a83021142cb3a75c4c66f1b450a1dedba3f0610b4df71".
Proof. vm_compute. reflexivity. Qed.

Example json_dumps_escapes :
  json_dumps [([111], [97; 34; 92; 10; 127; 1; 233; 128512])]%N
  = [123; 34; 111; 34; 58; 32; 34; 97; 92; 34; 92; 92; 92; 110; 92; 117; 48;
     48; 55; 102; 92; 117; 48; 48; 48; 49; 92; 117; 48; 48; 101; 57; 92; 117;
     100; 56; 51; 100; 92; 117; 100; 101; 48; 48; 34; 125]%N.
Proof. vm_compute. reflexivity. Qed.

Example json_dumps_compact_escapes :
  json_dumps_compact
    [([111], [97; 34; 92; 10; 127; 1; 233; 128512]); ([107], [])]%N
  = [123; 34; 111; 34; 58; 34; 97; 92; 34; 92; 92; 92; 110; 127; 92; 117; 48;
     48; 48; 49; 233; 128512; 34; 44; 34; 107; 34; 58; 34; 34; 125]%N.
Proof. vm_compute. reflexivity. Qed.

Example json_dumps_alice :
  length (json_dumps (Backend.items Scenario.alice)) = 150 /\
  (b ← encode (json_dumps (Backend.items Scenario.alice)); Ok (sha256_hexdigest b))
  = Ok (text_of_string
          "c0db95195d96783c03b207934f95967a5c36c788a1837de60429c652eb0f78c5").
Proof. split; vm_compute; reflexivity. Qed.

Example encode_utf8 :
  encode [233; 128512; 2048]%N = Ok [195; 169; 240; 159; 152; 128; 224; 160; 128]%N
  /\ encode [55296%N] = Raise UnicodeEncodeError.
Proof. split; reflexivity. Qed.

Example metadata_uri :
  Backend.metadata_to_data_uri
    [(text_of_string "name", text_of_string "WatermarkedArt - Alice");
     (text_of_string "description", text_of_string "x")]
  = Ok (text_of_string
          "data:application/json;base64,eyJuYW1lIjoiV2F0ZXJtYXJrZWRBcnQgLSBBbGljZSIsImRlc2NyaXB0aW9uIjoieCJ9").
Proof. vm_compute. reflexivity. Qed.

Example format_08b_values :
  format_08b 65 = [false; true; false; false; false; false; false; true] /\
  format_08b 0 = replicate 8 false /\
  format_08b 256 = [true; false; false; false; false; false; false; false; false].
Proof. repeat split. Qed.

(** The scenario of the spec on the store: the record is embedded into a
    copy, the uploaded image keeps its samples. *)
Example objects_embed_alice :
  let run := Objects.embed_watermark 0 (json_dumps (Backend.items Scenario.alice))
               {[ 0 := replicate 3000 0%Z ]} in
  run.1 = Ok 3 /\ run.2 !! 0 = Some (replicate 3000 0%Z) /\
  run.2 !! 3 = Some Scenario.alice_img.
Proof. vm_compute. repeat split. Qed.

(** * Further properties of the code *)

(** ** The codec of the desktop tool and of the back end *)

Lemma gui_embed_watermark_fits img p :
  length (str_to_bin p) + 16 <= length img ->
  Gui.embed_watermark img p = Ok (embed_bits (str_to_bin p ++ EOF) img).
Proof.
  intros H. unfold Gui.embed_watermark, Gui.str_to_bin.
  rewrite decide_False by (rewrite length_app, EOF_length; unfold gt; lia).
  apply embed_loop. rewrite length_app, EOF_length. lia.
Qed.

Lemma gui_embed_watermark_too_large img p :
  length img < length (str_to_bin p) + 16 ->
  Gui.embed_watermark img p
  = Raise (ValueError "Watermark data too large for this image.").
Proof.
  intros H. unfold Gui.embed_watermark, Gui.str_to_bin.
  rewrite decide_True; [reflexivity|].
  rewrite length_app, EOF_length. unfold gt. lia.
Qed.

(** The digits of the whole output of an embedding of ASCII text decode
    to the text. *)
Lemma decode_embedded B p :
  ascii p -> nbits p <= length B ->
  decode (map lsb (embed_bits (str_to_bin p ++ EOF) B)) = Some p.
Proof.
  intros Hp HB. unfold nbits in HB.
  pose proof (str_to_bin_length p (ascii_latin1 p Hp)) as Hl.
  rewrite lsb_embed_output by lia.
  set (L := str_to_bin p ++ EOF ++ _).
  rewrite <- (firstn_all L). unfold L.
  rewrite (decode_capped _ _ (length p) _ (str_to_bin_heads_zero p Hp) Hl).
  rewrite decide_True by (rewrite !length_app, EOF_length; lia).
  rewrite bin_to_str_str_to_bin by (apply ascii_latin1, Hp). reflexivity.
Qed.

(** X1. The desktop tool's round trip has no bound on the payload: for
    every ASCII text [p] and every buffer with
    [len(B) >= 8*len(p) + 16], its [extract_watermark] returns [p] from
    what its [embed_watermark] made of [B]. *)
Theorem gui_roundtrip (B : list Z) (p : text) :
  ascii p -> nbits p <= length B ->
  (B' ← Gui.embed_watermark B p; Gui.extract_watermark B') = Ok (Some p).
Proof.
  intros Hp HB.
  pose proof (str_to_bin_length p (ascii_latin1 p Hp)) as Hl.
  rewrite gui_embed_watermark_fits by (unfold nbits in HB; lia).
  rewrite bind_Ok, gui_extract_watermark_closed, decode_embedded by assumption.
  reflexivity.
Qed.

Lemma gui_roundtrip_witness :
  (B' ← Gui.embed_watermark Scenario.long_img Scenario.long_payload;
   Gui.extract_watermark B') = Ok (Some Scenario.long_payload).
Proof.
  apply gui_roundtrip; [apply long_payload_ascii|].
  unfold Scenario.long_img. rewrite length_replicate. lia.
Defined.

(** X2. The two tools write the same images: on every buffer and text
    the embedding of the desktop tool succeeds exactly when the back end's
    does, with the same result. So the back end reads what the desktop tool
    embedded when the marker ends within the scanned prefix, and the
    desktop tool reads whatever the back end embedded. *)
Theorem tools_are_interchangeable (B : list Z) (p : text) :
  (forall B', Gui.embed_watermark B p = Ok B' <-> embed_watermark B p = Ok B') /\
  (ascii p -> nbits p <= length B -> nbits p <= pixel_check_cap ->
   (B' ← Gui.embed_watermark B p; extract_watermark B') = Ok (Some p)) /\
  (ascii p -> nbits p <= length B ->
   (B' ← embed_watermark B p; Gui.extract_watermark B') = Ok (Some p)).
Proof.
  split; [|split].
  - intros B'. destruct (decide (length (str_to_bin p) + 16 <= length B)).
    + rewrite gui_embed_watermark_fits, embed_watermark_fits by assumption.
      reflexivity.
    + rewrite gui_embed_watermark_too_large, embed_watermark_too_large by lia.
      split; discriminate.
  - intros Hp HB Hcap.
    pose proof (str_to_bin_length p (ascii_latin1 p Hp)) as Hl.
    pose proof (extract_embedded B p Hp HB) as H.
    unfold nbits in HB.
    rewrite embed_watermark_fits in H by lia.
    rewrite gui_embed_watermark_fits by lia.
    rewrite H, decide_True by exact Hcap. reflexivity.
  - intros Hp HB.
    pose proof (str_to_bin_length p (ascii_latin1 p Hp)) as Hl.
    rewrite embed_watermark_fits by (unfold nbits in HB; lia).
    rewrite bind_Ok, gui_extract_watermark_closed, decode_embedded by assumption.
    reflexivity.
Qed.

Lemma tools_are_interchangeable_witness :
  (B' ← Gui.embed_watermark Scenario.small_img Scenario.hi; extract_watermark B')
  = Ok (Some Scenario.hi) /\
  (B' ← embed_watermark Scenario.long_img Scenario.long_payload;
   Gui.extract_watermark B') = Ok (Some Scenario.long_payload).
Proof.
  split.
  - apply (proj1 (proj2 (tools_are_interchangeable Scenario.small_img Scenario.hi))).
    + repeat constructor.
    + vm_compute. lia.
    + unfold pixel_check_cap, nbits. simpl length. lia.
  - apply (proj2 (proj2 (tools_are_interchangeable Scenario.long_img
                           Scenario.long_payload))).
    + apply long_payload_ascii.
    + unfold Scenario.long_img. rewrite length_replicate. lia.
Defined.

Lemma set_lsb_idempotent x d : set_lsb (set_lsb x d) d = set_lsb x d.
Proof.
  unfold set_lsb. apply Z.bits_inj'. intros n Hn.
  rewrite !Z.lor_spec, !Z.land_spec, !Z.lor_spec, !Z.land_spec.
  destruct (Z.testbit x n), (Z.testbit 254 n), (Z.testbit (int_digit d) n);
    reflexivity.
Qed.

(** X3. A successful embedding of a text into a buffer of bytes returns
    a buffer of bytes of the same length; and embedding the same text into
    the result changes nothing. *)
Theorem embed_keeps_bytes (B B' : list Z) (p : text) :
  embed_watermark B p = Ok B' ->
  length B' = length B /\
  (Forall is_byte B -> Forall is_byte B') /\
  embed_watermark B' p = Ok B'.
Proof.
  intros H. apply embed_watermark_Ok_inv in H as [Hfit ->].
  assert (Hdata : length (str_to_bin p ++ EOF) <= length B)
    by (rewrite length_app, EOF_length; lia).
  split; [apply embed_bits_length, Hdata|]. split.
  - intros HB. apply Forall_lookup_2. intros i y Hy.
    rewrite embed_bits_lookup in Hy by exact Hdata.
    destruct ((str_to_bin p ++ EOF) !! i) as [d|].
    + destruct (B !! i) as [x|] eqn:Hx; [|discriminate].
      injection Hy as <-. apply set_lsb_byte.
      exact (Forall_lookup_1 _ _ _ _ HB Hx).
    + exact (Forall_lookup_1 _ _ _ _ HB Hy).
  - rewrite embed_watermark_fits by (rewrite embed_bits_length; lia).
    f_equal. apply list_eq. intros i.
    rewrite embed_bits_lookup by (rewrite embed_bits_length; lia).
    rewrite (embed_bits_lookup _ B) by exact Hdata.
    destruct ((str_to_bin p ++ EOF) !! i) as [d|]; [|reflexivity].
    destruct (B !! i) as [x|]; [|reflexivity].
    simpl. rewrite set_lsb_idempotent. reflexivity.
Qed.

Lemma embed_keeps_bytes_witness :
  length Scenario.small_marked = length Scenario.small_img /\
  embed_watermark Scenario.small_marked Scenario.hi = Ok Scenario.small_marked.
Proof.
  assert (H : embed_watermark Scenario.small_img Scenario.hi
              = Ok Scenario.small_marked) by (vm_compute; reflexivity).
  split.
  - exact (proj1 (embed_keeps_bytes _ _ _ H)).
  - exact (proj2 (proj2 (embed_keeps_bytes _ _ _ H))).
Defined.

Lemma int2_below_256 g : length g = 8 -> (int2 g < 256)%N.
Proof.
  intros Hg. destruct (list_of_length_8 g Hg)
    as (b7 & b6 & b5 & b4 & b3 & b2 & b1 & b0 & ->).
  rewrite int2_byte. unfold byte_value.
  destruct b7, b6, b5, b4, b3, b2, b1, b0; simpl; lia.
Qed.

(** Whatever [bin_to_str] returns is Latin-1 text. *)
Lemma bin_to_str_latin1 b : latin1 (bin_to_str b).
Proof.
  rewrite bin_to_str_closed. apply Forall_forall. intros c Hc.
  apply list_elem_of_In, in_map_iff in Hc as (k & <- & Hk).
  apply in_seq in Hk. unfold chr. apply int2_below_256.
  unfold slice. rewrite length_take, length_drop.
  pose proof (Nat.div_mod_eq (length b) 8). lia.
Qed.

(** X4. [bin_to_str] inverts [str_to_bin] on the texts whose characters
    are all below 256, and on no other text. *)
Theorem bin_to_str_inverts_latin1_only (s : text) :
  bin_to_str (str_to_bin s) = s <-> latin1 s.
Proof.
  split.
  - intros H. rewrite <- H. apply bin_to_str_latin1.
  - apply bin_to_str_str_to_bin.
Qed.

Lemma bin_to_str_inverts_latin1_only_witness :
  bin_to_str (str_to_bin Scenario2.marker_text) = Scenario2.marker_text.
Proof.
  apply (proj2 (bin_to_str_inverts_latin1_only Scenario2.marker_text)).
  repeat constructor.
Defined.

Lemma decode_Some_inv bits_str t :
  decode bits_str = Some t ->
  exists k, find bits_str EOF = Z.of_nat k /\ k + 16 <= length bits_str /\
            t = bin_to_str (take k bits_str).
Proof.
  unfold decode. intros H.
  destruct (find_cases bits_str EOF) as [Hn|[k Hk]].
  - rewrite Hn, decide_True in H by reflexivity. discriminate.
  - rewrite Hk, decide_False in H by lia. injection H as <-.
    exists k. split; [exact Hk|]. apply find_some_inv in Hk as [Ho _].
    apply occurs_at_length in Ho; [|rewrite EOF_length; lia].
    rewrite EOF_length in Ho. split; [exact Ho|].
    rewrite Nat2Z.id, slice_from_0. reflexivity.
Qed.

(** X5. A text that [extract_watermark] returns is Latin-1 and short
    enough to have been embedded, marker included, within the scanned
    prefix of the buffer: [8*len(t) + 16 <= min(len(B), 4096*8*3)]. *)
Theorem extracted_text_bounds (B : list Z) (t : text) :
  extract_watermark B = Ok (Some t) ->
  latin1 t /\ nbits t <= pixel_check_cap /\ nbits t <= length B.
Proof.
  rewrite extract_watermark_closed. intros H. injection H as H.
  apply decode_Some_inv in H as (k & _ & Hk & ->).
  rewrite length_map, length_take in Hk.
  split; [apply bin_to_str_latin1|].
  unfold nbits. rewrite bin_to_str_length, length_take, length_map, length_take.
  pose proof (Nat.div_mod_eq (Nat.min k (Nat.min pixel_check_cap (length B))) 8).
  lia.
Qed.

Lemma extracted_text_bounds_witness :
  latin1 Scenario.hi /\ nbits Scenario.hi <= pixel_check_cap /\
  nbits Scenario.hi <= length Scenario.small_marked.
Proof.
  apply (extracted_text_bounds Scenario.small_marked Scenario.hi).
  vm_compute. reflexivity.
Defined.

Lemma str_to_bin_take p m :
  latin1 p -> take (8 * m) (str_to_bin p) = str_to_bin (take m p).
Proof.
  intros Hp. revert m. induction Hp as [|c p Hc _ IH]; intros m.
  - rewrite take_nil. change (str_to_bin []) with (@nil bool). apply take_nil.
  - destruct m as [|m]; [reflexivity|].
    destruct (format_08b_latin1 c Hc) as [Hl _].
    cbn [take]. rewrite !str_to_bin_cons.
    replace (8 * S m) with (length (format_08b c) + 8 * m) by lia.
    rewrite take_app_add, IH. reflexivity.
Qed.

(** X6. The first marker wins. After a successful embedding of a Latin-1
    text [p], the back end extracts nothing or a prefix of [p], never
    other text: a payload whose own digits hold the marker is cut there. *)
Theorem extract_stops_at_first_marker (B B' : list Z) (p : text) :
  latin1 p -> embed_watermark B p = Ok B' ->
  extract_watermark B' = Ok None \/
  exists m, extract_watermark B' = Ok (Some (take m p)).
Proof.
  intros Hp HB. apply embed_watermark_Ok_inv in HB as [Hfit ->].
  pose proof (str_to_bin_length p Hp) as Hl.
  rewrite extract_watermark_closed, <- firstn_map, lsb_embed_output by exact Hfit.
  set (L := str_to_bin p ++ EOF ++ _).
  destruct (decode (take pixel_check_cap L)) as [t|] eqn:Hdec; [|left; reflexivity].
  right. apply decode_Some_inv in Hdec as (k & Hfind & Hk & ->).
  rewrite length_take in Hk.
  apply find_some_inv in Hfind as [Ho Hmin].
  assert (Hle : k <= length (str_to_bin p)).
  { destruct (decide (length (str_to_bin p) + 16 <= pixel_check_cap)) as [Hc|Hc];
      [|lia].
    destruct (decide (k <= length (str_to_bin p))) as [|Hgt]; [assumption|].
    exfalso. apply (Hmin (length (str_to_bin p))); [lia|].
    apply occurs_at_take; [rewrite EOF_length; lia | apply sentinel_occurs]. }
  exists (k / 8). f_equal. f_equal.
  rewrite take_take, Nat.min_l by lia. unfold L.
  rewrite take_app_le by exact Hle.
  rewrite bin_to_str_truncate, length_take, Nat.min_l by exact Hle.
  rewrite take_take, Nat.min_l
    by (pose proof (Nat.div_mod_eq k 8); lia).
  rewrite str_to_bin_take by exact Hp.
  apply bin_to_str_str_to_bin. apply Forall_take, Hp.
Qed.

Lemma extract_stops_at_first_marker_witness :
  extract_watermark
    (embed_bits (str_to_bin Scenario2.marker_text ++ EOF) Scenario2.img48)
  = Ok (Some []).
Proof.
  destruct (extract_stops_at_first_marker Scenario2.img48
              (embed_bits (str_to_bin Scenario2.marker_text ++ EOF) Scenario2.img48)
              Scenario2.marker_text) as [H|[m H]].
  - repeat constructor.
  - vm_compute. reflexivity.
  - exfalso. revert H. vm_compute. discriminate.
  - rewrite H. revert H. vm_compute. intros H. injection H as H.
    destruct m; [reflexivity | discriminate].
Defined.

(** ** Validation *)

Section Validation.

Import Backend.

(** X7. [validate_embed_inputs] reports every failed check, not the
    first one only: each of its four messages is in the list exactly when
    its check fails, and the list is empty exactly when a file is uploaded,
    owner and passkey are not empty and the passkey equals its
    confirmation. *)
Theorem validate_embed_inputs_collects (owner passkey confirm_passkey : text)
  (uploaded_file : option upload) :
  let errors := validate_embed_inputs owner passkey confirm_passkey uploaded_file in
  ("Please upload an image first."%string ∈ errors <-> uploaded_file = None) /\
  ("Owner field is required."%string ∈ errors <-> owner = []) /\
  ("Passkey is required for security."%string ∈ errors <-> passkey = []) /\
  ("Passkeys do not match."%string ∈ errors <-> passkey <> confirm_passkey) /\
  (errors = [] <-> is_Some uploaded_file /\ owner <> [] /\ passkey <> [] /\
                   passkey = confirm_passkey).
Proof.
  intros errors.
  split; [|split; [|split; [|split; [|apply validate_embed_inputs_nil]]]];
    subst errors; unfold validate_embed_inputs;
    destruct uploaded_file as [u|], owner as [|o os], passkey as [|k ks];
    simpl; case_bool_decide; simpl;
    rewrite ?elem_of_cons, ?elem_of_nil;
    (split; [intros Hm | intros Hm]);
    repeat match goal with
           | Hd : _ \/ _ |- _ => destruct Hd as [Hd|Hd]
           end;
    try discriminate; try contradiction; try tauto; try congruence.
Qed.

Lemma validate_embed_inputs_collects_witness :
  validate_embed_inputs [] [] [97%N] None
  = ["Please upload an image first."%string; "Owner field is required."%string;
     "Passkey is required for security."%string; "Passkeys do not match."%string]
  /\ ("Passkeys do not match."%string
      ∈ validate_embed_inputs [] [] [97%N] None).
Proof.
  split; [reflexivity|].
  apply (proj2 (proj1 (proj2 (proj2 (proj2
           (validate_embed_inputs_collects [] [] [97%N] None)))))).
  discriminate.
Defined.

End Validation.

(** ** Passkeys *)

Lemma concat_map_length {A B} (f : A -> list B) (l : list A) n :
  (forall a, length (f a) = n) -> length (concat (map f l)) = n * length l.
Proof.
  intros Hf. induction l as [|a l IH]; simpl; [lia|].
  rewrite length_app, Hf, IH. lia.
Qed.

Lemma be_bytes_length k n : length (be_bytes k n) = k.
Proof.
  revert n. induction k as [|k IH]; intros n; [reflexivity|].
  simpl. rewrite length_app, IH. simpl. lia.
Qed.

Lemma sha_round_length st kw : length st = 8 -> length (sha_round st kw) = 8.
Proof.
  intros H. do 8 (destruct st as [|? st]; [discriminate|]).
  destruct st; [reflexivity | discriminate].
Qed.

Lemma sha_compress_length h block : length h = 8 -> length (sha_compress h block) = 8.
Proof.
  intros H. unfold sha_compress. rewrite length_zip_with, H.
  assert (Hr : forall l st, length st = 8 -> length (fold_left sha_round l st) = 8).
  { induction l as [|kw l IH]; intros st Hst; [exact Hst|].
    simpl. apply IH, sha_round_length, Hst. }
  rewrite Hr by exact H. reflexivity.
Qed.

Lemma sha256_words_length msg : length (sha256_words msg) = 8.
Proof.
  unfold sha256_words.
  generalize (groups 64 (length (sha_pad msg) / 64) (sha_pad msg)).
  assert (H0 : length sha_H0 = 8) by reflexivity. revert H0.
  generalize sha_H0. intros h Hh l. revert h Hh.
  induction l as [|b l IH]; intros h Hh; [exact Hh|].
  simpl. apply IH, sha_compress_length, Hh.
Qed.

(** A digest is written on 64 characters. *)
Lemma sha256_hexdigest_length msg : length (sha256_hexdigest msg) = 64.
Proof.
  unfold sha256_hexdigest.
  rewrite (concat_map_length _ _ 8), sha256_words_length; [reflexivity|].
  intros w. rewrite (concat_map_length _ _ 2), be_bytes_length; reflexivity.
Qed.

Section Passkeys.

Import Backend Records.

Lemma record_dict_passkey_hash data :
  get (record_dict data) "passkey_hash" = PStr (d_passkey_hash data).
Proof. unfold get, record_dict. rewrite lookup_insert_eq. reflexivity. Qed.

Lemma created_hash owner buyer datetime_str passkey data :
  create_watermark_data owner buyer datetime_str passkey = Ok data ->
  exists pk, encode passkey = Ok pk /\ d_passkey_hash data = sha256_hexdigest pk.
Proof.
  unfold create_watermark_data. intros H.
  destruct (encode passkey) as [pk|e]; [|discriminate].
  rewrite bind_Ok in H. injection H as <-. eauto.
Qed.

Lemma str_truthy_length s : 0 < length s -> str_truthy s = true.
Proof. destruct s; simpl; [lia | reflexivity]. Qed.

(** X8. Every record the back end creates is passkey protected: whatever
    the passkey, [create_watermark_data] and [create_resell_data] store a
    hash of 64 characters, which the resale check finds true. *)
Theorem created_records_are_protected (now owner buyer datetime_str passkey : text)
  (data : watermark_data) :
  create_watermark_data owner buyer datetime_str passkey = Ok data \/
  create_resell_data now owner buyer passkey = Ok data ->
  length (d_passkey_hash data) = 64 /\
  truthy (get (record_dict data) "passkey_hash") = true.
Proof.
  intros H.
  assert (Hh : exists pk, d_passkey_hash data = sha256_hexdigest pk).
  { destruct H as [H|H].
    - destruct (created_hash _ _ _ _ _ H) as (pk & _ & Hpk). eauto.
    - unfold create_resell_data in H.
      destruct (encode passkey) as [pk|e]; [|discriminate].
      rewrite bind_Ok in H. injection H as <-. eauto. }
  destruct Hh as [pk Hpk].
  split; [rewrite Hpk; apply sha256_hexdigest_length|].
  rewrite record_dict_passkey_hash. simpl.
  apply str_truthy_length. rewrite Hpk, sha256_hexdigest_length. lia.
Qed.

Lemma created_records_are_protected_witness :
  length (d_passkey_hash Scenario.alice) = 64 /\
  truthy (get (record_dict Scenario.alice) "passkey_hash") = true.
Proof.
  apply (created_records_are_protected [] (text_of_string "Alice") []
           (text_of_string "2024-01-01 00:00:00") (text_of_string "pk123")).
  left. reflexivity.
Defined.

(** X9. The passkey that created a record opens it. For a record made by
    [create_watermark_data] with a non-empty passkey,
    [verify_resell_passkey] with the same passkey returns [(True, None)]
    after one call of [verify_passkey]; with another non-empty passkey it
    succeeds if the two digests are equal and answers
    "Invalid passkey. Cannot resell this image." otherwise. *)
Theorem passkey_roundtrip (svc : WatermarkService)
  (owner buyer datetime_str passkey : text) (data : watermark_data) :
  create_watermark_data owner buyer datetime_str passkey = Ok data ->
  passkey <> [] ->
  verify_resell_passkey svc passkey (record_dict data)
  = ([ValidatePasskeyVerification passkey;
      VerifyPasskey passkey (PStr (d_passkey_hash data))], Ok (true, None)) /\
  forall other ob,
    other <> [] -> encode other = Ok ob ->
    verify_resell_passkey svc other (record_dict data)
    = ([ValidatePasskeyVerification other;
        VerifyPasskey other (PStr (d_passkey_hash data))],
       Ok (if decide (sha256_hexdigest ob = d_passkey_hash data)
           then (true, None)
           else (false, Some "Invalid passkey. Cannot resell this image."%string))).
Proof.
  intros Hc Hp. destruct (created_hash _ _ _ _ _ Hc) as (pk & Hpk & Hh).
  assert (Ht : truthy (get (record_dict data) "passkey_hash") = true).
  { rewrite record_dict_passkey_hash. simpl. apply str_truthy_length.
    rewrite Hh, sha256_hexdigest_length. lia. }
  assert (Hgen : forall other ob,
    other <> [] -> encode other = Ok ob ->
    verify_resell_passkey svc other (record_dict data)
    = ([ValidatePasskeyVerification other;
        VerifyPasskey other (PStr (d_passkey_hash data))],
       Ok (if decide (sha256_hexdigest ob = d_passkey_hash data)
           then (true, None)
           else (false, Some "Invalid passkey. Cannot resell this image."%string)))).
  { intros other ob Ho Hob. unfold verify_resell_passkey,
      validate_passkey_verification.
    destruct other as [|c cs]; [contradiction|]. cbn [str_truthy negb].
    rewrite Ht. cbn [negb]. rewrite record_dict_passkey_hash.
    unfold verify_passkey. rewrite Hob, bind_Ok. unfold str_eq.
    destruct (decide (sha256_hexdigest ob = d_passkey_hash data)) as [He|He].
    - rewrite bool_decide_eq_true_2 by exact He. reflexivity.
    - rewrite bool_decide_eq_false_2 by exact He. reflexivity. }
  split; [|exact Hgen].
  rewrite (Hgen passkey pk Hp Hpk), decide_True by (symmetry; exact Hh).
  reflexivity.
Qed.

Lemma passkey_roundtrip_witness :
  verify_resell_passkey Scenario.offline (text_of_string "pk123")
    (record_dict Scenario.alice)
  = ([ValidatePasskeyVerification (text_of_string "pk123");
      VerifyPasskey (text_of_string "pk123") (PStr (d_passkey_hash Scenario.alice))],
     Ok (true, None)).
Proof.
  apply (proj1 (passkey_roundtrip Scenario.offline (text_of_string "Alice") []
                  (text_of_string "2024-01-01 00:00:00") (text_of_string "pk123")
                  Scenario.alice eq_refl ltac:(discriminate))).
Defined.

Example wrong_passkey_is_refused :
  verify_resell_passkey Scenario.offline (text_of_string "secret2")
    (record_dict Scenario.alice)
  = ([ValidatePasskeyVerification (text_of_string "secret2");
      VerifyPasskey (text_of_string "secret2") (PStr (d_passkey_hash Scenario.alice))],
     Ok (false, Some "Invalid passkey. Cannot resell this image."%string)).
Proof. vm_compute. reflexivity. Qed.

End Passkeys.

(** ** The service: embedding and the ledger, failures, resale *)

Section Service.

Import Backend.

Lemma embed_watermark_try_image svc svc' uploaded_file owner buyer passkey datetime_str :
  match embed_watermark_try svc uploaded_file owner buyer passkey datetime_str,
        embed_watermark_try svc' uploaded_file owner buyer passkey datetime_str with
  | Ok (W, _), Ok (W', _) => W = W'
  | Raise e, Raise e' => e = e'
  | _, _ => False
  end.
Proof.
  unfold embed_watermark_try.
  destruct (load_image uploaded_file) as [image|e]; [|reflexivity].
  rewrite !bind_Ok.
  destruct (create_watermark_data owner buyer datetime_str passkey) as [data|e];
    [|reflexivity].
  rewrite !bind_Ok.
  destruct (WatermarkProcessor.embed_watermark image (json_dumps (items data)))
    as [W|e]; [|reflexivity].
  rewrite !bind_Ok.
  destruct (encode (json_dumps_compact (items data))) as [hb|e]; [|reflexivity].
  rewrite !bind_Ok.
  match goal with
  | |- context [metadata_to_data_uri ?md] =>
      destruct (metadata_to_data_uri md) as [uri|e]; [|reflexivity]
  end.
  rewrite !bind_Ok. reflexivity.
Qed.

(** X10. The ledger never decides about the image. Whatever blockchain
    client the service holds, none or one whose [mint_nft] raises,
    [WatermarkService.embed_watermark] returns the same image on the same
    inputs, and when it returns no image it returns the same errors. *)
Theorem embed_is_independent_of_the_ledger (svc svc' : WatermarkService)
  (uploaded_file : option upload)
  (owner buyer passkey confirm_passkey datetime_str : text) :
  let r := Backend.embed_watermark svc uploaded_file owner buyer passkey
             confirm_passkey datetime_str in
  let r' := Backend.embed_watermark svc' uploaded_file owner buyer passkey
              confirm_passkey datetime_str in
  r.1 = r'.1 /\ (r.1 = None -> r = r').
Proof.
  intros r r'. subst r r'. unfold Backend.embed_watermark.
  destruct (validate_embed_inputs owner passkey confirm_passkey uploaded_file);
    [|split; reflexivity].
  pose proof (embed_watermark_try_image svc svc' uploaded_file owner buyer
                passkey datetime_str) as H.
  destruct (embed_watermark_try svc _ _ _ _ _) as [[W c]|e],
           (embed_watermark_try svc' _ _ _ _ _) as [[W' c']|e'];
    try contradiction; subst; simpl; split; try reflexivity; discriminate.
Qed.

Example mint_failure_is_reported_beside_the_image :
  exists W,
    Backend.embed_watermark Scenario3.failing_node (Some (Ok Scenario.alice_img))
      Scenario.bob_owner [] Scenario.bob_passkey Scenario.bob_passkey
      Scenario.bob_datetime
    = (Some W,
       Chain (Some (MintError
                      (RuntimeError "Contract not deployed or loaded. Call compile_and_deploy() first.")))) /\
    Backend.embed_watermark Scenario.offline (Some (Ok Scenario.alice_img))
      Scenario.bob_owner [] Scenario.bob_passkey Scenario.bob_passkey
      Scenario.bob_datetime = (Some W, Chain None).
Proof. eexists. split; vm_compute; reflexivity. Qed.

Lemma encode_Raise s e : encode s = Raise e -> e = UnicodeEncodeError.
Proof.
  induction s as [|c s IH]; [discriminate|]. simpl.
  destruct (utf8_char c) as [u|e'] eqn:Hu.
  - rewrite bind_Ok. destruct (encode s) as [b|e'']; [discriminate|].
    intros H. injection H as <-. apply IH. reflexivity.
  - intros H. injection H as <-. unfold utf8_char in Hu.
    repeat match type of Hu with
           | (if ?c then _ else _) = _ => destruct c
           end; congruence.
Qed.

(** X11. How [WatermarkService.embed_watermark] fails. It raises
    nothing: with inputs that pass the validation it returns no image and
    the single message "Failed to embed watermark: ..." with the exception,
    when the file is no image, when the passkey cannot be encoded (a lone
    surrogate), and when the serialized record needs more samples than the
    image has (the capacity error). *)
Theorem embed_failures (svc : WatermarkService) (uploaded_file : option upload)
  (owner buyer passkey datetime_str : text) :
  validate_embed_inputs owner passkey passkey uploaded_file = [] ->
  (forall e, uploaded_file = Some (Raise e) ->
     Backend.embed_watermark svc uploaded_file owner buyer passkey passkey datetime_str
     = (None, Errors [Caught "Failed to embed watermark: " e])) /\
  (forall B e, uploaded_file = Some (Ok B) -> encode passkey = Raise e ->
     Backend.embed_watermark svc uploaded_file owner buyer passkey passkey datetime_str
     = (None, Errors [Caught "Failed to embed watermark: " UnicodeEncodeError])) /\
  (forall B pk, uploaded_file = Some (Ok B) -> encode passkey = Ok pk ->
     let data := {| d_owner := owner; d_buyer := buyer; d_datetime := datetime_str;
                    d_passkey_hash := sha256_hexdigest pk |} in
     length B < nbits (json_dumps (items data)) ->
     Backend.embed_watermark svc uploaded_file owner buyer passkey passkey datetime_str
     = (None, Errors [Caught "Failed to embed watermark: "
                        (ValueError "Watermark data is too large for this image.")])).
Proof.
  intros Hvalid. unfold Backend.embed_watermark. rewrite Hvalid.
  unfold embed_watermark_try. split; [|split].
  - intros e ->. reflexivity.
  - intros B e -> He. simpl load_image. rewrite bind_Ok.
    unfold create_watermark_data. rewrite He.
    rewrite (encode_Raise _ _ He). reflexivity.
  - intros B pk -> Hpk Hsmall. simpl load_image. rewrite bind_Ok.
    unfold create_watermark_data. rewrite Hpk, !bind_Ok.
    rewrite embed_watermark_too_large; [reflexivity|].
    rewrite str_to_bin_length by apply ascii_latin1, json_dumps_ascii.
    exact Hsmall.
Qed.

Lemma embed_failures_witness :
  Backend.embed_watermark Scenario.offline (Some (Ok Scenario3.img6))
    Scenario.bob_owner [] Scenario.bob_passkey Scenario.bob_passkey
    Scenario.bob_datetime
  = (None, Errors [Caught "Failed to embed watermark: "
                     (ValueError "Watermark data is too large for this image.")]).
Proof.
  apply (proj2 (proj2 (embed_failures Scenario.offline (Some (Ok Scenario3.img6))
                         Scenario.bob_owner [] Scenario.bob_passkey
                         Scenario.bob_datetime eq_refl))
           Scenario3.img6 Scenario.bob_passkey eq_refl eq_refl).
  apply Nat.ltb_lt. vm_compute. reflexivity.
Defined.

(** X12. [WatermarkService.resell_watermark] asks for no proof of
    ownership and for no owner: for every image, whatever record it holds,
    every new owner (the empty one too) and every non-empty new passkey
    equal to its confirmation that can be encoded, when the image has room
    it returns the image with the new record embedded, and that record is
    what is then extracted (when it ends within the scanned prefix). The
    old passkey is no input of it. *)
Theorem resell_overwrites (svc : WatermarkService) (now : text) (B : list Z)
  (new_owner new_buyer new_passkey pk : text) :
  new_passkey <> [] -> encode new_passkey = Ok pk ->
  let data := {| d_owner := new_owner; d_buyer := new_buyer; d_datetime := now;
                 d_passkey_hash := sha256_hexdigest pk |} in
  let payload := json_dumps (items data) in
  nbits payload <= length B ->
  exists W,
    resell_watermark svc now (Some (Ok B)) new_owner new_buyer new_passkey new_passkey
    = (Some W, None) /\
    WatermarkProcessor.embed_watermark B payload = Ok W /\
    (nbits payload <= pixel_check_cap ->
     WatermarkProcessor.extract_watermark W = Ok (Some payload)).
Proof.
  intros Hp Hpk data payload Hfit.
  assert (Hlen : length (str_to_bin payload) + 16 <= length B).
  { rewrite str_to_bin_length by apply ascii_latin1, json_dumps_ascii.
    exact Hfit. }
  exists (embed_bits (str_to_bin payload ++ EOF) B).
  split; [|split; [apply embed_watermark_fits, Hlen|]].
  - unfold resell_watermark, validate_resell_inputs.
    destruct new_passkey as [|c cs]; [contradiction|]. cbn [str_truthy negb].
    rewrite bool_decide_eq_false_2 by (intros H; apply H; reflexivity).
    cbn [app]. simpl load_image. rewrite bind_Ok.
    unfold create_resell_data. rewrite Hpk, !bind_Ok. fold data payload.
    rewrite (embed_watermark_fits B payload Hlen). reflexivity.
  - intros Hcap.
    pose proof (extract_embedded B payload (json_dumps_ascii _) Hfit) as H.
    rewrite (embed_watermark_fits B payload Hlen), bind_Ok in H.
    rewrite H, decide_True by exact Hcap. reflexivity.
Qed.

Lemma resell_overwrites_witness :
  exists W,
    resell_watermark Scenario.offline Scenario.bob_datetime
      (Some (Ok Scenario.alice_img)) [] [] Scenario.bob_passkey Scenario.bob_passkey
    = (Some W, None).
Proof.
  destruct (resell_overwrites Scenario.offline Scenario.bob_datetime
              Scenario.alice_img [] [] Scenario.bob_passkey Scenario.bob_passkey
              ltac:(discriminate) eq_refl) as (W & H & _).
  - apply Nat.leb_le. vm_compute. reflexivity.
  - exists W. exact H.
Defined.

(** X13. [resell_watermark] does not check that a file was uploaded:
    with valid passkeys and no file it gets as far as loading the image and
    answers "Failed to update watermark: ..." with the exception of
    [Image.open(None)], where [embed_watermark] answers "Please upload an
    image first."; like [embed_watermark] it raises nothing when the file
    is no image or the image is too small. *)
Theorem resell_failures (svc : WatermarkService) (now : text)
  (new_owner new_buyer new_passkey : text) :
  new_passkey <> [] ->
  resell_watermark svc now None new_owner new_buyer new_passkey new_passkey
  = (None, Some [Caught "Failed to update watermark: " AttributeError]) /\
  (forall e,
     resell_watermark svc now (Some (Raise e)) new_owner new_buyer new_passkey
       new_passkey
     = (None, Some [Caught "Failed to update watermark: " e])) /\
  (forall B pk, encode new_passkey = Ok pk ->
     let data := {| d_owner := new_owner; d_buyer := new_buyer; d_datetime := now;
                    d_passkey_hash := sha256_hexdigest pk |} in
     length B < nbits (json_dumps (items data)) ->
     resell_watermark svc now (Some (Ok B)) new_owner new_buyer new_passkey
       new_passkey
     = (None, Some [Caught "Failed to update watermark: "
                      (ValueError "Watermark data is too large for this image.")])).
Proof.
  intros Hp.
  assert (Hv : validate_resell_inputs new_owner new_passkey new_passkey = []).
  { unfold validate_resell_inputs.
    destruct new_passkey as [|c cs]; [contradiction|]. cbn [str_truthy negb].
    rewrite bool_decide_eq_false_2 by (intros H; apply H; reflexivity).
    reflexivity. }
  unfold resell_watermark. rewrite Hv. split; [reflexivity|].
  split; [reflexivity|].
  intros B pk Hpk Hsmall. simpl load_image. rewrite bind_Ok.
  unfold create_resell_data. rewrite Hpk, !bind_Ok.
  rewrite embed_watermark_too_large; [reflexivity|].
  rewrite str_to_bin_length by apply ascii_latin1, json_dumps_ascii.
  exact Hsmall.
Qed.

Lemma resell_failures_witness :
  resell_watermark Scenario.offline Scenario.bob_datetime None [] []
    Scenario.bob_passkey Scenario.bob_passkey
  = (None, Some [Caught "Failed to update watermark: " AttributeError]).
Proof.
  apply (proj1 (resell_failures Scenario.offline Scenario.bob_datetime [] []
                  Scenario.bob_passkey ltac:(discriminate))).
Defined.

End Service.

(** ** The contract *)

Section ContractProofs.

Import Contract.
Local Open Scope N_scope.

Lemma at_uint_insert (m : gmap N N) k v k' :
  at_uint (<[k := v]> m) k' = if decide (k = k') then v else at_uint m k'.
Proof.
  unfold at_uint. destruct (decide (k = k')) as [->|Hne].
  - rewrite lookup_insert_eq. reflexivity.
  - rewrite lookup_insert_ne by exact Hne. reflexivity.
Qed.

Lemma at_string_insert (m : gmap N text) k v k' :
  at_string (<[k := v]> m) k' = if decide (k = k') then v else at_string m k'.
Proof.
  unfold at_string. destruct (decide (k = k')) as [->|Hne].
  - rewrite lookup_insert_eq. reflexivity.
  - rewrite lookup_insert_ne by exact Hne. reflexivity.
Qed.

(** [mint] on a storage that satisfies the invariant, in closed form. *)
Lemma mint_closed st to tokenURI_ wmHash logs :
  contract_inv st ->
  mint to tokenURI_ wmHash st logs =
    if nextTokenId st + 1 <=? uint256_max then
      if to =? 0 then Revert "mint to zero"
      else
        let tokenId := nextTokenId st in
        Return tokenId
          {| _name := _name st; _symbol := _symbol st;
             _owners := <[tokenId := to]> (_owners st);
             _balances := <[to := at_uint (_balances st) to + 1]> (_balances st);
             _tokenURIs := <[tokenId := tokenURI_]> (_tokenURIs st);
             nextTokenId := tokenId + 1;
             watermarkHash := <[tokenId := wmHash]> (watermarkHash st) |}
          (logs ++ [Transfer 0 to tokenId] ++ [Minted tokenId to wmHash])
    else Panic 17.
Proof.
  intros (Hnext & Hown & Hbal).
  unfold mint, mbind, tx_bind, sload, checked_add.
  destruct (nextTokenId st + 1 <=? uint256_max) eqn:Hmax; [|reflexivity].
  unfold sstore, _safeMint, mbind, tx_bind, require.
  destruct (to =? 0) eqn:Hto; [reflexivity|]. cbn [negb].
  unfold sload. cbn [set_nextTokenId _owners _balances].
  assert (Hfree : at_uint (_owners st) (nextTokenId st) = 0).
  { destruct (N.eq_dec (at_uint (_owners st) (nextTokenId st)) 0) as [H|H];
      [exact H|]. apply (Hown (nextTokenId st)) in H. lia. }
  rewrite Hfree. cbn [N.eqb]. unfold checked_add.
  assert (Hb : (at_uint (_balances st) to + 1 <=? uint256_max) = true).
  { apply N.leb_le. apply N.leb_le in Hmax. specialize (Hbal to). lia. }
  change (_balances (set_nextTokenId (nextTokenId st + 1) st))
    with (_balances st).
  rewrite Hb. unfold sstore, emit, _setTokenURI, sstore, mret, tx_ret.
  cbn. rewrite <- app_assoc. reflexivity.
Qed.

Lemma mint_keeps_inv st to tokenURI_ wmHash logs tokenId st' logs' :
  contract_inv st ->
  mint to tokenURI_ wmHash st logs = Return tokenId st' logs' ->
  contract_inv st'.
Proof.
  intros Hinv. rewrite (mint_closed _ _ _ _ _ Hinv).
  destruct Hinv as (Hnext & Hown & Hbal).
  destruct (nextTokenId st + 1 <=? uint256_max); [|discriminate].
  destruct (to =? 0) eqn:Hto; [discriminate|].
  apply N.eqb_neq in Hto.
  intros H. injection H as <- <- <-.
  split; [|split]; cbn [nextTokenId _owners _balances ownerOf].
  - lia.
  - intros id. unfold ownerOf. cbn [_owners]. rewrite at_uint_insert.
    destruct (decide (nextTokenId st = id)) as [<-|Hne].
    + split; [lia|intros _; exact Hto].
    + specialize (Hown id). unfold ownerOf in Hown. rewrite Hown. lia.
  - intros a. rewrite at_uint_insert.
    destruct (decide (to = a)) as [<-|Hne].
    + specialize (Hbal to). lia.
    + specialize (Hbal a). lia.
Qed.

Lemma reachable_inv st : reachable st -> contract_inv st.
Proof.
  induction 1 as [name_ symbol_|st to uri h id st' logs _ IH Hm].
  - split; [|split].
    + cbn. lia.
    + intros id. unfold ownerOf, at_uint. cbn. rewrite lookup_empty. cbn.
      split; [intros H; contradiction|lia].
    + intros a. unfold at_uint. cbn. rewrite lookup_empty. cbn. lia.
  - exact (mint_keeps_inv _ _ _ _ _ _ _ _ IH Hm).
Qed.

(** X14. On every storage the contract can reach, [mint] reverts for the
    zero address only (and at the end of [uint256]): "already minted" is
    never the answer and no balance overflows. Otherwise it returns the
    next id, counted from 1, records the recipient as the owner of that
    token and the hash under it, and emits [Transfer] and [Minted] with
    that id. *)
Theorem mint_on_reachable (st : storage) (to : N) (tokenURI_ wmHash : text) :
  reachable st ->
  nextTokenId st < uint256_max ->
  (to = 0 -> mint to tokenURI_ wmHash st [] = Revert "mint to zero") /\
  (to <> 0 ->
   exists st',
     mint to tokenURI_ wmHash st []
     = Return (nextTokenId st) st'
         [Transfer 0 to (nextTokenId st); Minted (nextTokenId st) to wmHash] /\
     nextTokenId st' = nextTokenId st + 1 /\
     ownerOf st' (nextTokenId st) = to /\
     getWatermarkHash st' (nextTokenId st) = wmHash /\
     reachable st').
Proof.
  intros Hr Hmax. pose proof (reachable_inv _ Hr) as Hinv.
  pose proof (mint_closed st to tokenURI_ wmHash [] Hinv) as Hm.
  assert (Hle : (nextTokenId st + 1 <=? uint256_max) = true)
    by (apply N.leb_le; lia).
  rewrite Hle in Hm. split.
  - intros ->. exact Hm.
  - intros Hto. apply N.eqb_neq in Hto. rewrite Hto in Hm.
    eexists. split; [exact Hm|]. split; [reflexivity|].
    split; [|split].
    + unfold ownerOf. cbn [_owners]. rewrite at_uint_insert, decide_True;
        reflexivity.
    + unfold getWatermarkHash. cbn [watermarkHash].
      rewrite at_string_insert, decide_True; reflexivity.
    + exact (reachable_mint _ _ _ _ _ _ _ Hr Hm).
Qed.

Lemma mint_on_reachable_witness :
  exists st',
    mint 7 (text_of_string "data:,") (text_of_string "ab") Scenario4.deployed []
    = Return 1 st' [Transfer 0 7 1; Minted 1 7 (text_of_string "ab")] /\
    ownerOf st' 1 = 7.
Proof.
  destruct (mint_on_reachable Scenario4.deployed
              7 (text_of_string "data:,") (text_of_string "ab")
              (reachable_deployed _ _) eq_refl) as [_ H].
  destruct (H ltac:(discriminate)) as (st' & Hm & _ & Ho & _).
  exists st'. split; [exact Hm|exact Ho].
Defined.

Lemma later_reachable st st' : reachable st -> later st st' -> reachable st'.
Proof.
  intros Hr. induction 1 as [|st' to uri h id st'' logs _ IH Hm].
  - exact Hr.
  - exact (reachable_mint _ _ _ _ _ _ _ IH Hm).
Qed.

(** X15. A token is for ever: the contract has no function that
    transfers or burns. Once a token is given out, whatever calls follow,
    its owner, its watermark hash and its URI stay what [mint] made them;
    and the tokens that have an owner are exactly those with an id from 1
    to [nextTokenId - 1]. So a resale, which rewrites the record in the
    image, has nothing by which to change the owner on the ledger. *)
Theorem tokens_are_permanent (st st' : storage) (id : N) :
  reachable st -> later st st' ->
  (ownerOf st id <> 0 <-> 1 <= id < nextTokenId st) /\
  nextTokenId st <= nextTokenId st' /\
  (1 <= id < nextTokenId st ->
   ownerOf st' id = ownerOf st id /\
   getWatermarkHash st' id = getWatermarkHash st id /\
   at_string (_tokenURIs st') id = at_string (_tokenURIs st) id).
Proof.
  intros Hr Hl. split; [apply (reachable_inv _ Hr)|].
  induction Hl as [|st' to uri h tid st'' logs Hl IH Hm].
  - split; [lia|]. intros _. repeat split.
  - destruct IH as [Hle IH].
    pose proof (reachable_inv _ (later_reachable _ _ Hr Hl)) as Hinv.
    rewrite (mint_closed _ _ _ _ _ Hinv) in Hm.
    destruct (nextTokenId st' + 1 <=? uint256_max); [|discriminate].
    destruct (to =? 0); [discriminate|].
    injection Hm as <- <- <-. cbn [nextTokenId]. split; [lia|].
    intros Hid. destruct (IH Hid) as (Ho & Hh & Hu).
    unfold ownerOf, getWatermarkHash in *.
    cbn [_owners watermarkHash _tokenURIs].
    rewrite at_uint_insert, !at_string_insert.
    rewrite !decide_False by lia. auto.
Qed.

Lemma tokens_are_permanent_witness :
  ownerOf Scenario4.two_tokens 1 = 7 /\
  getWatermarkHash Scenario4.two_tokens 1 = text_of_string "ab".
Proof.
  assert (Hr : reachable Scenario4.one_token).
  { apply (reachable_mint Scenario4.deployed 7 (text_of_string "data:,")
             (text_of_string "ab") 1 _
             [Transfer 0 7 1; Minted 1 7 (text_of_string "ab")]
             (reachable_deployed _ _)).
    vm_compute. reflexivity. }
  assert (Hl : later Scenario4.one_token Scenario4.two_tokens).
  { apply (later_mint _ Scenario4.one_token 9 (text_of_string "data:,")
             (text_of_string "cd") 2 _
             [Transfer 0 9 2; Minted 2 9 (text_of_string "cd")]
             (later_refl _)).
    vm_compute. reflexivity. }
  destruct (tokens_are_permanent Scenario4.one_token Scenario4.two_tokens 1
              Hr Hl) as (_ & _ & H).
  destruct H as (Ho & Hh & _).
  - vm_compute. split; [discriminate|reflexivity].
  - split.
    + rewrite Ho. vm_compute. reflexivity.
    + rewrite Hh. vm_compute. reflexivity.
Defined.

End ContractProofs.

(** ** What the service sends to the ledger *)

Section LedgerCall.

Import Backend Ledger.

Lemma b64_char_ascii n : (b64_char n < 128)%N.
Proof.
  unfold b64_char.
  destruct (N.ltb_spec n 26); [lia|]. destruct (N.ltb_spec n 52); [lia|].
  destruct (N.ltb_spec n 62); [lia|]. destruct (n =? 62)%N; lia.
Qed.

Lemma b64_groups_ascii fuel b : ascii (b64_groups fuel b).
Proof.
  revert b. induction fuel as [|fuel IH]; intros b; [constructor|].
  cbn [b64_groups].
  destruct b as [|x [|y [|z b']]]; cbn [app];
    repeat first [apply Forall_nil_2
                 | apply Forall_cons_2; [first [apply b64_char_ascii | lia]|]].
  apply IH.
Qed.

(** X20. What the service sends to the ledger. With a client, valid
    inputs and room in the image, [WatermarkService.embed_watermark] calls
    [mint_nft] once: the recipient is the client's own address, neither
    the owner nor the buyer; the token URI is the data URI of the
    metadata, an ASCII text; the watermark hash is the SHA-256 digest, 64
    characters, of the compact JSON text of the very record that is
    embedded in the image. What [mint_nft] answers, a receipt or an
    exception, is returned beside the image. *)
Theorem what_is_minted (svc : WatermarkService) (bc : BlockchainClient)
  (B : list Z) (owner buyer passkey datetime_str pk : text) :
  blockchain svc = Some bc ->
  validate_embed_inputs owner passkey passkey (Some (Ok B)) = [] ->
  encodable owner -> encodable buyer -> encodable datetime_str ->
  encode passkey = Ok pk ->
  let data := {| d_owner := owner; d_buyer := buyer; d_datetime := datetime_str;
                 d_passkey_hash := sha256_hexdigest pk |} in
  nbits (json_dumps (items data)) <= length B ->
  exists W hb token_uri,
    WatermarkProcessor.embed_watermark B (json_dumps (items data)) = Ok W /\
    encode (json_dumps_compact (items data)) = Ok hb /\
    metadata_to_data_uri (metadata data (sha256_hexdigest hb)) = Ok token_uri /\
    Backend.embed_watermark svc (Some (Ok B)) owner buyer passkey passkey
      datetime_str
    = (Some W,
       Chain (Some (minted (mint_nft bc (address bc) token_uri
                              (sha256_hexdigest hb))))) /\
    ascii token_uri /\ length (sha256_hexdigest hb) = 64.
Proof.
  intros Hbc Hvalid Ho Hb Hd Hp data Hfit.
  assert (Hlit : forall s, forallb (fun c => (c <? 128)%N) (text_of_string s) = true ->
                           encodable (text_of_string s))
    by (intros s Hs; apply ascii_encodable, ascii_check, Hs).
  assert (Hh : forall m, encodable (sha256_hexdigest m))
    by (intros m; apply ascii_encodable, sha256_hexdigest_ascii).
  assert (Hlen : length (str_to_bin (json_dumps (items data))) + 16 <= length B).
  { rewrite str_to_bin_length by apply ascii_latin1, json_dumps_ascii.
    exact Hfit. }
  assert (Hdumps : forall d, Forall (fun kv => encodable kv.1 /\ encodable kv.2) d ->
                             exists b, encode (json_dumps_compact d) = Ok b).
  { intros d Hd'. apply encode_total, json_dumps_compact_all; [|exact Hd'].
    intros c Hc. lia. }
  assert (Hname : encodable (text_of_string "WatermarkedArt - " ++ owner))
    by (apply Forall_app_2; [apply Hlit; reflexivity | exact Ho]).
  destruct (Hdumps (items data)) as [hb Hhb].
  { unfold items, data. cbn [d_owner d_buyer d_datetime d_passkey_hash].
    repeat match goal with
           | |- Forall _ [] => constructor
           | |- Forall _ (_ :: _) => constructor; [split; cbn [fst snd]|]
           end;
      first [assumption | apply Hh | apply Hlit; reflexivity]. }
  destruct (Hdumps (metadata data (sha256_hexdigest hb))) as [mb Hmb].
  { unfold metadata, data. cbn [d_owner d_buyer d_datetime d_passkey_hash].
    repeat match goal with
           | |- Forall _ [] => constructor
           | |- Forall _ (_ :: _) => constructor; [split; cbn [fst snd]|]
           end;
      first [assumption | apply Hh | apply Hlit; reflexivity]. }
  exists (embed_bits (str_to_bin (json_dumps (items data)) ++ EOF) B), hb,
         (text_of_string "data:application/json;base64,"
            ++ decode_ascii (b64encode mb)).
  split; [exact (embed_watermark_fits B _ Hlen)|].
  split; [exact Hhb|].
  assert (Huri : metadata_to_data_uri (metadata data (sha256_hexdigest hb))
                 = Ok (text_of_string "data:application/json;base64,"
                         ++ decode_ascii (b64encode mb))).
  { unfold metadata_to_data_uri. rewrite Hmb, bind_Ok. reflexivity. }
  split; [exact Huri|]. split; [|split].
  - unfold Backend.embed_watermark. rewrite Hvalid.
    unfold embed_watermark_try. simpl load_image. rewrite bind_Ok.
    unfold create_watermark_data. rewrite Hp, !bind_Ok.
    fold data. rewrite (embed_watermark_fits B _ Hlen), !bind_Ok.
    rewrite Hhb, bind_Ok.
    change (metadata_to_data_uri _) with
      (metadata_to_data_uri (metadata data (sha256_hexdigest hb))).
    rewrite Huri, bind_Ok, Hbc. unfold minted.
    destruct (mint_nft bc _ _ _); reflexivity.
  - apply Forall_app_2; [apply ascii_check; reflexivity|].
    apply b64_groups_ascii.
  - apply sha256_hexdigest_length.
Qed.

Lemma what_is_minted_witness :
  exists W hb token_uri,
    encode (json_dumps_compact (items Scenario.bob)) = Ok hb /\
    Backend.embed_watermark Scenario3.failing_node (Some (Ok Scenario.alice_img))
      Scenario.bob_owner [] Scenario.bob_passkey Scenario.bob_passkey
      Scenario.bob_datetime
    = (Some W,
       Chain (Some (minted (mint_nft Scenario3.failing_client
                              (address Scenario3.failing_client) token_uri
                              (sha256_hexdigest hb))))).
Proof.
  destruct (what_is_minted Scenario3.failing_node Scenario3.failing_client
              Scenario.alice_img Scenario.bob_owner [] Scenario.bob_passkey
              Scenario.bob_datetime Scenario.bob_passkey eq_refl eq_refl)
    as (W & hb & uri & _ & H1 & _ & H2 & _).
  - apply ascii_encodable, ascii_check. reflexivity.
  - constructor.
  - apply ascii_encodable, ascii_check. reflexivity.
  - reflexivity.
  - apply Nat.leb_le. vm_compute. reflexivity.
  - exists W, hb, uri. split; [exact H1|exact H2].
Defined.

End LedgerCall.

(** ** Reading a record back *)

Section JsonScan.

Import Backend Json.

Local Ltac no_value :=
  split; [discriminate | let H := fresh in intros ? ? H; discriminate H].

Lemma skip_whitespace_length s : length (skip_whitespace s) <= length s.
Proof.
  induction s as [|c s IH]; [reflexivity|]. simpl.
  destruct (is_whitespace c); simpl; lia.
Qed.

Lemma scanstring_not_Fuel s chunks : scanstring s chunks <> Fuel.
Proof.
  remember (length s) as n eqn:Hn. revert s chunks Hn.
  induction n as [n IH] using lt_wf_ind. intros s chunks ->.
  destruct s as [|c s1]; [discriminate|]. cbn [scanstring].
  repeat case_match; try discriminate;
    (eapply IH; [|reflexivity]; subst; simpl; lia).
Qed.

Lemma scanstring_length s chunks t rest :
  scanstring s chunks = Got t rest -> length rest < length s.
Proof.
  remember (length s) as n eqn:Hn. revert s chunks Hn.
  induction n as [n IH] using lt_wf_ind. intros s chunks -> H.
  destruct s as [|c s1]; [discriminate|]. cbn [scanstring] in H.
  repeat case_match; try discriminate; simplify_eq; simpl; try lia;
    match goal with
    | H : scanstring ?s' _ = Got _ _ |- _ =>
        eapply (IH (length s')) in H; [|simpl; lia|reflexivity]; simpl in *; lia
    end.
Qed.

Lemma span_digits_length s d r : span_digits s = (d, r) -> length r <= length s.
Proof.
  revert d r. induction s as [|c s IH]; intros d r H; simpl in H.
  - injection H as <- <-. reflexivity.
  - destruct (is_digit c).
    + destruct (span_digits s) as [d' r'] eqn:Hs. injection H as <- <-.
      specialize (IH _ _ eq_refl). simpl. lia.
    + injection H as <- <-. reflexivity.
Qed.

Lemma integer_length negative digits rest v rest' :
  integer negative digits rest = Got v rest' -> rest' = rest.
Proof.
  unfold integer. intros H. repeat case_match; congruence.
Qed.

Lemma match_digits_length negative s v rest :
  match_digits negative s = Got v rest -> length rest < length s.
Proof.
  unfold match_digits. destruct s as [|c s1]; [discriminate|].
  destruct ((49 <=? c)%N && (c <=? 57)%N).
  - destruct (span_digits s1) as [d r] eqn:Hs. intros H.
    apply integer_length in H as ->. apply span_digits_length in Hs.
    simpl. lia.
  - destruct (c =? 48)%N; [|discriminate]. intros H.
    apply integer_length in H as ->. simpl. lia.
Qed.

Lemma match_digits_not_Fuel negative s : match_digits negative s <> Fuel.
Proof.
  unfold match_digits, integer. repeat case_match; discriminate.
Qed.

Lemma match_number_consumes : consumes match_number.
Proof.
  intros s. unfold match_number. destruct s as [|c s1].
  - no_value.
  - destruct (c =? 45)%N.
    + split; [apply match_digits_not_Fuel|]. intros v rest H.
      apply match_digits_length in H. simpl. lia.
    + split; [apply match_digits_not_Fuel|]. intros v rest H.
      apply match_digits_length in H. exact H.
Qed.

Lemma object_loop_consumes f :
  consumes f ->
  forall fuel rval s, length s < fuel ->
    object_loop f fuel rval s <> Fuel /\
    forall v rest, object_loop f fuel rval s = Got v rest ->
                   length rest < length s.
Proof.
  intros Hf. induction fuel as [|fuel IH]; intros rval s Hlen; [lia|].
  cbn [object_loop]. destruct s as [|c s1].
  { no_value. }
  destruct (c =? 34)%N; [|no_value].
  destruct (scanstring s1 []) as [key rest| | | |] eqn:Hkey;
    cbn [and_then]; try (no_value).
  2:{ exfalso. exact (scanstring_not_Fuel _ _ Hkey). }
  apply scanstring_length in Hkey.
  pose proof (skip_whitespace_length rest) as Hw1.
  destruct (skip_whitespace rest) as [|c2 rest2];
    [no_value|].
  destruct (c2 =? 58)%N; [|no_value].
  pose proof (skip_whitespace_length rest2) as Hw2.
  destruct (Hf (skip_whitespace rest2)) as [Hnf Hgot].
  destruct (f (skip_whitespace rest2)) as [val rest3| | | |];
    cbn [and_then]; try (no_value).
  2:{ exfalso. apply Hnf. reflexivity. }
  specialize (Hgot _ _ eq_refl).
  pose proof (skip_whitespace_length rest3) as Hw3.
  destruct (skip_whitespace rest3) as [|c3 rest4];
    [no_value|].
  simpl in *.
  destruct (c3 =? 125)%N.
  { split; [discriminate|]. intros v r [= <- <-]. lia. }
  destruct (c3 =? 44)%N; [|no_value].
  pose proof (skip_whitespace_length rest4) as Hw4.
  destruct (IH (<[key := val]> rval) (skip_whitespace rest4)) as [H1 H2]; [lia|].
  split; [exact H1|]. intros v r H. apply H2 in H. lia.
Qed.

Lemma array_loop_consumes f :
  consumes f ->
  forall fuel rval s, length s < fuel ->
    array_loop f fuel rval s <> Fuel /\
    forall v rest, array_loop f fuel rval s = Got v rest ->
                   length rest < length s.
Proof.
  intros Hf. induction fuel as [|fuel IH]; intros rval s Hlen; [lia|].
  cbn [array_loop].
  destruct (Hf s) as [Hnf Hgot].
  destruct (f s) as [val rest| | | |];
    cbn [and_then]; try (no_value).
  2:{ exfalso. apply Hnf. reflexivity. }
  specialize (Hgot _ _ eq_refl).
  pose proof (skip_whitespace_length rest) as Hw1.
  destruct (skip_whitespace rest) as [|c rest'];
    [no_value|].
  simpl in *.
  destruct (c =? 93)%N.
  { split; [discriminate|]. intros v r [= <- <-]. lia. }
  destruct (c =? 44)%N; [|no_value].
  pose proof (skip_whitespace_length rest') as Hw2.
  destruct (IH (rval ++ [val]) (skip_whitespace rest')) as [H1 H2]; [lia|].
  split; [exact H1|]. intros v r H. apply H2 in H. lia.
Qed.

Lemma parse_object_consumes f :
  consumes f ->
  forall s, parse_object f s <> Fuel /\
            forall v rest, parse_object f s = Got v rest ->
                           length rest < S (length s).
Proof.
  intros Hf s. unfold parse_object.
  pose proof (skip_whitespace_length s) as Hw.
  destruct (skip_whitespace s) as [|c rest] eqn:Hs;
    [no_value|].
  destruct (c =? 125)%N.
  - split; [discriminate|]. intros v r [= <- <-]. simpl in Hw. lia.
  - destruct (object_loop_consumes f Hf (S (length (c :: rest))) ∅ (c :: rest))
      as [H1 H2]; [lia|].
    split; [exact H1|]. intros v r H. apply H2 in H. lia.
Qed.

Lemma parse_array_consumes f :
  consumes f ->
  forall s, parse_array f s <> Fuel /\
            forall v rest, parse_array f s = Got v rest ->
                           length rest < S (length s).
Proof.
  intros Hf s. unfold parse_array.
  pose proof (skip_whitespace_length s) as Hw.
  destruct (skip_whitespace s) as [|c rest] eqn:Hs;
    [no_value|].
  destruct (c =? 93)%N.
  - split; [discriminate|]. intros v r [= <- <-]. simpl in Hw. lia.
  - destruct (array_loop_consumes f Hf (S (length (c :: rest))) [] (c :: rest))
      as [H1 H2]; [lia|].
    split; [exact H1|]. intros v r H. apply H2 in H. lia.
Qed.

(** The loops of the model have the fuel they need: scanning never ends
    for lack of it, and what it reads is not empty. *)
Lemma scan_once_fuel room : consumes (scan_once room).
Proof.
  induction room as [room IH] using lt_wf_ind. intros s.
  destruct s as [|c s1].
  { destruct room; (no_value). }
  assert (Hstep :
    scan_once room (c :: s1) =
      if (c =? 34)%N then
        and_then (scanstring s1 []) (fun str rest => Got (PStr str) rest)
      else if (c =? 123)%N then
        match room with
        | 0 => Deep
        | S room' => parse_object (scan_once room') s1
        end
      else if (c =? 91)%N then
        match room with
        | 0 => Deep
        | S room' => parse_array (scan_once room') s1
        end
      else if (c =? 110)%N && starts_with "ull" s1 then Got PNone (drop 3 s1)
      else if (c =? 116)%N && starts_with "rue" s1 then Got (PBool true) (drop 3 s1)
      else if (c =? 102)%N && starts_with "alse" s1 then Got (PBool false) (drop 4 s1)
      else if (c =? 78)%N && starts_with "aN" s1 then Outside
      else if (c =? 73)%N && starts_with "nfinity" s1 then Outside
      else if (c =? 45)%N && starts_with "Infinity" s1 then Outside
      else match_number (c :: s1)) by (destruct room; reflexivity).
  rewrite Hstep. clear Hstep.
  destruct (c =? 34)%N.
  { destruct (scanstring s1 []) as [t rest| | | |] eqn:Hs; cbn [and_then];
      try (no_value).
    - split; [discriminate|]. intros v r [= <- <-].
      apply scanstring_length in Hs. simpl. lia.
    - exfalso. exact (scanstring_not_Fuel _ _ Hs). }
  destruct (c =? 123)%N.
  { destruct room as [|room']; [no_value|].
    destruct (parse_object_consumes _ (IH room' ltac:(lia)) s1) as [H1 H2].
    split; [exact H1|]. intros v r H. apply H2 in H. simpl. lia. }
  destruct (c =? 91)%N.
  { destruct room as [|room']; [no_value|].
    destruct (parse_array_consumes _ (IH room' ltac:(lia)) s1) as [H1 H2].
    split; [exact H1|]. intros v r H. apply H2 in H. simpl. lia. }
  repeat match goal with
  | |- context [if ?b && ?d then _ else _] =>
      destruct (b && d);
        [first [no_value
               | split; [discriminate|];
                 intros v r [= <- <-]; simpl; rewrite length_drop; lia]|]
  end.
  apply match_number_consumes.
Qed.

End JsonScan.

Section JsonOutcomes.

Import Backend Json.

(** The outcome [NotModelled] of [json_loads] is that of a float or of a
    long integer literal, never that of a loop out of fuel. *)
Lemma json_loads_not_modelled room s :
  json_loads room s = NotModelled ->
  scan_once room (skip_whitespace s) = Outside.
Proof.
  unfold json_loads. destruct (bool_decide _); [discriminate|].
  pose proof (proj1 (scan_once_fuel room (skip_whitespace s))) as Hf.
  destruct (scan_once room (skip_whitespace s)) as [v rest| | | |];
    try discriminate; try reflexivity.
  - destruct (skip_whitespace rest); discriminate.
  - contradiction.
Qed.

End JsonOutcomes.

Section JsonStrings.

Import Backend Json.
Local Open Scope N_scope.

Lemma hex_value_hex_digit d : d < 16 -> hex_value (hex_digit d) = Some d.
Proof.
  intros H.
  assert (Hd : d = 0 \/ d = 1 \/ d = 2 \/ d = 3 \/ d = 4 \/ d = 5 \/ d = 6 \/
               d = 7 \/ d = 8 \/ d = 9 \/ d = 10 \/ d = 11 \/ d = 12 \/
               d = 13 \/ d = 14 \/ d = 15) by lia.
  repeat destruct Hd as [->|Hd]; try subst d; reflexivity.
Qed.

Lemma hex4_value_hex4 c :
  c < 65536 ->
  hex4_value (hex_digit (c / 4096 mod 16)) (hex_digit (c / 256 mod 16))
    (hex_digit (c / 16 mod 16)) (hex_digit (c mod 16)) = Some c.
Proof.
  intros H. unfold hex4_value.
  rewrite !hex_value_hex_digit by (apply N.mod_lt; lia).
  cbn [mbind option_bind]. f_equal.
  assert (E1 : c / 16 / 16 = c / 256) by (rewrite N.Div0.div_div; reflexivity).
  assert (E2 : c / 256 / 16 = c / 4096) by (rewrite N.Div0.div_div; reflexivity).
  pose proof (N.div_mod c 16 ltac:(lia)) as H0.
  pose proof (N.div_mod (c / 16) 16 ltac:(lia)) as H1.
  pose proof (N.div_mod (c / 256) 16 ltac:(lia)) as H2.
  rewrite E1 in H1. rewrite E2 in H2.
  assert (H3 : c / 4096 < 16) by (apply N.Div0.div_lt_upper_bound; lia).
  rewrite (N.mod_small (c / 4096) 16) by exact H3.
  lia.
Qed.

(** What [scanstring] does at a backslash-u. *)
Lemma scanstring_u h1 h2 h3 h4 s3 chunks :
  scanstring (92 :: 117 :: h1 :: h2 :: h3 :: h4 :: s3) chunks =
    match hex4_value h1 h2 h3 h4 with
    | None => Stop
    | Some c1 =>
        if is_high_surrogate c1 then
          match s3 with
          | b :: u :: g1 :: g2 :: g3 :: g4 :: s4 =>
              if (b =? 92) && (u =? 117) then
                match hex4_value g1 g2 g3 g4 with
                | None => Stop
                | Some c2 =>
                    if is_low_surrogate c2
                    then scanstring s4 (chunks ++ [join_surrogates c1 c2])
                    else scanstring s3 (chunks ++ [c1])
                end
              else scanstring s3 (chunks ++ [c1])
          | _ => scanstring s3 (chunks ++ [c1])
          end
        else scanstring s3 (chunks ++ [c1])
    end.
Proof. reflexivity. Qed.

Lemma scanstring_u_escape c tail chunks :
  c < 65536 -> is_high_surrogate c = false ->
  scanstring (u_escape c ++ tail) chunks = scanstring tail (chunks ++ [c]).
Proof.
  intros Hc Hh. unfold u_escape, hex4. cbn [app].
  rewrite scanstring_u, (hex4_value_hex4 c Hc), Hh. reflexivity.
Qed.

Lemma land_1023 x : N.land x 1023 = x mod 1024.
Proof. change 1023 with (N.ones 10). apply N.land_ones. Qed.

Lemma lor_high a b : b < 1024 -> N.lor (a * 1024) b = a * 1024 + b.
Proof.
  intros Hb.
  assert (Hland : N.land (a * 1024) b = 0).
  { apply N.bits_inj. intros i. rewrite N.land_spec, N.bits_0.
    destruct (N.lt_ge_cases i 10) as [Hi|Hi].
    - change 1024 with (2 ^ 10). rewrite N.mul_pow2_bits_low by exact Hi.
      reflexivity.
    - rewrite <- (N.mod_small b (2 ^ 10)) by exact Hb.
      rewrite N.mod_pow2_bits_high by exact Hi. apply andb_false_r. }
  rewrite (N.add_nocarry_lxor _ _ Hland). symmetry.
  apply N.lxor_lor, Hland.
Qed.

(** The surrogate pair that [json.dumps] writes for a character above
    U+FFFF, and the character that [scanstring] makes of it. *)
Lemma surrogate_pair c :
  65536 <= c < 1114112 ->
  let n := c - 65536 in
  let hi := N.lor 55296 (N.land (N.shiftr n 10) 1023) in
  let lo := N.lor 56320 (N.land n 1023) in
  hi < 65536 /\ lo < 65536 /\
  is_high_surrogate hi = true /\ is_low_surrogate lo = true /\
  join_surrogates hi lo = c.
Proof.
  intros Hc n hi lo.
  assert (Hn : n < 1048576) by (unfold n; lia).
  assert (Ha : N.land (N.shiftr n 10) 1023 = n / 1024).
  { rewrite land_1023, N.shiftr_div_pow2. change (2 ^ 10) with 1024.
    apply N.mod_small, N.Div0.div_lt_upper_bound. lia. }
  assert (Hb : N.land n 1023 = n mod 1024) by apply land_1023.
  assert (Ha' : n / 1024 < 1024) by (apply N.Div0.div_lt_upper_bound; lia).
  assert (Hb' : n mod 1024 < 1024) by (apply N.mod_lt; lia).
  assert (Hhi : hi = 55296 + n / 1024).
  { unfold hi. rewrite Ha. change 55296 with (54 * 1024).
    apply lor_high, Ha'. }
  assert (Hlo : lo = 56320 + n mod 1024).
  { unfold lo. rewrite Hb. change 56320 with (55 * 1024).
    apply lor_high, Hb'. }
  split; [lia|]. split; [lia|]. split; [|split].
  - unfold is_high_surrogate. apply andb_true_intro.
    split; apply N.leb_le; lia.
  - unfold is_low_surrogate. apply andb_true_intro.
    split; apply N.leb_le; lia.
  - unfold join_surrogates. rewrite !land_1023, N.shiftl_mul_pow2.
    change (2 ^ 10) with 1024.
    assert (H1 : hi mod 1024 = n / 1024).
    { rewrite Hhi. change 55296 with (54 * 1024).
      rewrite N.add_comm, N.Div0.mod_add. apply N.mod_small, Ha'. }
    assert (H2 : lo mod 1024 = n mod 1024).
    { rewrite Hlo. change 56320 with (55 * 1024).
      rewrite N.add_comm, N.Div0.mod_add. apply N.mod_small, Hb'. }
    rewrite H1, H2, lor_high by exact Hb'.
    pose proof (N.div_mod n 1024 ltac:(lia)). unfold n in *. lia.
Qed.

(** [scanstring] reads a character that [json.dumps] wrote. *)
Lemma scanstring_escape_ascii c tail chunks :
  c < 1114112 -> ~ (55296 <= c <= 57343) ->
  scanstring (escape_ascii c ++ tail) chunks = scanstring tail (chunks ++ [c]).
Proof.
  intros Hc Hs. unfold escape_ascii.
  destruct ((32 <=? c) && (c <=? 126) && negb (c =? 92) && negb (c =? 34))
    eqn:Hp.
  - apply andb_prop in Hp as [Hp H34]. apply andb_prop in Hp as [Hp H92].
    apply andb_prop in Hp as [H32 _]. apply negb_true_iff in H34, H92.
    apply N.leb_le in H32. cbn [app scanstring]. rewrite H34, H92.
    replace (c <=? 31) with false by (symmetry; apply N.leb_gt; lia).
    reflexivity.
  - assert (Hh : c < 65536 -> is_high_surrogate c = false).
    { intros _. unfold is_high_surrogate. apply andb_false_iff.
      rewrite !N.leb_gt. lia. }
    destruct (escape_dct c) as [e|] eqn:He.
    + unfold escape_dct in He.
      repeat match type of He with
             | (if ?c =? ?k then _ else _) = _ =>
                 destruct (N.eqb_spec c k) as [->|_];
                   [injection He as <-; reflexivity|]
             end.
      destruct (N.ltb_spec c 32); [|discriminate]. injection He as <-.
      apply scanstring_u_escape; [lia|apply Hh; lia].
    + destruct (N.ltb_spec c 65536) as [Hlt|Hge].
      * apply scanstring_u_escape; [exact Hlt|exact (Hh Hlt)].
      * destruct (surrogate_pair c ltac:(lia)) as (Hhi & Hlo & Hih & Hil & Hj).
        rewrite <- app_assoc. unfold u_escape, hex4. cbn [app].
        rewrite scanstring_u, (hex4_value_hex4 _ Hhi), Hih.
        change ((92 =? 92) && (117 =? 117)) with true. cbv iota.
        rewrite (hex4_value_hex4 _ Hlo), Hil, Hj. reflexivity.
Qed.

Lemma scanstring_escaped t tail chunks :
  is_str t ->
  scanstring (concat (map escape_ascii t) ++ 34 :: tail) chunks
  = Got (chunks ++ t) tail.
Proof.
  intros Ht. revert chunks.
  induction Ht as [|c t [Hc Hs] _ IH]; intros chunks.
  - rewrite app_nil_r. reflexivity.
  - rewrite map_cons, concat_cons, <- app_assoc.
    rewrite scanstring_escape_ascii by assumption.
    rewrite IH, <- app_assoc. reflexivity.
Qed.

(** A string that [json.dumps] wrote is read as one value. *)
Lemma scan_once_string room t tail :
  is_str t ->
  scan_once room (encode_basestring_ascii t ++ tail) = Got (PStr t) tail.
Proof.
  intros Ht. unfold encode_basestring_ascii.
  rewrite <- !app_assoc. cbn [app].
  assert (Hstep : forall s1,
    scan_once room (34 :: s1) =
      and_then (scanstring s1 []) (fun str rest => Got (PStr str) rest))
    by (intros s1; destruct room; reflexivity).
  rewrite Hstep, scanstring_escaped by exact Ht. reflexivity.
Qed.

End JsonStrings.

Section JsonRecords.

Import Backend Json.
Local Open Scope N_scope.

(** One turn of the loop of [_parse_object] on a member that
    [json.dumps] wrote, followed by something that is no white space. *)
Lemma object_loop_member room fuel rval k v rest :
  is_str k -> is_str v -> skip_whitespace rest = rest ->
  object_loop (scan_once room) (S fuel) rval
    (encode_basestring_ascii k ++ [58; 32] ++ encode_basestring_ascii v ++ rest)
  = match rest with
    | c3 :: rest4 =>
        if c3 =? 125 then Got (PDict (<[k := PStr v]> rval)) rest4
        else if c3 =? 44 then
          object_loop (scan_once room) fuel (<[k := PStr v]> rval)
            (skip_whitespace rest4)
        else Stop
    | [] => Stop
    end.
Proof.
  intros Hk Hv Hrest. cbn [object_loop].
  unfold encode_basestring_ascii at 1. rewrite <- !app_assoc. cbn [app].
  change (34 =? 34) with true. cbv iota.
  rewrite scanstring_escaped by exact Hk. cbn [and_then app].
  change (skip_whitespace (58 :: 32 :: encode_basestring_ascii v ++ rest))
    with (58 :: 32 :: encode_basestring_ascii v ++ rest).
  cbv iota. change (58 =? 58) with true. cbv iota.
  change (skip_whitespace (32 :: encode_basestring_ascii v ++ rest))
    with (skip_whitespace (encode_basestring_ascii v ++ rest)).
  assert (Hq : skip_whitespace (encode_basestring_ascii v ++ rest)
               = encode_basestring_ascii v ++ rest) by reflexivity.
  rewrite Hq, scan_once_string by exact Hv. cbn [and_then].
  rewrite Hrest. reflexivity.
Qed.

Lemma join_members_head (d : str_dict) tail :
  d <> [] ->
  skip_whitespace (join [44; 32] (map member d) ++ tail)
  = join [44; 32] (map member d) ++ tail.
Proof.
  destruct d as [|kv d]; [contradiction|]. intros _.
  destruct d as [|kv' d]; reflexivity.
Qed.

Lemma join_members_length (d : str_dict) :
  (length d <= length (join [44; 32]%N (map member d)))%nat.
Proof.
  induction d as [|kv d IH]; [reflexivity|].
  assert (Hm : (1 <= length (member kv))%nat).
  { unfold member, encode_basestring_ascii. rewrite !length_app. simpl. lia. }
  destruct d as [|kv' d]; [exact Hm|].
  change (join [44; 32] (map member (kv :: kv' :: d)))
    with (member kv ++ [44; 32] ++ join [44; 32] (map member (kv' :: d))).
  rewrite !length_app. simpl in IH |- *. lia.
Qed.

Lemma object_loop_members room (d : str_dict) :
  d <> [] ->
  Forall (fun kv => is_str kv.1 /\ is_str kv.2) d ->
  forall fuel rval tail,
    (length d <= fuel)%nat ->
    object_loop (scan_once room) fuel rval
      (join [44; 32] (map member d) ++ 125 :: tail)
    = Got (PDict (foldl (fun m kv => <[kv.1 := PStr kv.2]> m) rval d)) tail.
Proof.
  intros Hne Hd. induction Hd as [|kv d [Hk Hv] Hd IH]; [contradiction|].
  intros fuel rval tail Hfuel. destruct fuel as [|fuel]; [simpl in Hfuel; lia|].
  destruct d as [|kv' d].
  - change (join [44; 32] (map member [kv])) with (member kv).
    unfold member. rewrite <- !app_assoc.
    rewrite object_loop_member by (assumption || reflexivity).
    reflexivity.
  - change (join [44; 32] (map member (kv :: kv' :: d)))
      with (member kv ++ [44; 32] ++ join [44; 32] (map member (kv' :: d))).
    unfold member at 1. rewrite <- !app_assoc.
    rewrite object_loop_member by (assumption || reflexivity).
    cbn [app]. change (44 =? 125) with false. change (44 =? 44) with true.
    cbv iota.
    change (skip_whitespace (32 :: ?s)) with (skip_whitespace s).
    rewrite join_members_head by discriminate.
    rewrite IH; [reflexivity|discriminate|simpl in Hfuel |- *; lia].
Qed.

(** [json.loads] reads what [json.dumps] wrote of a dict of strings:
    the same keys with the same strings. *)
Lemma json_loads_json_dumps room (d : str_dict) :
  (0 < room)%nat ->
  Forall (fun kv => is_str kv.1 /\ is_str kv.2) d ->
  json_loads room (json_dumps d) = Value (PDict (dict_of d)).
Proof.
  intros Hroom Hd. destruct room as [|room]; [lia|].
  unfold json_loads, json_dumps, dumps_with.
  rewrite bool_decide_eq_false_2 by discriminate.
  cbn [app skip_whitespace is_whitespace N.eqb Pos.eqb orb].
  change (scan_once (S room) (123 :: ?s)) with (parse_object (scan_once room) s).
  unfold parse_object.
  destruct d as [|kv d].
  - reflexivity.
  -     change (map (fun kv0 : text * text =>
                   encode_basestring_ascii kv0.1 ++ [58; 32] ++
                   encode_basestring_ascii kv0.2) (kv :: d))
      with (map member (kv :: d)).
    change (join [44; 32] (map member (kv :: d)) ++ [125])
      with (join [44; 32] (map member (kv :: d)) ++ 125 :: []).
    rewrite join_members_head by discriminate.
    destruct (join [44; 32] (map member (kv :: d)) ++ [125]) as [|c s] eqn:Hs.
    { destruct d; discriminate. }
    assert (Hc : c = 34) by (destruct d; injection Hs as <- _; reflexivity).
    subst c. change (34 =? 125) with false. cbv iota.
    rewrite <- Hs.
    rewrite object_loop_members; [reflexivity|discriminate|exact Hd|].
    pose proof (join_members_length (kv :: d)) as Hlen.
    rewrite length_app. lia.
Qed.

End JsonRecords.

Section Reading.

Import Backend Frontend Records Json.

Lemma is_str_encodable s : is_str s -> encodable s.
Proof. intros H. eapply Forall_impl; [exact H|]. intros c [_ Hc]. exact Hc. Qed.

Lemma ascii_is_str s : ascii s -> is_str s.
Proof.
  intros H. eapply Forall_impl; [exact H|]. intros c Hc. simpl in Hc.
  split; lia.
Qed.

Lemma record_is_str data :
  is_str (d_owner data) -> is_str (d_buyer data) -> is_str (d_datetime data) ->
  is_str (d_passkey_hash data) ->
  Forall (fun kv => is_str kv.1 /\ is_str kv.2) (items data).
Proof.
  intros Ho Hb Hd Hh. unfold items.
  repeat (constructor;
          [split; [apply ascii_is_str, ascii_check; reflexivity|assumption]|]).
  constructor.
Qed.

Lemma truthy_insert (k : text) (v : pyval) (d : gmap text pyval) :
  truthy (PDict (<[k := v]> d)) = true.
Proof.
  cbn [truthy]. apply negb_true_iff, bool_decide_eq_false_2.
  rewrite map_size_empty_iff. apply insert_non_empty.
Qed.

(** X16. A record written by [json.dumps] is read back field by field.
    For every record whose four strings are strings without surrogates,
    in an interpreter that allows one nested call,
    [parse_watermark_data(json.dumps(data))] is the dict with the keys
    'owner', 'buyer', 'datetime' and 'passkey_hash' and the strings of the
    record under them; a record of the desktop tool is read likewise, and
    has no 'passkey_hash'. *)
Theorem record_is_read_back (room : nat) :
  0 < room ->
  (forall data,
     is_str (d_owner data) -> is_str (d_buyer data) ->
     is_str (d_datetime data) -> is_str (d_passkey_hash data) ->
     parse_watermark_data room (json_dumps (items data))
     = Value (PDict (record_dict data)) /\
     get (record_dict data) "owner" = PStr (d_owner data) /\
     get (record_dict data) "buyer" = PStr (d_buyer data) /\
     get (record_dict data) "datetime" = PStr (d_datetime data) /\
     get (record_dict data) "passkey_hash" = PStr (d_passkey_hash data)) /\
  (forall owner buyer dt,
     is_str owner -> is_str buyer -> is_str dt ->
     parse_watermark_data room (json_dumps (gui_data owner buyer dt))
     = Value (PDict (dict_of (gui_data owner buyer dt))) /\
     get (dict_of (gui_data owner buyer dt)) "owner" = PStr owner /\
     get (dict_of (gui_data owner buyer dt)) "passkey_hash" = PNone).
Proof.
  intros Hroom. split.
  - intros data Ho Hb Hd Hh. split.
    + unfold parse_watermark_data.
      rewrite (json_loads_json_dumps room (items data) Hroom)
        by (apply record_is_str; assumption).
      reflexivity.
    + split; [|split; [|split]]; reflexivity.
  - intros owner buyer dt Ho Hb Hd. split; [|split].
    + unfold parse_watermark_data.
      rewrite (json_loads_json_dumps room _ Hroom); [reflexivity|].
      unfold gui_data.
      repeat (constructor;
              [split; [apply ascii_is_str, ascii_check; reflexivity|assumption]|]).
      constructor.
    + reflexivity.
    + reflexivity.
Qed.

Lemma record_is_read_back_witness :
  parse_watermark_data 1 (json_dumps (items Scenario.alice))
  = Value (PDict (record_dict Scenario.alice)).
Proof.
  apply (proj1 (record_is_read_back 1 ltac:(lia))); apply ascii_is_str, ascii_check;
    vm_compute; reflexivity.
Defined.

(** What the service makes of an image in which [embed_watermark] put a
    JSON text of a dict of strings. *)
Lemma extract_embedded_dict room svc B (d : str_dict) :
  0 < room -> d <> [] ->
  Forall (fun kv => is_str kv.1 /\ is_str kv.2) d ->
  nbits (json_dumps d) <= length B ->
  nbits (json_dumps d) <= pixel_check_cap ->
  Json.extract_watermark room svc
    (Some (Ok (embed_bits (str_to_bin (json_dumps d) ++ EOF) B)))
  = Returns (PDict (dict_of d)) None.
Proof.
  intros Hroom Hne Hd Hfit Hcap. unfold Json.extract_watermark.
  rewrite bool_decide_eq_true_2 by (eexists; reflexivity). cbn [negb load_image].
  rewrite bind_Ok.
  pose proof (extract_embedded B (json_dumps d) (json_dumps_ascii d) Hfit) as He.
  rewrite embed_watermark_fits, bind_Ok in He
    by (rewrite str_to_bin_length by apply ascii_latin1, json_dumps_ascii;
        exact Hfit).
  rewrite He, decide_True by exact Hcap.
  assert (Hj : str_truthy (json_dumps d) = true) by reflexivity.
  rewrite Hj. unfold parse_watermark_data.
  rewrite (json_loads_json_dumps room d Hroom Hd).
  destruct d as [|kv d _] using rev_ind; [contradiction|].
  unfold dict_of. rewrite foldl_snoc, truthy_insert. reflexivity.
Qed.

End Reading.

Section ReadingService.

Import Backend Frontend Records Json.

(** X17. The service reads what it embedded. For inputs that pass the
    validation (strings without surrogates, a passkey that can be
    encoded), an image with room for the record and a record that ends
    within the scanned prefix, [WatermarkService.embed_watermark] returns
    an image from which [WatermarkService.extract_watermark] returns the
    dict of the owner, the buyer, the date and the SHA-256 digest of the
    passkey, and no error. *)
Theorem service_reads_what_it_embedded (room : nat) (svc : WatermarkService)
  (B : list Z) (owner buyer passkey datetime_str pk : text) :
  0 < room ->
  validate_embed_inputs owner passkey passkey (Some (Ok B)) = [] ->
  is_str owner -> is_str buyer -> is_str datetime_str ->
  encode passkey = Ok pk ->
  let data := {| d_owner := owner; d_buyer := buyer; d_datetime := datetime_str;
                 d_passkey_hash := sha256_hexdigest pk |} in
  nbits (json_dumps (items data)) <= length B ->
  nbits (json_dumps (items data)) <= pixel_check_cap ->
  exists W info,
    Backend.embed_watermark svc (Some (Ok B)) owner buyer passkey passkey
      datetime_str = (Some W, Chain info) /\
    Json.extract_watermark room svc (Some (Ok W))
    = Returns (PDict (record_dict data)) None.
Proof.
  intros Hroom Hv Ho Hb Hd Hpk data Hfit Hcap.
  destruct (service_embed_succeeds svc B owner buyer passkey passkey
              datetime_str pk Hv (is_str_encodable _ Ho) (is_str_encodable _ Hb)
              (is_str_encodable _ Hd) Hpk Hfit) as [info Hemb].
  eexists. exists info. split; [exact Hemb|].
  apply (extract_embedded_dict room svc B (items data) Hroom);
    [discriminate| |exact Hfit|exact Hcap].
  apply record_is_str; try assumption.
  apply ascii_is_str, sha256_hexdigest_ascii.
Qed.

Lemma service_reads_what_it_embedded_witness :
  exists W info,
    Backend.embed_watermark Scenario.offline (Some (Ok Scenario.alice_img))
      Scenario.bob_owner [] Scenario.bob_passkey Scenario.bob_passkey
      Scenario.bob_datetime = (Some W, Chain info) /\
    Json.extract_watermark 1 Scenario.offline (Some (Ok W))
    = Returns (PDict (record_dict Scenario.bob)) None.
Proof.
  apply (service_reads_what_it_embedded 1 Scenario.offline Scenario.alice_img
           Scenario.bob_owner [] Scenario.bob_passkey Scenario.bob_datetime
           Scenario.bob_passkey).
  - lia.
  - reflexivity.
  - apply ascii_is_str, ascii_check. reflexivity.
  - constructor.
  - apply ascii_is_str, ascii_check. reflexivity.
  - reflexivity.
  - apply Nat.leb_le. vm_compute. reflexivity.
  - apply Nat.leb_le. vm_compute. reflexivity.
Defined.

(** X18. A record of the desktop tool is unprotected in the web
    application. The tool embeds the owner, the buyer and the date only;
    from such an image the service extracts a dict without
    'passkey_hash', for which [verify_resell_passkey] accepts every
    non-empty passkey without calling [verify_passkey], and for which the
    page marks the resale as verified with no passkey asked. *)
Theorem desktop_records_are_unprotected (room : nat) (svc : WatermarkService)
  (B : list Z) (owner buyer dt : text) :
  0 < room -> is_str owner -> is_str buyer -> is_str dt ->
  let payload := json_dumps (gui_data owner buyer dt) in
  nbits payload <= length B -> nbits payload <= pixel_check_cap ->
  exists W d,
    Gui.embed_watermark B payload = Ok W /\
    Json.extract_watermark room svc (Some (Ok W)) = Returns (PDict d) None /\
    get d "owner" = PStr owner /\ get d "buyer" = PStr buyer /\
    get d "datetime" = PStr dt /\ get d "passkey_hash" = PNone /\
    (forall passkey, passkey <> [] ->
       verify_resell_passkey svc passkey d
       = ([ValidatePasskeyVerification passkey], Ok (true, None))) /\
    (forall ss verify_click,
       existing_watermark ss = Some (Some d) ->
       handle_resell_functionality svc ss verify_click
       = ([], Ok {| existing_watermark := Some (Some d);
                    resell_verified := Some true |})).
Proof.
  intros Hroom Ho Hb Hd payload Hfit Hcap.
  assert (Hstr : Forall (fun kv => is_str kv.1 /\ is_str kv.2)
                   (gui_data owner buyer dt)).
  { unfold gui_data.
    repeat (constructor;
            [split; [apply ascii_is_str, ascii_check; reflexivity|assumption]|]).
    constructor. }
  exists (embed_bits (str_to_bin payload ++ EOF) B),
         (dict_of (gui_data owner buyer dt)).
  split.
  { apply gui_embed_watermark_fits.
    rewrite str_to_bin_length by apply ascii_latin1, json_dumps_ascii.
    exact Hfit. }
  split.
  { apply (extract_embedded_dict room svc B _ Hroom);
      [discriminate|exact Hstr|exact Hfit|exact Hcap]. }
  do 4 (split; [reflexivity|]).
  assert (Hun : truthy (get (dict_of (gui_data owner buyer dt)) "passkey_hash")
                = false) by reflexivity.
  split.
  - intros passkey Hp. unfold verify_resell_passkey, validate_passkey_verification.
    destruct passkey as [|c cs]; [contradiction|]. cbn [str_truthy negb].
    rewrite Hun. reflexivity.
  - intros ss verify_click Hss.
    apply (handle_resell_unprotected svc ss _ verify_click Hss); [|exact Hun].
    unfold dict_of, gui_data. cbn [foldl]. apply truthy_insert.
Qed.

Lemma desktop_records_are_unprotected_witness :
  exists W d,
    Gui.embed_watermark (replicate 3000 0%Z)
      (json_dumps (gui_data (text_of_string "Alice") [] (text_of_string "2024-01-01 00:00:00")))
    = Ok W /\
    Json.extract_watermark 1 Scenario.offline (Some (Ok W)) = Returns (PDict d) None /\
    get d "passkey_hash" = PNone.
Proof.
  destruct (desktop_records_are_unprotected 1 Scenario.offline
              (replicate 3000 0%Z) (text_of_string "Alice") []
              (text_of_string "2024-01-01 00:00:00"))
    as (W & d & H1 & H2 & _ & _ & _ & H3 & _).
  - lia.
  - apply ascii_is_str, ascii_check. reflexivity.
  - constructor.
  - apply ascii_is_str, ascii_check. reflexivity.
  - apply Nat.leb_le. vm_compute. reflexivity.
  - apply Nat.leb_le. vm_compute. reflexivity.
  - exists W, d. split; [exact H1|]. split; [exact H2|exact H3].
Defined.




End ReadingService.

(** ** The model of json.loads against the values Python computes *)

Section JsonExamples.

Import Backend Json.
Local Open Scope N_scope.

(** White space, nesting, a key that comes twice: the text
    [ {'a': [1, -20, true, null], 'b': {}, 'a': 'x'} ] with double
    quotes. *)
Example loads_object :
  json_loads 2
    [32; 123; 34; 97; 34; 58; 32; 91; 49; 44; 32; 45; 50; 48; 44; 32; 116;
     114; 117; 101; 44; 32; 110; 117; 108; 108; 93; 44; 32; 34; 98; 34; 58;
     32; 123; 125; 44; 32; 34; 97; 34; 58; 32; 34; 120; 34; 125; 32]
  = Value (PDict (<[[98] := PDict ∅]> (<[[97] := PStr [120]]> ∅))).
Proof. vm_compute. reflexivity. Qed.

(** Escapes: a surrogate pair, a Latin-1 letter, a line feed and a
    slash; and a high surrogate that no low one follows. *)
Example loads_escapes :
  json_loads 2
    [34; 92; 117; 100; 56; 51; 100; 92; 117; 100; 101; 48; 48; 92; 117; 48;
     48; 101; 57; 92; 110; 92; 47; 34]
  = Value (PStr [128512; 233; 10; 47]) /\
  json_loads 2
    [34; 92; 117; 100; 56; 51; 100; 92; 117; 48; 48; 52; 49; 34]
  = Value (PStr [55357; 65]).
Proof. split; vm_compute; reflexivity. Qed.

(** What is no JSON: a comma before the closing brace, a digit after a
    zero, a tab inside a string, a byte order mark, an array left open, a
    literal cut short; [-0] is the integer 0, and of [1e] the exponent is
    not read. *)
Example loads_errors :
  json_loads 2 [123; 34; 97; 34; 58; 49; 44; 125] = JSONDecodeError /\
  json_loads 2 [48; 49] = JSONDecodeError /\
  json_loads 2 [34; 97; 9; 98; 34] = JSONDecodeError /\
  json_loads 2 [65279; 123; 125] = JSONDecodeError /\
  json_loads 2 [91; 49; 44; 50] = JSONDecodeError /\
  json_loads 2 [110; 117; 108] = JSONDecodeError /\
  json_loads 2 [49; 101] = JSONDecodeError /\
  json_loads 2 [45; 48] = Value (PInt 0).
Proof. repeat split; vm_compute; reflexivity. Qed.

(** A float is outside the model; three arrays in one another need room
    for three calls. *)
Example loads_limits :
  json_loads 2 [91; 49; 46; 53; 93] = NotModelled /\
  json_loads 2 [91; 91; 91; 93; 93; 93] = RecursionError /\
  json_loads 3 [91; 91; 91; 93; 93; 93] = Value (PList [PList [PList []]]).
Proof. repeat split; vm_compute; reflexivity. Qed.

End JsonExamples.

(** ** What the embed page shows *)

Section PageFeedback.

Import Backend Pages.

Lemma embed_watermark_try_chain svc uploaded_file owner buyer passkey
  datetime_str W c :
  embed_watermark_try svc uploaded_file owner buyer passkey datetime_str
  = Ok (W, c) ->
  match blockchain svc with
  | Some _ => exists x, c = Some x
  | None => c = None
  end.
Proof.
  unfold embed_watermark_try.
  destruct (load_image uploaded_file) as [image|e]; [|discriminate].
  rewrite !bind_Ok.
  destruct (create_watermark_data owner buyer datetime_str passkey) as [data|e];
    [|discriminate].
  rewrite !bind_Ok.
  destruct (WatermarkProcessor.embed_watermark image (json_dumps (items data)))
    as [W'|e]; [|discriminate].
  rewrite !bind_Ok.
  destruct (encode (json_dumps_compact (items data))) as [hb|e]; [|discriminate].
  rewrite !bind_Ok.
  match goal with
  | |- context [metadata_to_data_uri ?md] =>
      destruct (metadata_to_data_uri md) as [uri|e]; [|discriminate]
  end.
  rewrite !bind_Ok. intros [= <- <-].
  destruct (blockchain svc) as [bc|]; [|reflexivity].
  destruct (mint_nft bc _ _ _); eexists; reflexivity.
Qed.

(** X21. The embed page shows the watermarked image only when the
    service has no blockchain client. [_handle_embed_button] takes the
    second component of what [embed_watermark] returns for the errors; with
    a client that component is the dict of the receipt, or of the error of
    [mint_nft], and is true: the page then prints the keys of that dict as
    errors ('tx_hash', 'tx_receipt', 'token_id', or 'error') and shows
    neither the image nor the download link, although the service returned
    the image. *)
Theorem image_is_shown_without_client_only (svc : WatermarkService)
  (uploaded_file : option upload)
  (owner buyer passkey confirm_passkey datetime_str : text) :
  let r := Backend.embed_watermark svc uploaded_file owner buyer passkey
             confirm_passkey datetime_str in
  (forall img, show_embed_result r = ShowsImage img ->
     blockchain svc = None /\ exists W, img = Some W /\ r = (Some W, Chain None)) /\
  (forall W, r.1 = Some W ->
     match blockchain svc with
     | None => show_embed_result r = ShowsImage (Some W)
     | Some _ =>
         show_embed_result r = ShowsErrors (map Msg mint_resp_keys) \/
         show_embed_result r = ShowsErrors [Msg "error"]
     end).
Proof.
  intros r. subst r. unfold Backend.embed_watermark.
  destruct (validate_embed_inputs owner passkey confirm_passkey uploaded_file)
    as [|e es].
  - destruct (embed_watermark_try svc uploaded_file owner buyer passkey
                datetime_str) as [[W c]|e] eqn:Htry.
    + pose proof (embed_watermark_try_chain _ _ _ _ _ _ _ _ Htry) as Hc.
      destruct (blockchain svc) as [bc|].
      * destruct Hc as [x ->]. split.
        -- intros img H. discriminate H.
        -- intros W' _. destruct x; [left|right]; reflexivity.
      * subst c. split.
        -- intros img [= <-]. split; [reflexivity|]. eauto.
        -- intros W' [= <-]. reflexivity.
    + split; [intros img H; discriminate H|intros W H; discriminate H].
  - split; [intros img H; discriminate H|intros W H; discriminate H].
Qed.

Example image_is_not_shown :
  exists W,
    Backend.embed_watermark Scenario3.failing_node (Some (Ok Scenario.alice_img))
      Scenario.bob_owner [] Scenario.bob_passkey Scenario.bob_passkey
      Scenario.bob_datetime
    = (Some W,
       Chain (Some (MintError
                      (RuntimeError "Contract not deployed or loaded. Call compile_and_deploy() first.")))) /\
    show_embed_result
      (Backend.embed_watermark Scenario3.failing_node (Some (Ok Scenario.alice_img))
         Scenario.bob_owner [] Scenario.bob_passkey Scenario.bob_passkey
         Scenario.bob_datetime)
    = ShowsErrors [Msg "error"].
Proof. eexists. split; vm_compute; reflexivity. Qed.

End PageFeedback.

(** ** The embed page and an image that holds a record *)

Section EmbedGate.

Import Backend Frontend Records Json EmbedPage Held.

Lemma is_str_plain s : is_str s -> plain (PStr s) = true.
Proof.
  intros H. cbn [plain]. apply forallb_forall. intros c Hc.
  apply list_elem_of_In in Hc.
  unfold is_str in H. rewrite Forall_forall in H. destruct (H c Hc) as [_ Hs].
  apply negb_true_iff, andb_false_iff. rewrite !N.leb_gt. lia.
Qed.

(** The preview of an image that holds a record puts the record into
    the session, and writes nothing else. *)
Lemma preview_stores_record room ss B wm :
  holds_record room B wm ->
  render_preview_section room ss (Some (Ok B))
  = Session (set_existing_watermark (Some wm) ss).
Proof.
  intros (t & He & Ht & Hj & _ & Ho & Hb & Hd). unfold render_preview_section.
  cbn [load_image]. rewrite bind_Ok, He.
  destruct t as [|c t]; [contradiction|]. cbn [str_truthy].
  rewrite Hj, Ho, Hb, Hd. reflexivity.
Qed.

(** The preview never writes [resell_verified]. *)
Lemma preview_keeps_resell_verified room ss uploaded_file ss' :
  render_preview_section room ss uploaded_file = Session ss' ->
  resell_verified ss' = resell_verified ss.
Proof.
  unfold render_preview_section. intros H.
  repeat case_match; try discriminate; injection H as <-; reflexivity.
Qed.

(** A protected record, the resale not verified, no passkey offered:
    the warning. *)
Lemma render_protected room svc ss f B wm clicked :
  holds_record room B wm -> form_uploaded_file f = Some (Ok B) ->
  truthy (get wm "passkey_hash") = true ->
  is_resell_verified ss = false ->
  render room svc ss f None clicked
  = Ran [] (set_existing_watermark (Some wm) ss) AlreadyWatermarked.
Proof.
  intros Hh Hf Hkey Hnv.
  assert (Hwm : truthy (PDict wm) = true) by (destruct Hh as (t & H); tauto).
  unfold render. rewrite Hf, (preview_stores_record room ss B wm Hh).
  unfold handle_resell_functionality, has_existing_watermark.
  cbn [set_existing_watermark existing_watermark]. rewrite Hwm, Hkey.
  replace (handle_embed_button svc _ f clicked) with AlreadyWatermarked;
    [reflexivity|].
  symmetry. apply handle_embed_button_refuses. split.
  - unfold has_existing_watermark. cbn [existing_watermark]. exact Hwm.
  - exact Hnv.
Qed.

(** A protected record and a passkey offered: the answer of
    [verify_resell_passkey] decides. *)
Lemma render_verify room svc ss f B wm clicked passkey log is_valid msg :
  holds_record room B wm -> form_uploaded_file f = Some (Ok B) ->
  truthy (get wm "passkey_hash") = true ->
  verify_resell_passkey svc passkey wm = (log, Ok (is_valid, msg)) ->
  render room svc ss f (Some passkey) clicked
  = Ran log (session_of wm is_valid)
      (if is_valid then button svc f clicked else AlreadyWatermarked).
Proof.
  intros Hh Hf Hkey Hv.
  assert (Hwm : truthy (PDict wm) = true) by (destruct Hh as (t & H); tauto).
  unfold render. rewrite Hf, (preview_stores_record room ss B wm Hh).
  unfold handle_resell_functionality, has_existing_watermark.
  cbn [set_existing_watermark existing_watermark]. rewrite Hwm, Hkey, Hv.
  unfold handle_embed_button, has_existing_watermark, is_resell_verified, button.
  cbn [existing_watermark resell_verified]. rewrite Hwm, ?Hf.
  destruct is_valid; reflexivity.
Qed.

(** A record without passkey hash: the page marks the resale verified
    and shows the button. *)
Lemma render_unprotected room svc ss f B wm verify_click clicked :
  holds_record room B wm -> form_uploaded_file f = Some (Ok B) ->
  truthy (get wm "passkey_hash") = false ->
  render room svc ss f verify_click clicked
  = Ran [] (session_of wm true) (button svc f clicked).
Proof.
  intros Hh Hf Hkey.
  assert (Hwm : truthy (PDict wm) = true) by (destruct Hh as (t & H); tauto).
  unfold render. rewrite Hf, (preview_stores_record room ss B wm Hh).
  rewrite (handle_resell_unprotected svc (set_existing_watermark (Some wm) ss)
             wm verify_click eq_refl Hwm Hkey).
  unfold handle_embed_button, has_existing_watermark, is_resell_verified, button.
  cbn [existing_watermark resell_verified]. rewrite Hwm, ?Hf. reflexivity.
Qed.

(** An image in which the back end embedded a record holds it. *)
Lemma embedded_record_is_held room B data :
  0 < room ->
  is_str (d_owner data) -> is_str (d_buyer data) -> is_str (d_datetime data) ->
  is_str (d_passkey_hash data) ->
  nbits (json_dumps (items data)) <= length B ->
  nbits (json_dumps (items data)) <= pixel_check_cap ->
  holds_record room
    (embed_bits (str_to_bin (json_dumps (items data)) ++ EOF) B)
    (record_dict data).
Proof.
  intros Hroom Ho Hb Hd Hh Hfit Hcap. exists (json_dumps (items data)).
  split; [|split; [discriminate|split; [|split; [|split; [|split]]]]].
  - pose proof (extract_embedded B (json_dumps (items data))
                  (json_dumps_ascii _) Hfit) as He.
    rewrite embed_watermark_fits, bind_Ok in He
      by (rewrite str_to_bin_length by apply ascii_latin1, json_dumps_ascii;
          exact Hfit).
    rewrite He, decide_True by exact Hcap. reflexivity.
  - apply (json_loads_json_dumps room (items data) Hroom).
    apply record_is_str; assumption.
  - apply truthy_insert.
  - exact (is_str_plain _ Ho).
  - exact (is_str_plain _ Hb).
  - exact (is_str_plain _ Hd).
Qed.

(** C2 (as amended). An image that holds a record is refused by the
    page, not by the service. [WatermarkService.embed_watermark] never
    looks for an existing record: with valid inputs and room for the
    serialized record it returns the image with the new record embedded,
    whatever the image held before. The page refuses: for every image
    that holds a record with a passkey hash, uploaded in a session in
    which the resale is not verified, a run of the page puts the record
    into the session and shows the "already has a watermark" warning
    instead of the button, so that the service is not called; so it does
    when a passkey is offered that [verify_resell_passkey] refuses. The
    button is shown, and calls the service, for a record without passkey
    hash, for which the page marks the resale as verified by itself, and
    after a passkey that [verify_resell_passkey] accepts. Every image in
    which the service embedded a record of strings without surrogates,
    ending within the scanned prefix, holds that record, with a passkey
    hash, and is refused so. *)
Theorem embed_new_is_gated_by_the_page (room : nat) (svc : WatermarkService) :
  (forall B owner buyer passkey confirm_passkey datetime_str pk,
     validate_embed_inputs owner passkey confirm_passkey (Some (Ok B)) = [] ->
     encodable owner -> encodable buyer -> encodable datetime_str ->
     encode passkey = Ok pk ->
     let data := {| d_owner := owner; d_buyer := buyer;
                    d_datetime := datetime_str;
                    d_passkey_hash := sha256_hexdigest pk |} in
     let payload := json_dumps (items data) in
     nbits payload <= length B ->
     exists W r,
       Backend.embed_watermark svc (Some (Ok B)) owner buyer passkey
         confirm_passkey datetime_str = (Some W, Chain r) /\
       WatermarkProcessor.embed_watermark B payload = Ok W /\
       (nbits payload <= pixel_check_cap ->
        WatermarkProcessor.extract_watermark W = Ok (Some payload))) /\
  (forall B wm ss f clicked,
     holds_record room B wm -> form_uploaded_file f = Some (Ok B) ->
     truthy (get wm "passkey_hash") = true ->
     (is_resell_verified ss = false ->
      render room svc ss f None clicked
      = Ran [] (set_existing_watermark (Some wm) ss) AlreadyWatermarked) /\
     (forall passkey log msg,
        verify_resell_passkey svc passkey wm = (log, Ok (false, msg)) ->
        render room svc ss f (Some passkey) clicked
        = Ran log (session_of wm false) AlreadyWatermarked) /\
     (forall passkey log msg,
        verify_resell_passkey svc passkey wm = (log, Ok (true, msg)) ->
        render room svc ss f (Some passkey) clicked
        = Ran log (session_of wm true) (button svc f clicked))) /\
  (forall B wm ss f verify_click clicked,
     holds_record room B wm -> form_uploaded_file f = Some (Ok B) ->
     truthy (get wm "passkey_hash") = false ->
     render room svc ss f verify_click clicked
     = Ran [] (session_of wm true) (button svc f clicked)) /\
  (0 < room ->
   forall B owner buyer passkey datetime_str pk,
     validate_embed_inputs owner passkey passkey (Some (Ok B)) = [] ->
     is_str owner -> is_str buyer -> is_str datetime_str ->
     encode passkey = Ok pk ->
     let data := {| d_owner := owner; d_buyer := buyer;
                    d_datetime := datetime_str;
                    d_passkey_hash := sha256_hexdigest pk |} in
     let payload := json_dumps (items data) in
     nbits payload <= length B -> nbits payload <= pixel_check_cap ->
     exists W r,
       Backend.embed_watermark svc (Some (Ok B)) owner buyer passkey passkey
         datetime_str = (Some W, Chain r) /\
       holds_record room W (record_dict data) /\
       truthy (get (record_dict data) "passkey_hash") = true /\
       forall ss f clicked,
         form_uploaded_file f = Some (Ok W) ->
         is_resell_verified ss = false ->
         render room svc ss f None clicked
         = Ran [] (set_existing_watermark (Some (record_dict data)) ss)
             AlreadyWatermarked).
Proof.
  split; [|split; [|split]].
  - intros B owner buyer passkey confirm_passkey datetime_str pk Hv Ho Hb Hd Hp
      data payload Hfit.
    destruct (service_embed_succeeds svc B owner buyer passkey confirm_passkey
                datetime_str pk Hv Ho Hb Hd Hp Hfit) as [r Hr].
    fold data payload in Hr.
    assert (Hlen : length (str_to_bin payload) + 16 <= length B).
    { rewrite str_to_bin_length by apply ascii_latin1, json_dumps_ascii.
      exact Hfit. }
    eexists _, r. split; [exact Hr|].
    split; [apply embed_watermark_fits, Hlen|].
    intros Hcap.
    pose proof (extract_embedded B payload (json_dumps_ascii _) Hfit) as H.
    rewrite (embed_watermark_fits B payload Hlen), bind_Ok in H.
    rewrite H, decide_True by exact Hcap. reflexivity.
  - intros B wm ss f clicked Hh Hf Hkey. split; [|split].
    + intros Hnv. exact (render_protected room svc ss f B wm clicked Hh Hf Hkey Hnv).
    + intros passkey log msg Hv.
      exact (render_verify room svc ss f B wm clicked passkey log false msg
               Hh Hf Hkey Hv).
    + intros passkey log msg Hv.
      exact (render_verify room svc ss f B wm clicked passkey log true msg
               Hh Hf Hkey Hv).
  - intros B wm ss f verify_click clicked Hh Hf Hkey.
    exact (render_unprotected room svc ss f B wm verify_click clicked Hh Hf Hkey).
  - intros Hroom B owner buyer passkey datetime_str pk Hv Ho Hb Hd Hp data
      payload Hfit Hcap.
    destruct (service_embed_succeeds svc B owner buyer passkey passkey
                datetime_str pk Hv (is_str_encodable _ Ho) (is_str_encodable _ Hb)
                (is_str_encodable _ Hd) Hp Hfit) as [r Hr].
    fold data payload in Hr.
    assert (Hheld : holds_record room
                      (embed_bits (str_to_bin payload ++ EOF) B)
                      (record_dict data)).
    { apply embedded_record_is_held; try assumption.
      apply ascii_is_str, sha256_hexdigest_ascii. }
    assert (Hkey : truthy (get (record_dict data) "passkey_hash") = true).
    { rewrite record_dict_passkey_hash. cbn [truthy d_passkey_hash data].
      apply str_truthy_length. rewrite sha256_hexdigest_length. lia. }
    eexists _, r. split; [exact Hr|]. split; [exact Hheld|].
    split; [exact Hkey|].
    intros ss f clicked Hf Hnv.
    exact (render_protected room svc ss f _ _ clicked Hheld Hf Hkey Hnv).
Qed.

Lemma alice_img_is_held : holds_record 1 Scenario.alice_img (record_dict Scenario.alice).
Proof.
  apply (embedded_record_is_held 1 (replicate 3000 0%Z) Scenario.alice);
    try (apply ascii_is_str, ascii_check; vm_compute; reflexivity);
    apply Nat.leb_le; vm_compute; reflexivity.
Qed.

Lemma embed_new_is_gated_by_the_page_witness :
  render 1 Scenario.offline fresh (upload_of Scenario.alice_img) None true
  = Ran [] (set_existing_watermark (Some (record_dict Scenario.alice)) fresh)
      AlreadyWatermarked.
Proof.
  apply (proj1 (proj1 (proj2 (embed_new_is_gated_by_the_page 1 Scenario.offline))
                  Scenario.alice_img (record_dict Scenario.alice) fresh
                  (upload_of Scenario.alice_img) true alice_img_is_held eq_refl
                  eq_refl)).
  reflexivity.
Defined.

(** X22. The verification is the session's, not the image's.
    [_render_preview_section] never writes [resell_verified]: for every
    image that holds a record with a passkey hash, uploaded in a session
    in which [resell_verified] is true from before, a run of the page in
    which no passkey is offered makes no call for a verification, leaves
    the flag as it is and shows the embed button. *)
Theorem verification_outlives_the_image (room : nat) (svc : WatermarkService)
  (ss : session_state) (f : form) (B : list Z) (wm : gmap text pyval)
  (clicked : bool) :
  holds_record room B wm -> form_uploaded_file f = Some (Ok B) ->
  truthy (get wm "passkey_hash") = true ->
  is_resell_verified ss = true ->
  (forall ss', render_preview_section room ss (form_uploaded_file f) = Session ss' ->
               resell_verified ss' = resell_verified ss) /\
  render room svc ss f None clicked
  = Ran [] (set_existing_watermark (Some wm) ss) (button svc f clicked).
Proof.
  intros Hh Hf Hkey Hv. split.
  - intros ss'. apply preview_keeps_resell_verified.
  - assert (Hwm : truthy (PDict wm) = true) by (destruct Hh as (t & H); tauto).
    unfold render. rewrite Hf, (preview_stores_record room ss B wm Hh).
    unfold handle_resell_functionality, has_existing_watermark.
    cbn [set_existing_watermark existing_watermark]. rewrite Hwm, Hkey.
    unfold handle_embed_button, has_existing_watermark, button.
    cbn [existing_watermark].
    replace (is_resell_verified _) with true by (symmetry; exact Hv).
    cbn [set_existing_watermark existing_watermark]. rewrite Hwm. reflexivity.
Qed.

Lemma bob_img_is_held : holds_record 1 bob_img (record_dict Scenario.bob).
Proof.
  apply (embedded_record_is_held 1 (replicate 3000 0%Z) Scenario.bob);
    try (apply ascii_is_str, ascii_check; vm_compute; reflexivity);
    apply Nat.leb_le; vm_compute; reflexivity.
Qed.

Lemma verification_outlives_the_image_witness :
  render 1 Scenario.offline (session_of (record_dict Scenario.alice) true)
    (upload_of bob_img) None false
  = Ran [] (session_of (record_dict Scenario.bob) true) Shown.
Proof.
  apply (proj2 (verification_outlives_the_image 1 Scenario.offline
                  (session_of (record_dict Scenario.alice) true)
                  (upload_of bob_img) bob_img (record_dict Scenario.bob) false
                  bob_img_is_held eq_refl eq_refl eq_refl)).
Defined.

End EmbedGate.
